(** * comfy_purge_loras: the "Purge LoRAs When Disk Full" node

    A shallow embedding of [comfy_purge_loras/__init__.py] and the
    properties of its eviction engine.

    Modelling conventions.
    - Python [int] is [Z]; Python [float] (usage percentages, timestamps)
      is modelled by the exact rational [Q]: rounding is not modelled.
    - [str] is [string] (byte strings); a [Path] is the string of a
      resolved path.  [str.lower()] is the ASCII mapping [str_lower] where
      the node is run; the collector is also given with the case mapping
      as a parameter, and characterised for every mapping.
    - The operating system is an interface ([OS]): every call takes the
      current world and returns an outcome together with the next world.
      Nothing is assumed about how the world evolves, so whatever another
      process does to the file system between or during calls is covered
      by the universally quantified statements.
    - Python exceptions are outcomes ([Raise]); code runs in a state and
      exception monad [M] whose state holds the world, the clock read by
      [time.time()] and the trace of system calls made so far.  The clock
      is not part of the file system; it stands still during one run and
      may differ from one run to the next.
    - The textual log is a list of structured lines ([LogLine]), one
      constructor per f-string of the source; [_format_bytes] and the
      [:.2f] renderings are presentation and are not modelled. *)

From Stdlib Require Import List String Ascii ZArith QArith Bool Lia.
From Stdlib Require Import Permutation Sorted.
Import ListNotations.

Local Open Scope Z_scope.

(** ** Strings: the [str] methods the node uses *)

Definition Path := string.

(** [c.lower()] on one ASCII character. *)
Definition ascii_lower (c : ascii) : ascii :=
  let n := nat_of_ascii c in
  if (Nat.leb 65 n && Nat.leb n 90)%bool then ascii_of_nat (n + 32) else c.

(** [s.lower()] *)
Fixpoint str_lower (s : string) : string :=
  match s with
  | EmptyString => EmptyString
  | String c r => String (ascii_lower c) (str_lower r)
  end.

(** [s.startswith(x)] *)
Fixpoint str_startswith (x s : string) : bool :=
  match x, s with
  | EmptyString, _ => true
  | String _ _, EmptyString => false
  | String a x', String b s' => (Ascii.eqb a b && str_startswith x' s')%bool
  end.

(** [x in s] for strings: [x] occurs in [s] as a contiguous substring. *)
Fixpoint str_contains (x s : string) : bool :=
  (str_startswith x s
   || match s with
      | EmptyString => false
      | String _ s' => str_contains x s'
      end)%bool.

(** [x in t] for a tuple of strings. *)
Definition str_mem (x : string) (t : list string) : bool :=
  existsb (String.eqb x) t.

(** Python truthiness of a tuple. *)
Definition nonempty {A : Type} (t : list A) : bool :=
  match t with [] => false | _ :: _ => true end.

(** [x] occurs in [s]. *)
Definition occurs_in (x s : string) : Prop :=
  exists pre post : string, s = (pre ++ x ++ post)%string.

(** [c.isspace()] on one ASCII character. *)
Definition is_space (c : ascii) : bool :=
  let n := nat_of_ascii c in
  ((Nat.leb 9 n && Nat.leb n 13) || (Nat.leb 28 n && Nat.leb n 32))%bool.

(** [s.lstrip()], [s.rstrip()], [s.strip()] *)
Fixpoint str_lstrip (s : string) : string :=
  match s with
  | EmptyString => EmptyString
  | String c r => if is_space c then str_lstrip r else s
  end.

Fixpoint str_rstrip (s : string) : string :=
  match s with
  | EmptyString => EmptyString
  | String c r =>
      match str_rstrip r with
      | EmptyString => if is_space c then EmptyString else String c EmptyString
      | r' => String c r'
      end
  end.

Definition str_strip (s : string) : string := str_rstrip (str_lstrip s).

(** [s.split(",")] *)
Fixpoint str_split_comma (s : string) : list string :=
  match s with
  | EmptyString => [EmptyString]
  | String c r =>
      if Ascii.eqb c "," then EmptyString :: str_split_comma r
      else
        match str_split_comma r with
        | [] => [String c EmptyString]
        | h :: t => String c h :: t
        end
  end.

(** Python truthiness of a string. *)
Definition str_nonempty (s : string) : bool :=
  match s with EmptyString => false | String _ _ => true end.

(** [_csv_list], the local helper of [run]:
    [[x.strip() for x in (s or "").split(",") if x.strip()]] *)
Definition _csv_list (s : string) : list string :=
  map str_strip
    (filter (fun x => str_nonempty (str_strip x)) (str_split_comma s)).

(** [x.lower() if x.startswith(".") else f".{x.lower()}"] over [_csv_list]. *)
Definition normalize_suffixes (csv : string) : list string :=
  map (fun x => if str_startswith "." x then str_lower x
                else String "." (str_lower x))
      (_csv_list csv).

(** ** Rationals: boolean comparisons *)

(** [x < y] on floats. *)
Definition Qltb (x y : Q) : bool := negb (Qle_bool y x).

(** [x >= y] on floats. *)
Definition Qgeb (x y : Q) : bool := Qle_bool y x.

(** ** Outcomes of system calls *)

(** The exception classes the node distinguishes; [OtherError] stands for
    any other exception. *)
Inductive exn : Type :=
| FileNotFoundError
| PermissionError
| IsADirectoryError
| OtherError.

Inductive res (A : Type) : Type :=
| Ok (a : A)
| Raise (e : exn).

Arguments Ok {A} a.
Arguments Raise {A} e.

(** The two fields of [os.stat_result] that are read. *)
Record stat_result : Type := mkStat { st_size : Z; st_mtime : Q }.

(** [shutil.disk_usage] result. *)
Record usage : Type := mkUsage { u_total : Z; u_used : Z; u_free : Z }.

(** One system call together with its outcome. *)
Inductive Event : Type :=
| EvResolve (p : string) (r : res Path)
| EvCwd (r : res Path)
| EvHome (r : res Path)
| EvDiskUsage (p : Path) (r : res usage)
| EvExists (p : Path) (r : res bool)
| EvIsDir (p : Path) (r : res bool)
| EvIsFile (p : Path) (r : res bool)
| EvRglob (p : Path) (r : res (list Path))
| EvStat (p : Path) (r : res stat_result)
| EvUnlink (p : Path) (r : res unit)
| EvRmtree (p : Path) (r : res unit)
| EvTime (t : Q).

(** The calls that change the file system on behalf of the node. *)
Definition is_mutation (e : Event) : bool :=
  match e with
  | EvUnlink _ _ | EvRmtree _ _ => true
  | _ => false
  end.

(** ** The operating system interface *)

Class OS (W : Type) : Type := {
  (** [Path(s).expanduser().resolve()] *)
  os_resolve : W -> string -> res Path * W;
  (** [Path.cwd()] *)
  os_cwd : W -> res Path * W;
  (** [Path.home()] *)
  os_home : W -> res Path * W;
  (** [shutil.disk_usage(p)] *)
  os_disk_usage : W -> Path -> res usage * W;
  (** [p.exists()], [p.is_dir()], [p.is_file()] *)
  os_exists : W -> Path -> res bool * W;
  os_is_dir : W -> Path -> res bool * W;
  os_is_file : W -> Path -> res bool * W;
  (** [p.rglob("*")], taken as one call that lists the tree *)
  os_rglob : W -> Path -> res (list Path) * W;
  (** [p.stat()] *)
  os_stat : W -> Path -> res stat_result * W;
  (** [os.unlink(p)] *)
  os_unlink : W -> Path -> res unit * W;
  (** [shutil.rmtree(p, ignore_errors=True)] *)
  os_rmtree : W -> Path -> res unit * W;
  (** pathlib's pure operations: [p.name], [p.suffix] and [p / q] *)
  path_name : Path -> string;
  path_suffix : Path -> string;
  path_join : Path -> string -> Path
}.

(** ** The log *)

Inductive LogLine : Type :=
| LUsageOK (before threshold : Q)
| LPurging (before threshold : Q) (dir : Path)
| LTarget (target : Q)
| LAllowed (suffixes : list string)
| LExcluded (names : list string)
| LParams (min_age limit : Z) (dry : bool)
| LBlank
| LDeletionsHeader
| LStop (limit : Z)
| LDryRun (f : Path) (size : Z)
| LDeleted (f : Path) (size : Z)
| LSkipPermission (f : Path)
| LSkipDirectory (f : Path)
| LSkipOther (f : Path) (e : exn)
| LReached (pct target : Q)
| LFreedTotal (bytes : Z) (n : Z)
| LUsageBeforeAfter (before after : Q)
| LWarnMissing (dir : Path)
| LCurrentUsage (pct : Q)
| LTrashNotFound (p : Path)
| LTrashCleared (p : Path) (freed : Z)
| LTrashFailed (p : Path) (e : exn).

(** The dict returned by [_purge_oldest_until_below]. *)
Record PurgeResult : Type := mkResult {
  triggered : bool;
  before_used_pct : Q;
  after_used_pct : Q;
  files_deleted : Z;
  bytes_freed : Z;
  log : list LogLine
}.

(** ** The monad *)

Record St (W : Type) : Type := mkSt {
  world : W;
  clock : Q;
  trace : list Event
}.

Arguments mkSt {W} world clock trace.
Arguments world {W} s.
Arguments clock {W} s.
Arguments trace {W} s.

Definition M (W A : Type) : Type := St W -> res A * St W.

Definition ret {W A : Type} (a : A) : M W A := fun s => (Ok a, s).

Definition raise {W A : Type} (e : exn) : M W A := fun s => (Raise e, s).

Definition bind {W A B : Type} (m : M W A) (k : A -> M W B) : M W B :=
  fun s =>
    match m s with
    | (Ok a, s') => k a s'
    | (Raise e, s') => (Raise e, s')
    end.

(** [try: m], handing the outcome to the handlers that follow. *)
Definition try {W A : Type} (m : M W A) : M W (res A) :=
  fun s => let (r, s') := m s in (Ok r, s').

Notation "x <- m ;; k" := (bind m (fun x => k))
  (at level 61, m at next level, right associativity).

Section Node.

Context {W : Type} `{OS W}.

(** A system call: ask the world, record the call and its outcome. *)
Definition syscall {A : Type} (op : W -> res A * W) (ev : res A -> Event)
  : M W A :=
  fun s =>
    let (r, w') := op (world s) in
    (r, mkSt w' (clock s) (trace s ++ [ev r])).

Definition sys_resolve (p : string) : M W Path :=
  syscall (fun w => os_resolve w p) (EvResolve p).
Definition sys_cwd : M W Path := syscall os_cwd EvCwd.
Definition sys_home : M W Path := syscall os_home EvHome.
Definition sys_disk_usage (p : Path) : M W usage :=
  syscall (fun w => os_disk_usage w p) (EvDiskUsage p).
Definition sys_exists (p : Path) : M W bool :=
  syscall (fun w => os_exists w p) (EvExists p).
Definition sys_is_dir (p : Path) : M W bool :=
  syscall (fun w => os_is_dir w p) (EvIsDir p).
Definition sys_is_file (p : Path) : M W bool :=
  syscall (fun w => os_is_file w p) (EvIsFile p).
Definition sys_rglob (p : Path) : M W (list Path) :=
  syscall (fun w => os_rglob w p) (EvRglob p).
Definition sys_stat (p : Path) : M W stat_result :=
  syscall (fun w => os_stat w p) (EvStat p).
Definition sys_unlink (p : Path) : M W unit :=
  syscall (fun w => os_unlink w p) (EvUnlink p).
Definition sys_rmtree (p : Path) : M W unit :=
  syscall (fun w => os_rmtree w p) (EvRmtree p).

(** [time.time()] *)
Definition sys_time : M W Q :=
  fun s => (Ok (clock s), mkSt (world s) (clock s) (trace s ++ [EvTime (clock s)])).

(** [p.unlink(missing_ok=True)] *)
Definition unlink_missing_ok (p : Path) : M W unit :=
  r <- try (sys_unlink p) ;;
  match r with
  | Ok _ => ret tt
  | Raise FileNotFoundError => ret tt
  | Raise e => raise e
  end.

(** ** Helpers *)

(** [_disk_usage_percent] *)
Definition _disk_usage_percent (path : Path) : M W Q :=
  u <- sys_disk_usage path ;;
  let used := u_used u in
  let total := if u_total u =? 0 then 1 else u_total u in
  ret ((inject_Z used / inject_Z total) * 100)%Q.

(** The two filters of [_collect_lora_files]. *)
Definition suffix_rejected (allowed_suffixes : list string) (f : Path) : bool :=
  (nonempty allowed_suffixes
   && negb (str_mem (str_lower (path_suffix f)) allowed_suffixes))%bool.

Definition name_excluded (exclude_names : list string) (f : Path) : bool :=
  let name_lower := str_lower (path_name f) in
  existsb (fun x => str_contains x name_lower) exclude_names.

(** The [for f in loras_dir.rglob("*")] loop of [_collect_lora_files]. *)
Fixpoint collect_loop (allowed_suffixes exclude_names : list string)
  (listing : list Path) (files : list Path) : M W (list Path) :=
  match listing with
  | [] => ret files
  | f :: rest =>
      isf <- sys_is_file f ;;
      if negb isf then
        collect_loop allowed_suffixes exclude_names rest files
      else if suffix_rejected allowed_suffixes f then
        collect_loop allowed_suffixes exclude_names rest files
      else if name_excluded exclude_names f then
        collect_loop allowed_suffixes exclude_names rest files
      else
        collect_loop allowed_suffixes exclude_names rest (files ++ [f])
  end.

(** [_collect_lora_files] *)
Definition _collect_lora_files (loras_dir : Path)
  (allowed_suffixes exclude_names : list string) : M W (list Path) :=
  ex <- sys_exists loras_dir ;;
  if negb ex then ret []
  else
    isd <- sys_is_dir loras_dir ;;
    if negb isd then ret []
    else
      listing <- sys_rglob loras_dir ;;
      collect_loop allowed_suffixes exclude_names listing [].

(** [_mtime_safe] *)
Definition _mtime_safe (p : Path) : M W Q :=
  r <- try (sys_stat p) ;;
  match r with
  | Ok st => ret (st_mtime st)
  | Raise FileNotFoundError => sys_time
  | Raise e => raise e
  end.

(** The loop of [_folder_size]. *)
Fixpoint folder_size_loop (listing : list Path) (total : Z) : M W Z :=
  match listing with
  | [] => ret total
  | f :: rest =>
      isf <- sys_is_file f ;;
      if isf then
        r <- try (sys_stat f) ;;
        match r with
        | Ok st => folder_size_loop rest (total + st_size st)
        | Raise FileNotFoundError => folder_size_loop rest total
        | Raise e => raise e
        end
      else folder_size_loop rest total
  end.

(** [_folder_size] *)
Definition _folder_size (p : Path) : M W Z :=
  ex <- sys_exists p ;;
  if negb ex then ret 0
  else
    listing <- sys_rglob p ;;
    folder_size_loop listing 0.

(** ** [list.sort(key=...)]

    The keys are computed once, in list order, before any comparison; the
    sort is stable and compares keys with [<] only.  For keys that are
    totally ordered the stable arrangement is unique, so insertion from
    the right computes the list that CPython's sort returns. *)

Fixpoint decorate (key : Path -> M W Q) (l : list Path)
  : M W (list (Q * Path)) :=
  match l with
  | [] => ret []
  | p :: rest =>
      k <- key p ;;
      ks <- decorate key rest ;;
      ret ((k, p) :: ks)
  end.

Fixpoint insert_keyed (x : Q * Path) (l : list (Q * Path))
  : list (Q * Path) :=
  match l with
  | [] => [x]
  | y :: l' => if Qltb (fst y) (fst x) then y :: insert_keyed x l' else x :: l
  end.

Definition sort_keyed (l : list (Q * Path)) : list (Q * Path) :=
  fold_right insert_keyed [] l.

Definition list_sort (key : Path -> M W Q) (l : list Path) : M W (list Path) :=
  keyed <- decorate key l ;;
  ret (map snd (sort_keyed keyed)).

(** ** The eviction engine *)

(** The arguments of [_purge_oldest_until_below]. *)
Record PurgeArgs : Type := mkArgs {
  root_for_usage : Path;
  loras_dir : Path;
  threshold_percent : Q;
  target_percent : Q;
  allowed_suffixes : list string;
  exclude_names : list string;
  min_age_seconds : Z;
  delete_count_limit : Z;
  dry_run : bool
}.

(** The locals the loop updates: [files_deleted], [bytes_freed], [lines]. *)
Record Acc : Type := mkAcc {
  n_deleted : Z;
  n_bytes : Z;
  lines : list LogLine
}.

Definition counted (acc : Acc) (size : Z) (l : LogLine) : Acc :=
  mkAcc (n_deleted acc + 1) (n_bytes acc + size) (lines acc ++ [l]).

Definition logged (acc : Acc) (l : LogLine) : Acc :=
  mkAcc (n_deleted acc) (n_bytes acc) (lines acc ++ [l]).

(** [delete_count_limit and files_deleted >= delete_count_limit] *)
Definition limit_reached (a : PurgeArgs) (acc : Acc) : bool :=
  (negb (delete_count_limit a =? 0)
   && (delete_count_limit a <=? n_deleted acc))%bool.

(** [min_age_seconds > 0 and (now - st.st_mtime) < min_age_seconds] *)
Definition too_fresh (a : PurgeArgs) (now : Q) (st : stat_result) : bool :=
  ((0 <? min_age_seconds a)
   && Qltb (now - st_mtime st)%Q (inject_Z (min_age_seconds a)))%bool.

(** The [if dry_run: ... else: try: ... except ...] block. *)
Definition attempt_delete (a : PurgeArgs) (f : Path) (size : Z) (acc : Acc)
  : M W Acc :=
  if dry_run a then ret (counted acc size (LDryRun f size))
  else
    r <- try (unlink_missing_ok f) ;;
    match r with
    | Ok _ => ret (counted acc size (LDeleted f size))
    | Raise PermissionError => ret (logged acc (LSkipPermission f))
    | Raise IsADirectoryError => ret (logged acc (LSkipDirectory f))
    | Raise e => ret (logged acc (LSkipOther f e))
    end.

(** The [for f in files] loop; [break] returns, [continue] recurses. *)
Fixpoint purge_loop (a : PurgeArgs) (now : Q) (files : list Path) (acc : Acc)
  : M W Acc :=
  match files with
  | [] => ret acc
  | f :: rest =>
      if limit_reached a acc then
        ret (logged acc (LStop (delete_count_limit a)))
      else
        r <- try (sys_stat f) ;;
        match r with
        | Raise FileNotFoundError => purge_loop a now rest acc
        | Raise e => raise e
        | Ok st =>
            if too_fresh a now st then purge_loop a now rest acc
            else
              let size := st_size st in
              acc' <- attempt_delete a f size acc ;;
              after_used_pct_now <- _disk_usage_percent (root_for_usage a) ;;
              if Qltb after_used_pct_now (target_percent a) then
                ret (logged acc' (LReached after_used_pct_now (target_percent a)))
              else purge_loop a now rest acc'
        end
  end.

Definition header_lines (a : PurgeArgs) (before : Q) : list LogLine :=
  [ LPurging before (threshold_percent a) (loras_dir a);
    LTarget (target_percent a);
    LAllowed (allowed_suffixes a);
    LExcluded (exclude_names a);
    LParams (min_age_seconds a) (delete_count_limit a) (dry_run a);
    LBlank;
    LDeletionsHeader ].

(** [_purge_oldest_until_below] *)
Definition _purge_oldest_until_below (a : PurgeArgs) : M W PurgeResult :=
  before <- _disk_usage_percent (root_for_usage a) ;;
  if Qltb before (threshold_percent a) then
    ret (mkResult false before before 0 0
           [LUsageOK before (threshold_percent a)])
  else
    files <- _collect_lora_files (loras_dir a) (allowed_suffixes a)
               (exclude_names a) ;;
    files <- list_sort _mtime_safe files ;;
    now <- sys_time ;;
    acc <- purge_loop a now files (mkAcc 0 0 (header_lines a before)) ;;
    after <- _disk_usage_percent (root_for_usage a) ;;
    ret (mkResult true before after (n_deleted acc) (n_bytes acc)
           ([ LFreedTotal (n_bytes acc) (n_deleted acc);
              LUsageBeforeAfter before after;
              LBlank ] ++ lines acc)).

(** ** The reclaim sweep *)

(** [_clear_user_trash] *)
Definition _clear_user_trash : M W LogLine :=
  home <- sys_home ;;
  let trash_path := path_join home ".local/share/Trash/files" in
  ex <- sys_exists trash_path ;;
  if negb ex then ret (LTrashNotFound trash_path)
  else
    before <- _folder_size trash_path ;;
    r <- try (sys_rmtree trash_path) ;;
    match r with
    | Ok _ => ret (LTrashCleared trash_path before)
    | Raise e => ret (LTrashFailed trash_path e)
    end.

(** ** The node *)

(** The parameters of [PurgeLoRAsWhenDiskFull.run]. *)
Record RunArgs : Type := mkRun {
  loras_path : string;
  run_threshold_percent : Q;
  run_target_percent : Q;
  allowed_suffixes_csv : string;
  exclude_names_csv : string;
  min_age_minutes : Z;
  run_delete_count_limit : Z;
  run_dry_run : bool
}.

(** The tuple [run] returns, by [RETURN_NAMES]. *)
Record NodeOutput : Type := mkOut {
  out_log : list LogLine;
  used_before_pct : Q;
  used_after_pct : Q;
  out_files_deleted : Z;
  out_bytes_freed : Z
}.

(** [target_percent] after the hysteresis correction of [run]. *)
Definition effective_target (threshold_percent target_percent : Q) : Q :=
  if Qgeb target_percent threshold_percent then (threshold_percent - 1)%Q
  else target_percent.

(** The arguments [run] hands to the engine for a resolved directory. *)
Definition engine_args (r : RunArgs) (dir : Path) : PurgeArgs :=
  mkArgs dir dir
    (run_threshold_percent r)
    (effective_target (run_threshold_percent r) (run_target_percent r))
    (normalize_suffixes (allowed_suffixes_csv r))
    (map str_lower (_csv_list (exclude_names_csv r)))
    (min_age_minutes r * 60)
    (run_delete_count_limit r)
    (run_dry_run r).

(** [PurgeLoRAsWhenDiskFull.run] *)
Definition run (r : RunArgs) : M W NodeOutput :=
  dir <- sys_resolve (loras_path r) ;;
  ex <- sys_exists dir ;;
  if negb ex then
    cwd <- sys_cwd ;;
    used <- _disk_usage_percent cwd ;;
    ret (mkOut [LWarnMissing dir; LCurrentUsage used] used used 0 0)
  else
    res <- _purge_oldest_until_below (engine_args r dir) ;;
    trash_log <- _clear_user_trash ;;
    ret (mkOut (log res ++ [LBlank; trash_log])
           (before_used_pct res) (after_used_pct res)
           (files_deleted res) (bytes_freed res)).

End Node.

(** ** A simulated host

    A small file system with one disk, used to run the node on concrete
    inputs.  Entries are kept in enumeration order.  [script] is what other
    processes do: before each system call the next scripted action, if
    any, is applied. *)

Module Sim.

Inductive node : Type :=
| File (size : Z) (mtime : Q) (deletable : bool)
| Dir.

Inductive action : Type :=
| ExtRemove (p : Path)
| ExtMkdir (p : Path)
| ExtWrite (p : Path) (size : Z) (mtime : Q).

Record machine : Type := mkMachine {
  entries : list (Path * node);
  capacity : Z;
  other_used : Z;
  home_dir : Path;
  cwd_dir : Path;
  script : list (option action)
}.

Fixpoint lookup (p : Path) (es : list (Path * node)) : option node :=
  match es with
  | [] => None
  | (q, n) :: r => if String.eqb q p then Some n else lookup p r
  end.

Definition remove (p : Path) (es : list (Path * node)) : list (Path * node) :=
  filter (fun e => negb (String.eqb (fst e) p)) es.

Definition under (root p : Path) : bool :=
  str_startswith (root ++ "/")%string p.

Definition remove_tree (root : Path) (es : list (Path * node))
  : list (Path * node) :=
  filter (fun e => negb (String.eqb (fst e) root || under root (fst e))%bool) es.

Definition apply_action (a : action) (es : list (Path * node))
  : list (Path * node) :=
  match a with
  | ExtRemove p => remove p es
  | ExtMkdir p => remove p es ++ [(p, Dir)]
  | ExtWrite p size mtime => remove p es ++ [(p, File size mtime true)]
  end.

Definition with_entries (w : machine) (es : list (Path * node)) : machine :=
  mkMachine es (capacity w) (other_used w) (home_dir w) (cwd_dir w) (script w).

(** What the other processes do before the next call. *)
Definition interfere (w : machine) : machine :=
  match script w with
  | [] => w
  | None :: r =>
      mkMachine (entries w) (capacity w) (other_used w) (home_dir w) (cwd_dir w) r
  | Some a :: r =>
      mkMachine (apply_action a (entries w)) (capacity w) (other_used w)
        (home_dir w) (cwd_dir w) r
  end.

Definition file_bytes (es : list (Path * node)) : Z :=
  fold_right (fun e acc => match snd e with File sz _ _ => sz + acc | Dir => acc end)
    0 es.

Definition disk_usage (w : machine) (p : Path) : res usage * machine :=
  let w := interfere w in
  match lookup p (entries w) with
  | None => (Raise FileNotFoundError, w)
  | Some _ =>
      let used := other_used w + file_bytes (entries w) in
      (Ok (mkUsage (capacity w) used (capacity w - used)), w)
  end.

Definition exists_ (w : machine) (p : Path) : res bool * machine :=
  let w := interfere w in
  (Ok (match lookup p (entries w) with Some _ => true | None => false end), w).

Definition is_dir (w : machine) (p : Path) : res bool * machine :=
  let w := interfere w in
  (Ok (match lookup p (entries w) with Some Dir => true | _ => false end), w).

Definition is_file (w : machine) (p : Path) : res bool * machine :=
  let w := interfere w in
  (Ok (match lookup p (entries w) with Some (File _ _ _) => true | _ => false end),
   w).

Definition rglob (w : machine) (p : Path) : res (list Path) * machine :=
  let w := interfere w in
  (Ok (map fst (filter (fun e => under p (fst e)) (entries w))), w).

Definition stat (w : machine) (p : Path) : res stat_result * machine :=
  let w := interfere w in
  match lookup p (entries w) with
  | None => (Raise FileNotFoundError, w)
  | Some (File sz mt _) => (Ok (mkStat sz mt), w)
  | Some Dir => (Ok (mkStat 4096 0), w)
  end.

Definition unlink (w : machine) (p : Path) : res unit * machine :=
  let w := interfere w in
  match lookup p (entries w) with
  | None => (Raise FileNotFoundError, w)
  | Some Dir => (Raise IsADirectoryError, w)
  | Some (File _ _ false) => (Raise PermissionError, w)
  | Some (File _ _ true) => (Ok tt, with_entries w (remove p (entries w)))
  end.

Definition rmtree (w : machine) (p : Path) : res unit * machine :=
  let w := interfere w in
  (Ok tt, with_entries w (remove_tree p (entries w))).

Definition resolve (w : machine) (p : string) : res Path * machine :=
  let w := interfere w in (Ok p, w).

Definition cwd (w : machine) : res Path * machine :=
  let w := interfere w in (Ok (cwd_dir w), w).

Definition home (w : machine) : res Path * machine :=
  let w := interfere w in (Ok (home_dir w), w).

(** [PurePosixPath.name]: the text after the last slash. *)
Fixpoint name_from (acc p : string) : string :=
  match p with
  | EmptyString => acc
  | String c r =>
      if Ascii.eqb c "/" then name_from EmptyString r
      else name_from (acc ++ String c EmptyString)%string r
  end.

Definition name (p : Path) : string := name_from EmptyString p.

Fixpoint rfind_dot (s : string) : option nat :=
  match s with
  | EmptyString => None
  | String c r =>
      match rfind_dot r with
      | Some i => Some (S i)
      | None => if Ascii.eqb c "." then Some O else None
      end
  end.

(** [PurePosixPath.suffix]: from the last dot of the name, unless that dot
    is the first or the last character. *)
Definition suffix (p : Path) : string :=
  let n := name p in
  match rfind_dot n with
  | Some i =>
      if (Nat.ltb 0 i && Nat.ltb i (String.length n - 1))%bool
      then substring i (String.length n - i) n
      else EmptyString
  | None => EmptyString
  end.

Definition join (p : Path) (q : string) : Path := (p ++ "/" ++ q)%string.

#[global] Instance os : OS machine := {|
  os_resolve := resolve;
  os_cwd := cwd;
  os_home := home;
  os_disk_usage := disk_usage;
  os_exists := exists_;
  os_is_dir := is_dir;
  os_is_file := is_file;
  os_rglob := rglob;
  os_stat := stat;
  os_unlink := unlink;
  os_rmtree := rmtree;
  path_name := name;
  path_suffix := suffix;
  path_join := join
|}.

(** A run starts with an empty trace. *)
Definition start (w : machine) (now : Q) : St machine := mkSt w now [].

(** *** Sample inputs *)

Definition loras : Path := "/models/loras"%string.
Definition trash : Path := "/home/u/.local/share/Trash/files"%string.

(** A disk of capacity 100 that is 93 percent full: five files under the
    LoRA directory, one of them not deletable, and one file in the trash. *)
Definition disk : machine :=
  mkMachine
    [ ("/"%string, Dir);
      ("/models"%string, Dir);
      (loras, Dir);
      ("/models/loras/new.safetensors"%string, File 10 900 true);
      ("/models/loras/old.safetensors"%string, File 20 100 true);
      ("/models/loras/locked.safetensors"%string, File 8 20 false);
      ("/models/loras/keep_me.safetensors"%string, File 5 50 true);
      ("/models/loras/notes.txt"%string, File 7 10 true);
      ("/home/u"%string, Dir);
      (trash, Dir);
      ("/home/u/.local/share/Trash/files/junk"%string, File 3 0 true) ]
    100 40 "/home/u"%string "/"%string [].

(** The same disk while another process removes [old.safetensors] just
    before the sixteenth system call made on it. *)
Definition racy_disk : machine :=
  mkMachine (entries disk) 100 40 "/home/u"%string "/"%string
    (repeat None 15
     ++ [Some (ExtRemove "/models/loras/old.safetensors"%string)]).

(** Engine arguments on the sample disk: threshold 90, target 85. *)
Definition args (min_age limit : Z) (dry : bool) : PurgeArgs :=
  mkArgs loras loras 90 85 [".safetensors"%string] ["keep"%string]
    min_age limit dry.

(** [run] parameters on the sample disk. *)
Definition run_args (path : string) (threshold target : Q) (dry : bool)
  : RunArgs :=
  mkRun path threshold target ".safetensors,.ckpt"%string "keep"%string 0 0 dry.

(** *** Sample runs, all started at time 1000 *)

Definition old_file : Path := "/models/loras/old.safetensors"%string.
Definition new_file : Path := "/models/loras/new.safetensors"%string.
Definition junk_file : Path := "/home/u/.local/share/Trash/files/junk"%string.

(** The engine in live mode while [old.safetensors] is removed under it. *)
Definition engine_racy : res PurgeResult * St machine :=
  _purge_oldest_until_below (args 0 0 false) (start racy_disk 1000).

(** The engine under dry-run with a minimum age of 600 seconds. *)
Definition engine_dry : res PurgeResult * St machine :=
  _purge_oldest_until_below (args 600 0 true) (start disk 1000).

(** The same dry run again, at time 2000, in the world the first left. *)
Definition engine_dry_again : res PurgeResult * St machine :=
  _purge_oldest_until_below (args 600 0 true)
    (mkSt (world (snd engine_dry)) 2000 (trace (snd engine_dry))).

(** [run] under dry-run. *)
Definition node_dry : res NodeOutput * St machine :=
  run (run_args loras 90 85 true) (start disk 1000).

(** [run] on a directory that does not exist. *)
Definition node_missing : res NodeOutput * St machine :=
  run (run_args "/nowhere"%string 90 85 false) (start disk 1000).

End Sim.

(** ** Vocabulary of the statements *)


(** The percentage [_disk_usage_percent] computes from a usage reading. *)
Definition percent_of (u : usage) : Q :=
  ((inject_Z (u_used u) / inject_Z (if u_total u =? 0 then 1 else u_total u))
   * 100)%Q.

(** The accumulator the loop starts from. *)
Definition acc0 (a : PurgeArgs) (before : Q) : Acc :=
  mkAcc 0 0 (header_lines a before).

(** A call that raised [e] and is not caught by any handler of the engine:
    a probe, an enumeration call, or a [stat] that failed otherwise than
    with [FileNotFoundError]. *)
Definition abort_cause (ev : Event) (e : exn) : Prop :=
  match ev with
  | EvDiskUsage _ r => r = Raise e
  | EvExists _ r | EvIsDir _ r | EvIsFile _ r => r = Raise e
  | EvRglob _ r => r = Raise e
  | EvStat _ r => r = Raise e /\ e <> FileNotFoundError
  | _ => False
  end.

(** [k] is the sort key the calls in [evs] justify for [p]: a modification
    time some [stat] of [p] reported, or [now] when a [stat] of [p] raised
    [FileNotFoundError]. *)
Definition key_justified (now : Q) (evs : list Event) (kp : Q * Path) : Prop :=
  (exists st, In (EvStat (snd kp) (Ok st)) evs /\ fst kp = st_mtime st)
  \/ (In (EvStat (snd kp) (Raise FileNotFoundError)) evs /\ fst kp = now).

(** The calls and the effect on the accumulator of one pass through the
    deletion block of the loop, for a candidate [f] of size [size]. *)
Inductive attempt_run (a : PurgeArgs) (f : Path) (size : Z) (acc : Acc)
  : list Event -> Acc -> Prop :=
| AR_dry :
    dry_run a = true ->
    attempt_run a f size acc [] (counted acc size (LDryRun f size))
| AR_deleted :
    dry_run a = false ->
    attempt_run a f size acc [EvUnlink f (Ok tt)]
      (counted acc size (LDeleted f size))
| AR_gone :
    dry_run a = false ->
    attempt_run a f size acc [EvUnlink f (Raise FileNotFoundError)]
      (counted acc size (LDeleted f size))
| AR_permission :
    dry_run a = false ->
    attempt_run a f size acc [EvUnlink f (Raise PermissionError)]
      (logged acc (LSkipPermission f))
| AR_directory :
    dry_run a = false ->
    attempt_run a f size acc [EvUnlink f (Raise IsADirectoryError)]
      (logged acc (LSkipDirectory f))
| AR_other :
    dry_run a = false ->
    attempt_run a f size acc [EvUnlink f (Raise OtherError)]
      (logged acc (LSkipOther f OtherError)).

(** The runs of the eviction loop: from the candidates left and the
    accumulator, the calls made and the outcome. *)
Inductive loop_run (a : PurgeArgs) (now : Q)
  : list Path -> Acc -> list Event -> res Acc -> Prop :=
| LR_done acc :
    loop_run a now [] acc [] (Ok acc)
| LR_limit f rest acc :
    limit_reached a acc = true ->
    loop_run a now (f :: rest) acc []
      (Ok (logged acc (LStop (delete_count_limit a))))
| LR_vanished f rest acc evs r :
    limit_reached a acc = false ->
    loop_run a now rest acc evs r ->
    loop_run a now (f :: rest) acc
      (EvStat f (Raise FileNotFoundError) :: evs) r
| LR_stat_raises f rest acc e :
    limit_reached a acc = false ->
    e <> FileNotFoundError ->
    loop_run a now (f :: rest) acc [EvStat f (Raise e)] (Raise e)
| LR_fresh f rest acc st evs r :
    limit_reached a acc = false ->
    too_fresh a now st = true ->
    loop_run a now rest acc evs r ->
    loop_run a now (f :: rest) acc (EvStat f (Ok st) :: evs) r
| LR_probe_raises f rest acc st att acc' e :
    limit_reached a acc = false ->
    too_fresh a now st = false ->
    attempt_run a f (st_size st) acc att acc' ->
    loop_run a now (f :: rest) acc
      (EvStat f (Ok st) :: att ++ [EvDiskUsage (root_for_usage a) (Raise e)])
      (Raise e)
| LR_target f rest acc st att acc' u :
    limit_reached a acc = false ->
    too_fresh a now st = false ->
    attempt_run a f (st_size st) acc att acc' ->
    Qltb (percent_of u) (target_percent a) = true ->
    loop_run a now (f :: rest) acc
      (EvStat f (Ok st) :: att ++ [EvDiskUsage (root_for_usage a) (Ok u)])
      (Ok (logged acc' (LReached (percent_of u) (target_percent a))))
| LR_next f rest acc st att acc' u evs r :
    limit_reached a acc = false ->
    too_fresh a now st = false ->
    attempt_run a f (st_size st) acc att acc' ->
    Qltb (percent_of u) (target_percent a) = false ->
    loop_run a now rest acc' evs r ->
    loop_run a now (f :: rest) acc
      (EvStat f (Ok st) :: att ++ EvDiskUsage (root_for_usage a) (Ok u) :: evs)
      r.

(** [m] leaves the clock alone, makes no mutating call, and raises only
    what an uncaught failing call raised. *)
Definition reads_only {W A : Type} (m : M W A) : Prop :=
  forall s r s',
    m s = (r, s') ->
    clock s' = clock s
    /\ exists evs,
        trace s' = trace s ++ evs
        /\ Forall (fun ev => is_mutation ev = false) evs
        /\ (forall e, r = Raise e ->
            exists pre ev, evs = pre ++ [ev] /\ abort_cause ev e).

(** What the enumeration and sorting phase of the engine guarantees about
    its calls [evs] and its outcome [r]: it changes nothing, stops only on
    an uncaught failure, and sorts by justified keys. *)
Definition scan_ok (now : Q) (evs : list Event) (r : res (list Path)) : Prop :=
  Forall (fun ev => is_mutation ev = false) evs
  /\ (forall e, r = Raise e ->
      exists pre ev, evs = pre ++ [ev] /\ abort_cause ev e)
  /\ (forall files, r = Ok files ->
      exists keyed,
        files = map snd (sort_keyed keyed)
        /\ Forall (key_justified now evs) keyed).

(** The runs of the engine: the calls made and the outcome. *)
Inductive engine_run (a : PurgeArgs) (now : Q)
  : list Event -> res PurgeResult -> Prop :=
| ER_probe_raises e :
    engine_run a now [EvDiskUsage (root_for_usage a) (Raise e)] (Raise e)
| ER_below u :
    Qltb (percent_of u) (threshold_percent a) = true ->
    engine_run a now [EvDiskUsage (root_for_usage a) (Ok u)]
      (Ok (mkResult false (percent_of u) (percent_of u) 0 0
             [LUsageOK (percent_of u) (threshold_percent a)]))
| ER_scan_raises u scan e :
    Qltb (percent_of u) (threshold_percent a) = false ->
    scan_ok now scan (Raise e) ->
    engine_run a now (EvDiskUsage (root_for_usage a) (Ok u) :: scan) (Raise e)
| ER_loop_raises u scan files evs e :
    Qltb (percent_of u) (threshold_percent a) = false ->
    scan_ok now scan (Ok files) ->
    loop_run a now files (acc0 a (percent_of u)) evs (Raise e) ->
    engine_run a now
      (EvDiskUsage (root_for_usage a) (Ok u) :: scan ++ EvTime now :: evs)
      (Raise e)
| ER_last_probe_raises u scan files evs acc e :
    Qltb (percent_of u) (threshold_percent a) = false ->
    scan_ok now scan (Ok files) ->
    loop_run a now files (acc0 a (percent_of u)) evs (Ok acc) ->
    engine_run a now
      (EvDiskUsage (root_for_usage a) (Ok u) :: scan ++ EvTime now :: evs
         ++ [EvDiskUsage (root_for_usage a) (Raise e)])
      (Raise e)
| ER_done u scan files evs acc u' :
    Qltb (percent_of u) (threshold_percent a) = false ->
    scan_ok now scan (Ok files) ->
    loop_run a now files (acc0 a (percent_of u)) evs (Ok acc) ->
    engine_run a now
      (EvDiskUsage (root_for_usage a) (Ok u) :: scan ++ EvTime now :: evs
         ++ [EvDiskUsage (root_for_usage a) (Ok u')])
      (Ok (mkResult true (percent_of u) (percent_of u') (n_deleted acc)
             (n_bytes acc)
             ([ LFreedTotal (n_bytes acc) (n_deleted acc);
                LUsageBeforeAfter (percent_of u) (percent_of u');
                LBlank ] ++ lines acc))).

(** The file and size a log line counts as deleted, if it counts one. *)
Definition deletion_of (l : LogLine) : option (Path * Z) :=
  match l with
  | LDryRun f size | LDeleted f size => Some (f, size)
  | _ => None
  end.

(** The deletions a log reports, in order. *)
Fixpoint deletions (lines : list LogLine) : list (Path * Z) :=
  match lines with
  | [] => []
  | l :: rest =>
      match deletion_of l with
      | Some d => d :: deletions rest
      | None => deletions rest
      end
  end.

Definition total_size (ds : list (Path * Z)) : Z :=
  fold_right (fun d n => snd d + n) 0 ds.

(** The candidate a per-file log line is about. *)
Definition line_path (l : LogLine) : option Path :=
  match l with
  | LDryRun f _ | LDeleted f _ => Some f
  | LSkipPermission f | LSkipDirectory f | LSkipOther f _ => Some f
  | _ => None
  end.

(** The line the handlers of the deletion block append for exception [e]. *)
Definition skip_line (f : Path) (e : exn) : LogLine :=
  match e with
  | PermissionError => LSkipPermission f
  | IsADirectoryError => LSkipDirectory f
  | _ => LSkipOther f e
  end.

Definition is_skip_line (l : LogLine) : bool :=
  match l with
  | LSkipPermission _ | LSkipDirectory _ | LSkipOther _ _ => true
  | _ => false
  end.

(** An [unlink] that raised something the deletion block handles by a
    skip line. *)
Definition unlink_failed (ev : Event) : bool :=
  match ev with
  | EvUnlink _ (Raise FileNotFoundError) => false
  | EvUnlink _ (Raise _) => true
  | _ => false
  end.

(** An [unlink(missing_ok=True)] that returned. *)
Definition unlink_returned (ev : Event) : bool :=
  match ev with
  | EvUnlink _ (Ok _) | EvUnlink _ (Raise FileNotFoundError) => true
  | _ => false
  end.

(** The candidates a sequence of calls found eligible: each [stat] that
    succeeded and passed the age test, with the size it reported. *)
Fixpoint eligible_stats (a : PurgeArgs) (now : Q) (evs : list Event)
  : list (Path * Z) :=
  match evs with
  | [] => []
  | EvStat f (Ok st) :: rest =>
      if too_fresh a now st then eligible_stats a now rest
      else (f, st_size st) :: eligible_stats a now rest
  | _ :: rest => eligible_stats a now rest
  end.

(** Keyed entries in ascending key order. *)
Definition key_le (x y : Q * Path) : Prop := (fst x <= fst y)%Q.

(** [l1] is [l2] with some elements left out, order kept. *)
Inductive subseq {A : Type} : list A -> list A -> Prop :=
| subseq_nil l : subseq [] l
| subseq_skip x l1 l2 : subseq l1 l2 -> subseq l1 (x :: l2)
| subseq_keep x l1 l2 : subseq l1 l2 -> subseq (x :: l1) (x :: l2).

(** ** Quiet worlds

    A world is quiet when the calls that only read leave it as it is: no
    other process changes the file system while the node reads it.  In a
    quiet world a dry run is a function of the world and the clock; the
    definitions below are that function, written with the exception monad
    alone. *)

Definition rbind {A B : Type} (r : res A) (k : A -> res B) : res B :=
  match r with
  | Ok x => k x
  | Raise e => Raise e
  end.

Section Quiet.

Context {W : Type} `{OS W}.

Definition quiet (w : W) : Prop :=
  (forall p, snd (os_disk_usage w p) = w)
  /\ (forall p, snd (os_exists w p) = w)
  /\ (forall p, snd (os_is_dir w p) = w)
  /\ (forall p, snd (os_is_file w p) = w)
  /\ (forall p, snd (os_rglob w p) = w)
  /\ (forall p, snd (os_stat w p) = w).

Definition percent_at (w : W) (p : Path) : res Q :=
  rbind (fst (os_disk_usage w p)) (fun u => Ok (percent_of u)).

Fixpoint collect_loop_at (w : W) (allowed exclude : list string)
  (listing files : list Path) : res (list Path) :=
  match listing with
  | [] => Ok files
  | f :: rest =>
      rbind (fst (os_is_file w f)) (fun isf =>
        if negb isf then collect_loop_at w allowed exclude rest files
        else if suffix_rejected allowed f then
          collect_loop_at w allowed exclude rest files
        else if name_excluded exclude f then
          collect_loop_at w allowed exclude rest files
        else collect_loop_at w allowed exclude rest (files ++ [f]))
  end.

Definition collect_at (w : W) (dir : Path) (allowed exclude : list string)
  : res (list Path) :=
  rbind (fst (os_exists w dir)) (fun ex =>
    if negb ex then Ok []
    else
      rbind (fst (os_is_dir w dir)) (fun isd =>
        if negb isd then Ok []
        else
          rbind (fst (os_rglob w dir)) (fun listing =>
            collect_loop_at w allowed exclude listing []))).

Definition key_at (w : W) (t : Q) (p : Path) : res Q :=
  match fst (os_stat w p) with
  | Ok st => Ok (st_mtime st)
  | Raise FileNotFoundError => Ok t
  | Raise e => Raise e
  end.

Fixpoint keys_at (w : W) (t : Q) (l : list Path) : res (list (Q * Path)) :=
  match l with
  | [] => Ok []
  | p :: rest =>
      rbind (key_at w t p) (fun k =>
        rbind (keys_at w t rest) (fun ks => Ok ((k, p) :: ks)))
  end.

Definition sorted_at (w : W) (t : Q) (l : list Path) : res (list Path) :=
  rbind (keys_at w t l) (fun keyed => Ok (map snd (sort_keyed keyed))).

Fixpoint dry_loop_at (w : W) (a : PurgeArgs) (now : Q) (files : list Path)
  (acc : Acc) : res Acc :=
  match files with
  | [] => Ok acc
  | f :: rest =>
      if limit_reached a acc then
        Ok (logged acc (LStop (delete_count_limit a)))
      else
        match fst (os_stat w f) with
        | Raise FileNotFoundError => dry_loop_at w a now rest acc
        | Raise e => Raise e
        | Ok st =>
            if too_fresh a now st then dry_loop_at w a now rest acc
            else
              let acc' := counted acc (st_size st) (LDryRun f (st_size st)) in
              rbind (percent_at w (root_for_usage a)) (fun pct =>
                if Qltb pct (target_percent a) then
                  Ok (logged acc' (LReached pct (target_percent a)))
                else dry_loop_at w a now rest acc')
        end
  end.

Definition dry_purge_at (w : W) (t : Q) (a : PurgeArgs) : res PurgeResult :=
  rbind (percent_at w (root_for_usage a)) (fun before =>
    if Qltb before (threshold_percent a) then
      Ok (mkResult false before before 0 0
            [LUsageOK before (threshold_percent a)])
    else
      rbind (collect_at w (loras_dir a) (allowed_suffixes a) (exclude_names a))
        (fun files =>
      rbind (sorted_at w t files) (fun files =>
      rbind (dry_loop_at w a t files (acc0 a before)) (fun acc =>
      rbind (percent_at w (root_for_usage a)) (fun after =>
        Ok (mkResult true before after (n_deleted acc) (n_bytes acc)
              ([ LFreedTotal (n_bytes acc) (n_deleted acc);
                 LUsageBeforeAfter before after;
                 LBlank ] ++ lines acc))))))).

(** [m], started in world [w] at time [t], returns [v] and leaves the
    world and the clock as they were. *)
Definition returns {A : Type} (w : W) (t : Q) (m : M W A) (v : res A) : Prop :=
  forall s, world s = w -> clock s = t ->
    exists evs, m s = (v, mkSt w t (trace s ++ evs)).

(** [stat] of [p] does not raise [FileNotFoundError] in world [w]. *)
Definition present (w : W) (p : Path) : bool :=
  match fst (os_stat w p) with
  | Raise FileNotFoundError => false
  | _ => true
  end.

(** What a loop outcome counts: files, bytes and the deletions logged. *)
Definition summary (r : res Acc) : res (Z * Z * list (Path * Z)) :=
  rbind r (fun acc => Ok (n_deleted acc, n_bytes acc, deletions (lines acc))).

(** What an engine outcome counts. *)
Definition report (r : res PurgeResult) : res (Z * Z * list (Path * Z)) :=
  rbind r (fun x => Ok (files_deleted x, bytes_freed x, deletions (log x))).

End Quiet.

(** ** Vocabulary of the further properties *)

(** A token as [_csv_list] returns them: not empty, without surrounding
    white space, without a comma. *)
Definition clean_token (t : string) : Prop :=
  t <> EmptyString
  /\ str_strip t = t
  /\ ~ In ","%char (list_ascii_of_string t).

(** The bytes the successful [stat] calls of [evs] reported, summed. *)
Fixpoint stat_sizes (evs : list Event) : Z :=
  match evs with
  | [] => 0
  | EvStat _ (Ok st) :: rest => st_size st + stat_sizes rest
  | _ :: rest => stat_sizes rest
  end.

(** The paths the [unlink] calls of [evs] were made on, in order. *)
Fixpoint unlinked (evs : list Event) : list Path :=
  match evs with
  | [] => []
  | EvUnlink f _ :: rest => f :: unlinked rest
  | _ :: rest => unlinked rest
  end.

(** The calls [evs] of a computation with outcome [r] stop at the first
    uncaught failure: none when it returns, exactly the last one when it
    raises. *)
Definition stops_at_failure {A : Type} (evs : list Event) (r : res A) : Prop :=
  match r with
  | Ok _ => forall ev e, In ev evs -> ~ abort_cause ev e
  | Raise e =>
      exists pre ev,
        evs = pre ++ [ev]
        /\ abort_cause ev e
        /\ forall ev' e', In ev' pre -> ~ abort_cause ev' e'
  end.

Definition fails_fast {W A : Type} (m : M W A) : Prop :=
  forall s r s',
    m s = (r, s') ->
    exists evs, trace s' = trace s ++ evs /\ stops_at_failure evs r.

(** The first [limit] entries of [l], all of them when [limit] is 0. *)
Definition within_limit {A : Type} (limit : Z) (l : list A) : list A :=
  if limit =? 0 then l else firstn (Z.to_nat limit) l.

Section QuietCandidates.

Context {W : Type} `{OS W}.

(** The candidates of [files] a dry run finds eligible in world [w]: those
    whose [stat] succeeds and passes the age test, with their sizes. *)
Fixpoint dry_candidates (w : W) (a : PurgeArgs) (now : Q) (files : list Path)
  : list (Path * Z) :=
  match files with
  | [] => []
  | f :: rest =>
      match fst (os_stat w f) with
      | Ok st =>
          if too_fresh a now st then dry_candidates w a now rest
          else (f, st_size st) :: dry_candidates w a now rest
      | Raise _ => dry_candidates w a now rest
      end
  end.

End QuietCandidates.

(** The sample disk while another process removes [old.safetensors] between
    the loop's [stat] of it and its [unlink]. *)
Definition unlink_race_disk : Sim.machine :=
  Sim.mkMachine (Sim.entries Sim.disk) 100 40 "/home/u"%string "/"%string
    (repeat None 16 ++ [Some (Sim.ExtRemove Sim.old_file)]).

(** [run] parameters with filter fields written loosely. *)
Definition loose_run_args (suffixes excludes : string) : RunArgs :=
  mkRun Sim.loras 90 85 suffixes excludes 0 0 true.

(** ** The collector with [str.lower] left open

    [str.lower()] maps non-ASCII letters as well.  Here the collector is
    written once more with the case mapping as a parameter [lower], so that
    what is proved about it holds for Python's own mapping;
    [_collect_lora_files] is its instance at [str_lower]. *)

Section CaseMapping.

Context {W : Type} `{OS W}.

Variable lower : string -> string.

Definition suffix_rejected_with (allowed_suffixes : list string) (f : Path)
  : bool :=
  (nonempty allowed_suffixes
   && negb (str_mem (lower (path_suffix f)) allowed_suffixes))%bool.

Definition name_excluded_with (exclude_names : list string) (f : Path) : bool :=
  let name_lower := lower (path_name f) in
  existsb (fun x => str_contains x name_lower) exclude_names.

Fixpoint collect_loop_with (allowed_suffixes exclude_names : list string)
  (listing : list Path) (files : list Path) : M W (list Path) :=
  match listing with
  | [] => ret files
  | f :: rest =>
      isf <- sys_is_file f ;;
      if negb isf then
        collect_loop_with allowed_suffixes exclude_names rest files
      else if suffix_rejected_with allowed_suffixes f then
        collect_loop_with allowed_suffixes exclude_names rest files
      else if name_excluded_with exclude_names f then
        collect_loop_with allowed_suffixes exclude_names rest files
      else
        collect_loop_with allowed_suffixes exclude_names rest (files ++ [f])
  end.

Definition _collect_lora_files_with (loras_dir : Path)
  (allowed_suffixes exclude_names : list string) : M W (list Path) :=
  ex <- sys_exists loras_dir ;;
  if negb ex then ret []
  else
    isd <- sys_is_dir loras_dir ;;
    if negb isd then ret []
    else
      listing <- sys_rglob loras_dir ;;
      collect_loop_with allowed_suffixes exclude_names listing [].

(** The [is_file] call on a path and its answer. *)
Definition is_file_call (fb : Path * bool) : Event :=
  EvIsFile (fst fb) (Ok (snd fb)).

(** A listed path with its [is_file] answer passes the three tests of the
    loop. *)
Definition kept (allowed_suffixes exclude_names : list string)
  (fb : Path * bool) : bool :=
  (snd fb
   && negb (suffix_rejected_with allowed_suffixes (fst fb))
   && negb (name_excluded_with exclude_names (fst fb)))%bool.

End CaseMapping.

(** ** Vocabulary of the per-file statements *)

(** The log line [l] is about candidate [f]. *)
Definition line_about (f : Path) (l : LogLine) : bool :=
  match line_path l with
  | Some g => String.eqb g f
  | None => false
  end.

(** The skip lines about [f]. *)
Definition skip_about (f : Path) (l : LogLine) : bool :=
  (is_skip_line l && line_about f l)%bool.

(** An [unlink] of [f] that raised something the deletion block handles by
    a skip line. *)
Definition unlink_failed_on (f : Path) (ev : Event) : bool :=
  match ev with
  | EvUnlink g _ => (unlink_failed ev && String.eqb g f)%bool
  | _ => false
  end.

(** The entries of [ds] for candidate [f]. *)
Definition entries_of (f : Path) (ds : list (Path * Z)) : list (Path * Z) :=
  filter (fun d => String.eqb (fst d) f) ds.

(** ** Further sample hosts *)


(** A host with one file, on which every [stat] is refused. *)
Module Denied.

Definition refuse (A : Type) (w : unit) (p : Path) : res A * unit :=
  (Raise PermissionError, w).

Definition os : OS unit := {|
  os_resolve := fun w p => (Ok p, w);
  os_cwd := fun w => (Ok "/"%string, w);
  os_home := fun w => (Ok "/"%string, w);
  os_disk_usage := fun w p => (Ok (mkUsage 100 95 5), w);
  os_exists := fun w p => (Ok true, w);
  os_is_dir := fun w p => (Ok true, w);
  os_is_file := fun w p => (Ok true, w);
  os_rglob := fun w p => (Ok ["/loras/a.safetensors"%string], w);
  os_stat := refuse stat_result;
  os_unlink := fun w p => (Ok tt, w);
  os_rmtree := fun w p => (Ok tt, w);
  path_name := fun p => p;
  path_suffix := fun p => ".safetensors"%string;
  path_join := fun p q => (p ++ "/" ++ q)%string
|}.

Definition args : PurgeArgs :=
  mkArgs "/loras"%string "/loras"%string 90 85 [".safetensors"%string] [] 0 0 true.

End Denied.



(** * Properties *)

(** ** Strings and rationals *)

Lemma Qltb_lt (x y : Q) : Qltb x y = true <-> (x < y)%Q.
Proof.
  unfold Qltb. rewrite negb_true_iff. split; intro Hxy.
  - apply Qnot_le_lt. intro Hle. apply Qle_bool_iff in Hle. congruence.
  - destruct (Qle_bool y x) eqn:E; [|reflexivity].
    apply Qle_bool_iff in E. exfalso. exact (Qlt_not_le _ _ Hxy E).
Qed.

Lemma Qltb_ge (x y : Q) : Qltb x y = false <-> (y <= x)%Q.
Proof.
  unfold Qltb. rewrite negb_false_iff. apply Qle_bool_iff.
Qed.

Lemma str_startswith_spec (x s : string) :
  str_startswith x s = true <-> exists post, s = (x ++ post)%string.
Proof.
  revert s. induction x as [|a x IH]; intros s; simpl.
  - split; [intros _; exists s; reflexivity | reflexivity].
  - destruct s as [|b s]; simpl.
    + split; [discriminate | intros [post Hp]; discriminate].
    + rewrite andb_true_iff, IH. split.
      * intros [Hab [post ->]]. apply Ascii.eqb_eq in Hab. subst b.
        exists post. reflexivity.
      * intros [post Hp]. injection Hp as -> ->. split.
        -- apply Ascii.eqb_refl.
        -- exists post. reflexivity.
Qed.

Lemma str_contains_spec (x s : string) :
  str_contains x s = true <-> occurs_in x s.
Proof.
  unfold occurs_in. induction s as [|c s IH].
  - simpl. rewrite orb_false_r, str_startswith_spec. split.
    + intros [post Hp]. exists EmptyString, post. exact Hp.
    + intros [pre [post Hp]]. destruct pre; simpl in Hp.
      * exists post. exact Hp.
      * discriminate.
  - cbn [str_contains]. rewrite orb_true_iff, IH, str_startswith_spec. split.
    + intros [[post Hp] | [pre [post Hp]]].
      * exists EmptyString, post. exact Hp.
      * exists (String c pre), post. simpl. rewrite Hp. reflexivity.
    + intros [pre [post Hp]]. destruct pre as [|d pre]; simpl in Hp.
      * left. exists post. exact Hp.
      * right. injection Hp as _ Hp. exists pre, post. exact Hp.
Qed.

Lemma str_mem_spec (x : string) (t : list string) :
  str_mem x t = true <-> In x t.
Proof.
  unfold str_mem. rewrite existsb_exists. split.
  - intros [y [Hy Heq]]. apply String.eqb_eq in Heq. subst y. exact Hy.
  - intros Hx. exists x. split; [exact Hx | apply String.eqb_refl].
Qed.

Section NodeProperties.

Context {W : Type} `{OS W}.

(** ** Running monadic code *)

Lemma bind_inv {A B : Type} (m : M W A) (k : A -> M W B) s r s' :
  bind m k s = (r, s') ->
  (exists a s1, m s = (Ok a, s1) /\ k a s1 = (r, s'))
  \/ (exists e, m s = (Raise e, s') /\ r = Raise e).
Proof.
  unfold bind. destruct (m s) as [[a|e] s1]; intros Hk.
  - left. exists a, s1. split; [reflexivity | exact Hk].
  - right. injection Hk as <- <-. exists e. split; reflexivity.
Qed.

Lemma try_inv {A : Type} (m : M W A) s r s' :
  try m s = (r, s') -> exists r0, m s = (r0, s') /\ r = Ok r0.
Proof.
  unfold try. destruct (m s) as [r0 s1]. intros Hk.
  injection Hk as <- <-. exists r0. split; reflexivity.
Qed.

Lemma syscall_inv {A : Type} (op : W -> res A * W) (ev : res A -> Event) s r s' :
  syscall op ev s = (r, s') ->
  r = fst (op (world s))
  /\ s' = mkSt (snd (op (world s))) (clock s) (trace s ++ [ev r]).
Proof.
  unfold syscall. destruct (op (world s)) as [r0 w']. simpl.
  intros Hk. injection Hk as <- <-. split; reflexivity.
Qed.

Lemma syscall_trace {A : Type} (op : W -> res A * W) (ev : res A -> Event) s r s' :
  syscall op ev s = (r, s') ->
  trace s' = trace s ++ [ev r] /\ clock s' = clock s.
Proof.
  intros Hc. apply syscall_inv in Hc. destruct Hc as [_ ->]. split; reflexivity.
Qed.

Ltac unfold_sys H :=
  unfold sys_resolve, sys_cwd, sys_home, sys_disk_usage, sys_exists,
    sys_is_dir, sys_is_file, sys_rglob, sys_stat, sys_unlink, sys_rmtree in H.

(** ** The collector *)

Lemma suffix_rejected_spec (allowed : list string) (f : Path) :
  suffix_rejected allowed f = false
  <-> (allowed = [] \/ In (str_lower (path_suffix f)) allowed).
Proof.
  unfold suffix_rejected. destruct allowed as [|a l]; simpl nonempty.
  - simpl. split; [intros _; left; reflexivity | reflexivity].
  - rewrite andb_true_l, negb_false_iff, str_mem_spec. split.
    + intros Hin. right. exact Hin.
    + intros [Hnil | Hin]; [discriminate | exact Hin].
Qed.

Lemma name_excluded_spec (exclude : list string) (f : Path) :
  name_excluded exclude f = false
  <-> (forall x, In x exclude -> ~ occurs_in x (str_lower (path_name f))).
Proof.
  unfold name_excluded. split.
  - intros Hex x Hx Hocc. apply str_contains_spec in Hocc.
    assert (Ht : existsb (fun x0 => str_contains x0 (str_lower (path_name f)))
                   exclude = true).
    { apply existsb_exists. exists x. split; assumption. }
    congruence.
  - intros Hall.
    destruct (existsb _ exclude) eqn:E; [|reflexivity].
    apply existsb_exists in E. destruct E as [x [Hx Hc]].
    apply str_contains_spec in Hc. exfalso. exact (Hall x Hx Hc).
Qed.

Lemma collect_loop_spec (allowed exclude : list string) :
  forall (listing files : list Path) s r s',
    collect_loop allowed exclude listing files s = (r, s') ->
    exists evs,
      trace s' = trace s ++ evs
      /\ (forall ev, In ev evs -> exists f b, ev = EvIsFile f b /\ In f listing)
      /\ (forall out, r = Ok out ->
          forall f, In f out <->
            In f files
            \/ (In f listing /\ In (EvIsFile f (Ok true)) evs
                /\ suffix_rejected allowed f = false
                /\ name_excluded exclude f = false)).
Proof.
  induction listing as [|f0 rest IH]; intros files s r s' Hrun.
  - injection Hrun as <- <-. exists []. rewrite app_nil_r.
    split; [reflexivity|]. split; [intros ev []|].
    intros out Hout f. injection Hout as <-. split.
    + intros Hin. left. exact Hin.
    + intros [Hin | [[] _]]. exact Hin.
  - cbn [collect_loop] in Hrun. apply bind_inv in Hrun.
    destruct Hrun as [[isf [s1 [Hisf Hrest]]] | [e [Hisf ->]]].
    + unfold_sys Hisf. apply syscall_trace in Hisf. destruct Hisf as [Htr _].
      assert (Hskip : forall files1,
                 (forall f, In f files1 <->
                    In f files \/ (f = f0 /\ isf = true
                                   /\ suffix_rejected allowed f = false
                                   /\ name_excluded exclude f = false)) ->
                 collect_loop allowed exclude rest files1 s1 = (r, s') ->
                 exists evs,
                   trace s' = trace s ++ evs
                   /\ (forall ev, In ev evs ->
                       exists f b, ev = EvIsFile f b /\ In f (f0 :: rest))
                   /\ (forall out, r = Ok out ->
                       forall f, In f out <->
                         In f files
                         \/ (In f (f0 :: rest) /\ In (EvIsFile f (Ok true)) evs
                             /\ suffix_rejected allowed f = false
                             /\ name_excluded exclude f = false))).
      { intros files1 Hfiles1 Hloop.
        destruct (IH _ _ _ _ Hloop) as [evs [Htr' [Hevs Hout]]].
        exists (EvIsFile f0 (Ok isf) :: evs). split.
        { rewrite Htr', Htr, <- app_assoc. reflexivity. }
        split.
        { intros ev [<- | Hin].
          - exists f0, (Ok isf). split; [reflexivity | left; reflexivity].
          - destruct (Hevs ev Hin) as [f [b [-> Hf]]].
            exists f, b. split; [reflexivity | right; exact Hf]. }
        intros out Hr f. rewrite (Hout out Hr f), Hfiles1. split.
        - intros [[Hin | [-> [-> [Hs Hn]]]] | [Hin [Hev [Hs Hn]]]].
          + left. exact Hin.
          + right. repeat split; try assumption; left; reflexivity.
          + right. repeat split; try assumption; right; assumption.
        - intros [Hin | [Hin [Hev [Hs Hn]]]].
          + left. left. exact Hin.
          + destruct Hev as [Heq | Hev].
            * injection Heq as <- <-. left. right. repeat split; assumption.
            * right. repeat split; try assumption.
              destruct (Hevs _ Hev) as [f1 [b1 [Heq Hf1]]].
              injection Heq as <- _. exact Hf1. }
      destruct isf; cbn [negb] in Hrest.
      * destruct (suffix_rejected allowed f0) eqn:Es.
        { apply (Hskip files); [|exact Hrest].
          intros f. split; [intros Hin; left; exact Hin|].
          intros [Hin | [-> [_ [Hs _]]]]; [exact Hin | congruence]. }
        destruct (name_excluded exclude f0) eqn:En.
        { apply (Hskip files); [|exact Hrest].
          intros f. split; [intros Hin; left; exact Hin|].
          intros [Hin | [-> [_ [_ Hn]]]]; [exact Hin | congruence]. }
        apply (Hskip (files ++ [f0])); [|exact Hrest].
        intros f. rewrite in_app_iff. split.
        { intros [Hin | [<- | []]]; [left; exact Hin|].
          right. repeat split; assumption. }
        { intros [Hin | [-> _]]; [left; exact Hin|]. right. left. reflexivity. }
      * apply (Hskip files); [|exact Hrest].
        intros f. split; [intros Hin; left; exact Hin|].
        intros [Hin | [_ [Hd _]]]; [exact Hin | discriminate].
    + unfold_sys Hisf. apply syscall_trace in Hisf. destruct Hisf as [Htr _].
      exists [EvIsFile f0 (Raise e)]. split; [exact Htr|]. split.
      * intros ev [<- | []]. exists f0, (Raise e).
        split; [reflexivity | left; reflexivity].
      * intros out Hout. discriminate.
Qed.

Lemma suffix_rejected_with_spec (lower : string -> string)
  (allowed : list string) (f : Path) :
  suffix_rejected_with lower allowed f = false
  <-> (allowed = [] \/ In (lower (path_suffix f)) allowed).
Proof.
  unfold suffix_rejected_with. destruct allowed as [|x t]; cbn [nonempty andb].
  - split; [left; reflexivity | reflexivity].
  - rewrite negb_false_iff, str_mem_spec. split.
    + intros Hin. right. exact Hin.
    + intros [Hnil | Hin]; [discriminate | exact Hin].
Qed.

Lemma name_excluded_with_spec (lower : string -> string)
  (exclude : list string) (f : Path) :
  name_excluded_with lower exclude f = false
  <-> (forall x, In x exclude -> ~ occurs_in x (lower (path_name f))).
Proof.
  unfold name_excluded_with. split.
  - intros Hex x Hin Hocc. apply str_contains_spec in Hocc.
    assert (Ht : existsb (fun x => str_contains x (lower (path_name f))) exclude
                 = true).
    { apply existsb_exists. exists x. split; assumption. }
    congruence.
  - intros Hall.
    destruct (existsb (fun x => str_contains x (lower (path_name f))) exclude)
      eqn:E; [|reflexivity].
    apply existsb_exists in E. destruct E as [x [Hin Hc]].
    apply str_contains_spec in Hc. destruct (Hall x Hin Hc).
Qed.

Lemma collect_loop_ascii (allowed exclude : list string) :
  forall listing files s,
    collect_loop allowed exclude listing files s
    = collect_loop_with str_lower allowed exclude listing files s.
Proof.
  induction listing as [|f rest IH]; intros files s; [reflexivity|].
  cbn [collect_loop collect_loop_with]. unfold bind.
  destruct (sys_is_file f s) as [[isf|e] s1]; [|reflexivity].
  destruct (negb isf); [apply IH|].
  change (suffix_rejected_with str_lower allowed f)
    with (suffix_rejected allowed f).
  destruct (suffix_rejected allowed f); [apply IH|].
  change (name_excluded_with str_lower exclude f)
    with (name_excluded exclude f).
  destruct (name_excluded exclude f); apply IH.
Qed.

Lemma collect_lora_files_ascii (dir : Path) (allowed exclude : list string) s :
  _collect_lora_files dir allowed exclude s
  = _collect_lora_files_with str_lower dir allowed exclude s.
Proof.
  unfold _collect_lora_files, _collect_lora_files_with, bind.
  destruct (sys_exists dir s) as [[ex|e] s1]; [|reflexivity].
  destruct (negb ex); [reflexivity|].
  destruct (sys_is_dir dir s1) as [[isd|e] s2]; [|reflexivity].
  destruct (negb isd); [reflexivity|].
  destruct (sys_rglob dir s2) as [[listing|e] s3]; [|reflexivity].
  apply collect_loop_ascii.
Qed.

(** The loop asks [is_file] once for every listed path, in order, and keeps
    exactly the paths that pass. *)
Lemma collect_loop_with_spec (lower : string -> string)
  (allowed exclude : list string) :
  forall (listing files : list Path) s out s',
    collect_loop_with lower allowed exclude listing files s = (Ok out, s') ->
    exists answers,
      List.length answers = List.length listing
      /\ trace s' = trace s ++ map is_file_call (combine listing answers)
      /\ out = files ++ map fst (filter (kept lower allowed exclude)
                                   (combine listing answers))
      /\ (quiet (world s) ->
          world s' = world s
          /\ forall f b, In (f, b) (combine listing answers) ->
               fst (os_is_file (world s) f) = Ok b).
Proof.
  induction listing as [|f rest IH]; intros files s out s' Hrun.
  - injection Hrun as <- <-. exists []. cbn. rewrite !app_nil_r.
    repeat split. intros f b [].
  - cbn [collect_loop_with] in Hrun. apply bind_inv in Hrun.
    destruct Hrun as [[isf [s1 [Hisf Hk]]] | [e [_ Hr]]]; [|discriminate].
    unfold_sys Hisf. apply syscall_inv in Hisf. destruct Hisf as [Hans Hs1].
    assert (Htr1 : trace s1 = trace s ++ [EvIsFile f (Ok isf)])
      by (rewrite Hs1; reflexivity).
    assert (Hw1 : world s1 = snd (os_is_file (world s) f))
      by (rewrite Hs1; reflexivity).
    assert (Hstep : forall files',
               collect_loop_with lower allowed exclude rest files' s1
               = (Ok out, s') ->
               files' = files ++ map fst (filter (kept lower allowed exclude)
                                            [(f, isf)]) ->
               exists answers,
                 List.length answers = List.length (f :: rest)
                 /\ trace s' = trace s
                               ++ map is_file_call (combine (f :: rest) answers)
                 /\ out = files ++ map fst (filter (kept lower allowed exclude)
                                              (combine (f :: rest) answers))
                 /\ (quiet (world s) ->
                     world s' = world s
                     /\ forall f0 b, In (f0, b) (combine (f :: rest) answers) ->
                          fst (os_is_file (world s) f0) = Ok b)).
    { intros files' Hk' Hfiles'.
      destruct (IH _ _ _ _ Hk') as [answers [Hlen [Htr [Hout Hq]]]].
      exists (isf :: answers). split; [cbn; rewrite Hlen; reflexivity|].
      split.
      { rewrite Htr, Htr1, <- app_assoc. reflexivity. }
      split.
      { rewrite Hout, Hfiles'. cbn [combine filter].
        destruct (kept lower allowed exclude (f, isf)); cbn [map app fst];
          rewrite <- app_assoc; reflexivity. }
      intros Hquiet.
      assert (Hsame : world s1 = world s).
      { rewrite Hw1. exact (proj1 (proj2 (proj2 (proj2 Hquiet))) f). }
      rewrite Hsame in Hq. destruct (Hq Hquiet) as [Hw Hall].
      split; [exact Hw|].
      intros f0 b [Heq|Hin]; [|exact (Hall f0 b Hin)].
      injection Heq as <- <-. symmetry. exact Hans. }
    unfold kept in Hstep. cbn [filter fst snd] in Hstep.
    destruct isf; cbn [negb andb] in Hk, Hstep.
    2:{ apply (Hstep files Hk). cbn. rewrite app_nil_r. reflexivity. }
    destruct (suffix_rejected_with lower allowed f); cbn [negb andb] in Hstep.
    { apply (Hstep files Hk). cbn. rewrite app_nil_r. reflexivity. }
    destruct (name_excluded_with lower exclude f); cbn [negb andb] in Hstep.
    { apply (Hstep files Hk). cbn. rewrite app_nil_r. reflexivity. }
    apply (Hstep (files ++ [f]) Hk). reflexivity.
Qed.

Lemma combine_answer {A B : Type} (l : list A) (bs : list B) (x : A) :
  List.length bs = List.length l -> In x l -> exists b, In (x, b) (combine l bs).
Proof.
  revert bs. induction l as [|y l IH]; intros bs Hlen Hin; [destruct Hin|].
  destruct bs as [|b bs]; [discriminate|]. injection Hlen as Hlen.
  destruct Hin as [<-|Hin].
  - exists b. left. reflexivity.
  - destruct (IH bs Hlen Hin) as [b' Hb']. exists b'. right. exact Hb'.
Qed.

(** C5: for every case mapping [lower] (Python's [str.lower] among them),
    the collector asks [is_file] once for every path the enumeration of the
    root listed, in order, and returns exactly the listed paths for which
    the answer was true, whose lowercased suffix is in the allowed tuple
    (when that tuple is not empty) and in whose lowercased name no excluded
    substring occurs; when nobody else changes the file system these are
    the listed paths that are regular files there.  A root that does not
    exist or is not a directory gives the empty list and no exception.
    [_collect_lora_files] is the collector at the ASCII mapping. *)
Theorem C5_collect_lora_files_spec :
  forall (lower : string -> string) (dir : Path)
         (allowed exclude : list string) (s : St W),
    (forall s1,
        sys_exists dir s = (Ok false, s1) ->
        _collect_lora_files_with lower dir allowed exclude s = (Ok [], s1))
    /\ (forall s1 s2,
        sys_exists dir s = (Ok true, s1) ->
        sys_is_dir dir s1 = (Ok false, s2) ->
        _collect_lora_files_with lower dir allowed exclude s = (Ok [], s2))
    /\ (forall s1 s2 listing s3 files s4,
        sys_exists dir s = (Ok true, s1) ->
        sys_is_dir dir s1 = (Ok true, s2) ->
        sys_rglob dir s2 = (Ok listing, s3) ->
        _collect_lora_files_with lower dir allowed exclude s = (Ok files, s4) ->
        exists answers,
          List.length answers = List.length listing
          /\ trace s4 = trace s3 ++ map is_file_call (combine listing answers)
          /\ files = map fst (filter (kept lower allowed exclude)
                                (combine listing answers))
          /\ (forall f,
               In f files <->
               In (f, true) (combine listing answers)
               /\ (allowed = [] \/ In (lower (path_suffix f)) allowed)
               /\ (forall x, In x exclude ->
                   ~ occurs_in x (lower (path_name f))))
          /\ (quiet (world s3) ->
              forall f,
                In f files <->
                In f listing
                /\ fst (os_is_file (world s3) f) = Ok true
                /\ (allowed = [] \/ In (lower (path_suffix f)) allowed)
                /\ (forall x, In x exclude ->
                    ~ occurs_in x (lower (path_name f)))))
    /\ _collect_lora_files dir allowed exclude s
       = _collect_lora_files_with str_lower dir allowed exclude s.
Proof.
  intros lower dir allowed exclude s. split; [|split; [|split]].
  - intros s1 Hex. unfold _collect_lora_files_with, bind. rewrite Hex.
    reflexivity.
  - intros s1 s2 Hex Hdir. unfold _collect_lora_files_with, bind.
    rewrite Hex. cbn [negb]. rewrite Hdir. reflexivity.
  - intros s1 s2 listing s3 files s4 Hex Hdir Hglob Hrun.
    unfold _collect_lora_files_with, bind in Hrun.
    rewrite Hex in Hrun. cbn [negb] in Hrun.
    rewrite Hdir in Hrun. cbn [negb] in Hrun. rewrite Hglob in Hrun.
    destruct (collect_loop_with_spec lower allowed exclude _ _ _ _ _ Hrun)
      as [answers [Hlen [Htr [Hout Hq]]]].
    cbn [app] in Hout.
    assert (Hiff : forall f,
               In f files <->
               In (f, true) (combine listing answers)
               /\ (allowed = [] \/ In (lower (path_suffix f)) allowed)
               /\ (forall x, In x exclude ->
                   ~ occurs_in x (lower (path_name f)))).
    { intros f. rewrite Hout, in_map_iff.
      rewrite <- suffix_rejected_with_spec, <- name_excluded_with_spec. split.
      - intros [[g b] [Hg Hin]]. cbn [fst] in Hg. subst g.
        apply filter_In in Hin. destruct Hin as [Hin Hk].
        unfold kept in Hk. cbn [fst snd] in Hk.
        apply andb_true_iff in Hk. destruct Hk as [Hk Hn].
        apply andb_true_iff in Hk. destruct Hk as [Hb Hs]. subst b.
        apply negb_true_iff in Hs, Hn. repeat split; assumption.
      - intros [Hin [Hs Hn]]. exists (f, true). split; [reflexivity|].
        apply filter_In. split; [exact Hin|].
        unfold kept. cbn [fst snd]. rewrite Hs, Hn. reflexivity. }
    exists answers. split; [exact Hlen|]. split; [exact Htr|].
    split; [exact Hout|]. split; [exact Hiff|].
    intros Hquiet f. destruct (Hq Hquiet) as [_ Hans]. rewrite Hiff. split.
    + intros [Hin Hrest]. split; [exact (in_combine_l _ _ _ _ Hin)|].
      split; [exact (Hans f true Hin) | exact Hrest].
    + intros [Hin [Hfile Hrest]]. split; [|exact Hrest].
      destruct (combine_answer listing answers f Hlen Hin) as [b Hb].
      pose proof (Hans f b Hb) as Hb'. rewrite Hfile in Hb'.
      injection Hb' as <-. exact Hb.
  - apply collect_lora_files_ascii.
Qed.

(** ** The usage probe *)

Lemma disk_usage_percent_inv (p : Path) s r s' :
  _disk_usage_percent p s = (r, s') ->
  exists ru,
    trace s' = trace s ++ [EvDiskUsage p ru]
    /\ clock s' = clock s
    /\ ru = fst (os_disk_usage (world s) p)
    /\ world s' = snd (os_disk_usage (world s) p)
    /\ match ru with
       | Ok u => r = Ok (percent_of u)
       | Raise e => r = Raise e
       end.
Proof.
  unfold _disk_usage_percent. intros Hrun. apply bind_inv in Hrun.
  destruct Hrun as [[u [s1 [Hu Hret]]] | [e [Hu ->]]];
    unfold_sys Hu; apply syscall_inv in Hu; destruct Hu as [Hr Hs].
  - injection Hret as <- <-. exists (Ok u). subst s1. simpl.
    repeat split; try reflexivity. exact Hr.
  - exists (Raise e). subst s'. simpl. repeat split; try reflexivity. exact Hr.
Qed.

(** C4: when the first probe reads a usage strictly below the threshold,
    the engine returns [triggered = False], zero files, zero bytes and the
    probed percentage as both before and after; the probe is the only
    system call it makes, so nothing is deleted. *)
Theorem C4_below_threshold_not_triggered :
  forall (a : PurgeArgs) (s s1 : St W) (before : Q),
    _disk_usage_percent (root_for_usage a) s = (Ok before, s1) ->
    (before < threshold_percent a)%Q ->
    exists res ru,
      _purge_oldest_until_below a s = (Ok res, s1)
      /\ triggered res = false
      /\ files_deleted res = 0
      /\ bytes_freed res = 0
      /\ before_used_pct res = before
      /\ after_used_pct res = before_used_pct res
      /\ log res = [LUsageOK before (threshold_percent a)]
      /\ trace s1 = trace s ++ [EvDiskUsage (root_for_usage a) ru].
Proof.
  intros a s s1 before Hprobe Hlt.
  destruct (disk_usage_percent_inv _ _ _ _ Hprobe) as [ru [Htr _]].
  apply Qltb_lt in Hlt.
  exists (mkResult false before before 0 0 [LUsageOK before (threshold_percent a)]), ru.
  unfold _purge_oldest_until_below, bind. rewrite Hprobe, Hlt.
  repeat split; try reflexivity. exact Htr.
Qed.

(** ** The hysteresis correction *)




(** ** The eviction loop *)

Lemma unlink_missing_ok_inv (f : Path) s r s' :
  unlink_missing_ok f s = (r, s') ->
  exists ru,
    trace s' = trace s ++ [EvUnlink f ru]
    /\ clock s' = clock s
    /\ r = match ru with
           | Ok _ => Ok tt
           | Raise FileNotFoundError => Ok tt
           | Raise e => Raise e
           end.
Proof.
  unfold unlink_missing_ok. intros Hrun. apply bind_inv in Hrun.
  destruct Hrun as [[ru [s1 [Htry Hk]]] | [e [Htry _]]].
  - apply try_inv in Htry. destruct Htry as [r0 [Hu Hr0]].
    injection Hr0 as ->. unfold_sys Hu. apply syscall_trace in Hu.
    destruct Hu as [Htr Hck]. exists r0.
    destruct r0 as [[]|[]]; injection Hk as <- <-; repeat split; assumption.
  - apply try_inv in Htry. destruct Htry as [r0 [_ Hr0]]. discriminate.
Qed.

Lemma attempt_delete_inv (a : PurgeArgs) (f : Path) (size : Z) (acc : Acc) s r s' :
  attempt_delete a f size acc s = (r, s') ->
  exists att acc',
    r = Ok acc'
    /\ trace s' = trace s ++ att
    /\ clock s' = clock s
    /\ attempt_run a f size acc att acc'.
Proof.
  unfold attempt_delete. destruct (dry_run a) eqn:Edry; intros Hrun.
  - injection Hrun as <- <-. exists [], (counted acc size (LDryRun f size)).
    rewrite app_nil_r. repeat split. apply AR_dry. exact Edry.
  - apply bind_inv in Hrun.
    destruct Hrun as [[ru [s1 [Htry Hk]]] | [e [Htry _]]].
    + apply try_inv in Htry. destruct Htry as [r0 [Hu Hr0]].
      injection Hr0 as ->.
      destruct (unlink_missing_ok_inv _ _ _ _ Hu) as [ru [Htr [Hck Hr0]]].
      exists [EvUnlink f ru].
      destruct ru as [[]|[]]; subst r0; injection Hk as <- <-;
        eexists; (split; [reflexivity|]); (split; [exact Htr|]);
        (split; [exact Hck|]); constructor; exact Edry.
    + apply try_inv in Htry. destruct Htry as [r0 [_ Hr0]]. discriminate.
Qed.

Lemma purge_loop_sound (a : PurgeArgs) (now : Q) :
  forall (files : list Path) (acc : Acc) s r s',
    purge_loop a now files acc s = (r, s') ->
    exists evs,
      trace s' = trace s ++ evs
      /\ clock s' = clock s
      /\ loop_run a now files acc evs r.
Proof.
  induction files as [|f rest IH]; intros acc s r s' Hrun.
  - injection Hrun as <- <-. exists []. rewrite app_nil_r.
    repeat split. constructor.
  - cbn [purge_loop] in Hrun. destruct (limit_reached a acc) eqn:Elim.
    { injection Hrun as <- <-. exists []. rewrite app_nil_r.
      repeat split. constructor. exact Elim. }
    apply bind_inv in Hrun.
    destruct Hrun as [[rs [s1 [Htry Hk]]] | [e [Htry _]]];
      apply try_inv in Htry; destruct Htry as [r0 [Hst Hr0]];
      [injection Hr0 as -> | discriminate].
    unfold_sys Hst. apply syscall_trace in Hst. destruct Hst as [Htr1 Hck1].
    destruct r0 as [st | e].
    + destruct (too_fresh a now st) eqn:Efresh.
      { destruct (IH _ _ _ _ Hk) as [evs [Htr [Hck Hloop]]].
        exists (EvStat f (Ok st) :: evs). split.
        { rewrite Htr, Htr1, <- app_assoc. reflexivity. }
        split; [congruence|]. apply LR_fresh; assumption. }
      apply bind_inv in Hk.
      destruct Hk as [[acc' [s2 [Hatt Hk]]] | [e [Hatt _]]].
      2:{ destruct (attempt_delete_inv _ _ _ _ _ _ _ Hatt)
            as [att [acc' [Hr _]]]. discriminate. }
      destruct (attempt_delete_inv _ _ _ _ _ _ _ Hatt)
        as [att [acc1 [Hr [Htr2 [Hck2 Harun]]]]].
      injection Hr as <-.
      apply bind_inv in Hk.
      destruct Hk as [[pct [s3 [Hprobe Hk]]] | [e [Hprobe ->]]];
        destruct (disk_usage_percent_inv _ _ _ _ Hprobe)
          as [ru [Htr3 [Hck3 [_ [_ Hpct]]]]].
      * destruct ru as [u|e]; [injection Hpct as -> | discriminate].
        destruct (Qltb (percent_of u) (target_percent a)) eqn:Etgt.
        { injection Hk as <- <-.
          exists (EvStat f (Ok st) :: att ++ [EvDiskUsage (root_for_usage a) (Ok u)]).
          split.
          { rewrite Htr3, Htr2, Htr1, <- !app_assoc. reflexivity. }
          split; [congruence|]. eapply LR_target; eassumption. }
        destruct (IH _ _ _ _ Hk) as [evs [Htr [Hck Hloop]]].
        exists (EvStat f (Ok st) :: att ++ EvDiskUsage (root_for_usage a) (Ok u) :: evs).
        split.
        { rewrite Htr, Htr3, Htr2, Htr1, <- !app_assoc. reflexivity. }
        split; [congruence|]. eapply LR_next; eassumption.
      * destruct ru as [u|e']; [discriminate | injection Hpct as ->].
        exists (EvStat f (Ok st) :: att ++ [EvDiskUsage (root_for_usage a) (Raise e')]).
        split.
        { rewrite Htr3, Htr2, Htr1, <- !app_assoc. reflexivity. }
        split; [congruence|]. eapply LR_probe_raises; eassumption.
    + destruct e.
      * destruct (IH _ _ _ _ Hk) as [evs [Htr [Hck Hloop]]].
        exists (EvStat f (Raise FileNotFoundError) :: evs). split.
        { rewrite Htr, Htr1, <- app_assoc. reflexivity. }
        split; [congruence|]. apply LR_vanished; assumption.
      * injection Hk as <- <-. exists [EvStat f (Raise PermissionError)].
        repeat split; try assumption. apply LR_stat_raises; [assumption|discriminate].
      * injection Hk as <- <-. exists [EvStat f (Raise IsADirectoryError)].
        repeat split; try assumption. apply LR_stat_raises; [assumption|discriminate].
      * injection Hk as <- <-. exists [EvStat f (Raise OtherError)].
        repeat split; try assumption. apply LR_stat_raises; [assumption|discriminate].
Qed.

(** ** Code that only reads *)

Lemma reads_only_ret {A : Type} (x : A) : reads_only (@ret W A x).
Proof.
  intros s r s' Hrun. injection Hrun as <- <-. split; [reflexivity|].
  exists []. rewrite app_nil_r. repeat split; [constructor|].
  intros e He. discriminate.
Qed.

Lemma reads_only_bind {A B : Type} (m : M W A) (k : A -> M W B) :
  reads_only m -> (forall x, reads_only (k x)) -> reads_only (bind m k).
Proof.
  intros Hm Hk s r s' Hrun. apply bind_inv in Hrun.
  destruct Hrun as [[x [s1 [Hmx Hkx]]] | [e [Hme ->]]].
  - destruct (Hm _ _ _ Hmx) as [Hc1 [evs1 [Ht1 [Hr1 _]]]].
    destruct (Hk x _ _ _ Hkx) as [Hc2 [evs2 [Ht2 [Hr2 Ha2]]]].
    split; [congruence|]. exists (evs1 ++ evs2). split.
    { rewrite Ht2, Ht1, app_assoc. reflexivity. }
    split; [apply Forall_app; split; assumption|].
    intros e He. destruct (Ha2 e He) as [pre [ev [-> Hev]]].
    exists (evs1 ++ pre), ev. rewrite app_assoc. split; [reflexivity|exact Hev].
  - destruct (Hm _ _ _ Hme) as [Hc1 [evs1 [Ht1 [Hr1 Ha1]]]].
    split; [exact Hc1|]. exists evs1. split; [exact Ht1|].
    split; [exact Hr1|]. intros e0 He0. injection He0 as <-.
    exact (Ha1 e eq_refl).
Qed.

Lemma reads_only_syscall {A : Type} (op : W -> res A * W) (ev : res A -> Event) :
  (forall r, is_mutation (ev r) = false) ->
  (forall e, abort_cause (ev (Raise e)) e) ->
  reads_only (syscall op ev).
Proof.
  intros Hmut Habort s r s' Hrun. apply syscall_trace in Hrun.
  destruct Hrun as [Htr Hck]. split; [exact Hck|].
  exists [ev r]. split; [exact Htr|]. split.
  - constructor; [apply Hmut | constructor].
  - intros e ->. exists [], (ev (Raise e)). split; [reflexivity | apply Habort].
Qed.

Lemma reads_only_disk_usage (p : Path) : reads_only (sys_disk_usage p).
Proof. apply reads_only_syscall; intros; reflexivity. Qed.

Lemma reads_only_exists (p : Path) : reads_only (sys_exists p).
Proof. apply reads_only_syscall; intros; reflexivity. Qed.

Lemma reads_only_is_dir (p : Path) : reads_only (sys_is_dir p).
Proof. apply reads_only_syscall; intros; reflexivity. Qed.

Lemma reads_only_is_file (p : Path) : reads_only (sys_is_file p).
Proof. apply reads_only_syscall; intros; reflexivity. Qed.

Lemma reads_only_rglob (p : Path) : reads_only (sys_rglob p).
Proof. apply reads_only_syscall; intros; reflexivity. Qed.

Lemma reads_only_time : reads_only (@sys_time W).
Proof.
  intros s r s' Hrun. injection Hrun as <- <-. split; [reflexivity|].
  exists [EvTime (clock s)]. repeat split.
  - constructor; [reflexivity | constructor].
  - intros e He. discriminate.
Qed.

Lemma reads_only_percent (p : Path) : reads_only (_disk_usage_percent p).
Proof.
  apply reads_only_bind; [apply reads_only_disk_usage|].
  intros u. apply reads_only_ret.
Qed.

Lemma mtime_safe_inv (p : Path) s r s' :
  _mtime_safe p s = (r, s') ->
  clock s' = clock s
  /\ exists rs,
      match rs with
      | Ok st => r = Ok (st_mtime st) /\ trace s' = trace s ++ [EvStat p rs]
      | Raise FileNotFoundError =>
          r = Ok (clock s)
          /\ trace s' = trace s ++ [EvStat p rs; EvTime (clock s)]
      | Raise e => r = Raise e /\ trace s' = trace s ++ [EvStat p rs]
      end.
Proof.
  unfold _mtime_safe. intros Hrun. apply bind_inv in Hrun.
  destruct Hrun as [[rs [s1 [Htry Hk]]] | [e [Htry _]]];
    apply try_inv in Htry; destruct Htry as [r0 [Hst Hr0]];
    [injection Hr0 as -> | discriminate].
  unfold_sys Hst. apply syscall_trace in Hst. destruct Hst as [Htr Hck].
  destruct r0 as [st | []].
  - injection Hk as <- <-. split; [exact Hck|]. exists (Ok st). split; [reflexivity|exact Htr].
  - unfold sys_time in Hk. injection Hk as <- <-. split; [exact Hck|].
    exists (Raise FileNotFoundError). cbn [trace]. rewrite Hck, Htr, <- app_assoc.
    split; reflexivity.
  - injection Hk as <- <-. split; [exact Hck|].
    exists (Raise PermissionError). split; [reflexivity|exact Htr].
  - injection Hk as <- <-. split; [exact Hck|].
    exists (Raise IsADirectoryError). split; [reflexivity|exact Htr].
  - injection Hk as <- <-. split; [exact Hck|].
    exists (Raise OtherError). split; [reflexivity|exact Htr].
Qed.

Lemma reads_only_mtime_safe (p : Path) : reads_only (_mtime_safe p).
Proof.
  intros s r s' Hrun. destruct (mtime_safe_inv _ _ _ _ Hrun) as [Hck [rs Hrs]].
  split; [exact Hck|].
  destruct rs as [st | []]; destruct Hrs as [-> Htr];
    eexists; (split; [exact Htr|]); (split; [repeat constructor|]);
    intros e He; try discriminate; injection He as <-;
    eexists [], _; (split; [reflexivity|]); split; (reflexivity || discriminate).
Qed.

Lemma reads_only_collect_loop (allowed exclude : list string) :
  forall listing files, reads_only (collect_loop allowed exclude listing files).
Proof.
  induction listing as [|f rest IH]; intros files; cbn [collect_loop].
  - apply reads_only_ret.
  - apply reads_only_bind; [apply reads_only_is_file|].
    intros isf. destruct (negb isf); [apply IH|].
    destruct (suffix_rejected allowed f); [apply IH|].
    destruct (name_excluded exclude f); apply IH.
Qed.

Lemma reads_only_collect (dir : Path) (allowed exclude : list string) :
  reads_only (_collect_lora_files dir allowed exclude).
Proof.
  unfold _collect_lora_files.
  apply reads_only_bind; [apply reads_only_exists|].
  intros ex. destruct (negb ex); [apply reads_only_ret|].
  apply reads_only_bind; [apply reads_only_is_dir|].
  intros isd. destruct (negb isd); [apply reads_only_ret|].
  apply reads_only_bind; [apply reads_only_rglob|].
  intros listing. apply reads_only_collect_loop.
Qed.

Lemma reads_only_decorate :
  forall l, reads_only (decorate _mtime_safe l).
Proof.
  induction l as [|p rest IH]; cbn [decorate].
  - apply reads_only_ret.
  - apply reads_only_bind; [apply reads_only_mtime_safe|].
    intros k. apply reads_only_bind; [exact IH|].
    intros ks. apply reads_only_ret.
Qed.

(** ** The sort *)

Lemma key_justified_mono (now : Q) (evs evs' : list Event) (kp : Q * Path) :
  (forall ev, In ev evs -> In ev evs') ->
  key_justified now evs kp -> key_justified now evs' kp.
Proof.
  intros Hsub [[st [Hin Hk]] | [Hin Hk]].
  - left. exists st. split; [apply Hsub; exact Hin | exact Hk].
  - right. split; [apply Hsub; exact Hin | exact Hk].
Qed.

Lemma decorate_keys :
  forall l s keyed s',
    decorate _mtime_safe l s = (Ok keyed, s') ->
    exists evs,
      trace s' = trace s ++ evs
      /\ map snd keyed = l
      /\ Forall (key_justified (clock s) evs) keyed.
Proof.
  induction l as [|p rest IH]; intros s keyed s' Hrun; cbn [decorate] in Hrun.
  - injection Hrun as <- <-. exists []. rewrite app_nil_r.
    repeat split. constructor.
  - apply bind_inv in Hrun.
    destruct Hrun as [[k [s1 [Hkey Hrest]]] | [e [_ Hr]]]; [|discriminate].
    apply bind_inv in Hrest.
    destruct Hrest as [[ks [s2 [Hdec Hret]]] | [e [_ Hr]]]; [|discriminate].
    injection Hret as <- <-.
    destruct (mtime_safe_inv _ _ _ _ Hkey) as [Hck [rs Hrs]].
    destruct (IH _ _ _ Hdec) as [evs [Htr [Hmap Hjust]]].
    assert (Hhead : exists evs1,
               trace s1 = trace s ++ evs1
               /\ key_justified (clock s) evs1 (k, p)).
    { destruct rs as [st | []]; destruct Hrs as [Hk Htr1];
        try discriminate; injection Hk as ->;
        eexists; (split; [exact Htr1|]).
      - left. exists st. split; [left; reflexivity | reflexivity].
      - right. split; [left; reflexivity | reflexivity]. }
    destruct Hhead as [evs1 [Htr1 Hj1]].
    exists (evs1 ++ evs). split.
    { rewrite Htr, Htr1, app_assoc. reflexivity. }
    split; [cbn; rewrite Hmap; reflexivity|].
    constructor.
    + eapply key_justified_mono; [|exact Hj1].
      intros ev Hin. apply in_or_app. left. exact Hin.
    + rewrite Hck in Hjust. eapply Forall_impl; [|exact Hjust].
      intros kp Hkp. eapply key_justified_mono; [|exact Hkp].
      intros ev Hin. apply in_or_app. right. exact Hin.
Qed.

Lemma scan_sound (a : PurgeArgs) s r s' :
  (files <- _collect_lora_files (loras_dir a) (allowed_suffixes a)
              (exclude_names a) ;;
   list_sort _mtime_safe files) s = (r, s') ->
  clock s' = clock s
  /\ exists evs, trace s' = trace s ++ evs /\ scan_ok (clock s) evs r.
Proof.
  intros Hrun.
  assert (Hreads : reads_only
            (files <- _collect_lora_files (loras_dir a) (allowed_suffixes a)
                        (exclude_names a) ;;
             list_sort _mtime_safe files)).
  { apply reads_only_bind; [apply reads_only_collect|].
    intros files. unfold list_sort.
    apply reads_only_bind; [apply reads_only_decorate|].
    intros keyed. apply reads_only_ret. }
  destruct (Hreads _ _ _ Hrun) as [Hck [evs [Htr [Hread Habort]]]].
  split; [exact Hck|]. exists evs. split; [exact Htr|].
  split; [exact Hread|]. split; [exact Habort|].
  intros files ->. apply bind_inv in Hrun.
  destruct Hrun as [[files0 [s1 [Hcol Hsort]]] | [e [_ Hr]]]; [|discriminate].
  unfold list_sort in Hsort. apply bind_inv in Hsort.
  destruct Hsort as [[keyed [s2 [Hdec Hret]]] | [e [_ Hr]]]; [|discriminate].
  injection Hret as <- <-.
  destruct (reads_only_collect _ _ _ _ _ _ Hcol) as [Hck1 [evs1 [Htr1 _]]].
  destruct (decorate_keys _ _ _ _ Hdec) as [evs2 [Htr2 [_ Hjust]]].
  exists keyed. split; [reflexivity|].
  assert (Hevs : evs = evs1 ++ evs2).
  { rewrite Htr2, Htr1, <- app_assoc in Htr.
    apply app_inv_head in Htr. symmetry. exact Htr. }
  rewrite Hck1 in Hjust. eapply Forall_impl; [|exact Hjust].
  intros kp Hkp. eapply key_justified_mono; [|exact Hkp].
  intros ev Hin. rewrite Hevs. apply in_or_app. right. exact Hin.
Qed.

(** ** The engine as a whole *)

Lemma bind_assoc {A B C : Type} (m : M W A) (k : A -> M W B) (k' : B -> M W C) s :
  bind (bind m k) k' s = bind m (fun x => bind (k x) k') s.
Proof.
  unfold bind. destruct (m s) as [[x|e] s1]; reflexivity.
Qed.

Lemma engine_sound (a : PurgeArgs) s r s' :
  _purge_oldest_until_below a s = (r, s') ->
  clock s' = clock s
  /\ exists evs,
      trace s' = trace s ++ evs /\ engine_run a (clock s) evs r.
Proof.
  unfold _purge_oldest_until_below. intros Hrun. apply bind_inv in Hrun.
  destruct Hrun as [[before [s1 [Hprobe Hk]]] | [e [Hprobe ->]]];
    destruct (disk_usage_percent_inv _ _ _ _ Hprobe)
      as [ru [Htr1 [Hck1 [_ [_ Hpct]]]]].
  2:{ destruct ru as [u|e']; [discriminate | injection Hpct as ->].
      split; [exact Hck1|]. eexists. split; [exact Htr1|]. constructor. }
  destruct ru as [u|e']; [injection Hpct as -> | discriminate].
  destruct (Qltb (percent_of u) (threshold_percent a)) eqn:Ethr.
  { injection Hk as <- <-. split; [exact Hck1|].
    eexists. split; [exact Htr1|]. constructor. exact Ethr. }
  rewrite <- bind_assoc in Hk. apply bind_inv in Hk.
  destruct Hk as [[files [s2 [Hscan Hk]]] | [e [Hscan ->]]];
    destruct (scan_sound _ _ _ _ Hscan) as [Hck2 [scan [Htr2 Hok]]];
    rewrite Hck1 in Hok.
  2:{ split; [congruence|]. exists (EvDiskUsage (root_for_usage a) (Ok u) :: scan).
      split; [rewrite Htr2, Htr1, <- app_assoc; reflexivity|].
      apply ER_scan_raises; assumption. }
  apply bind_inv in Hk.
  destruct Hk as [[now [s3 [Htime Hk]]] | [e [Htime _]]]; [|discriminate].
  unfold sys_time in Htime. injection Htime as <- <-.
  apply bind_inv in Hk.
  destruct Hk as [[acc [s4 [Hloop Hk]]] | [e [Hloop ->]]];
    destruct (purge_loop_sound _ _ _ _ _ _ _ Hloop) as [evs [Htr4 [Hck4 Hlr]]];
    cbn [trace clock] in Htr4, Hck4; rewrite Hck2, Hck1 in Hlr.
  2:{ split; [congruence|].
      exists (EvDiskUsage (root_for_usage a) (Ok u) :: scan ++ EvTime (clock s) :: evs).
      split.
      { rewrite Htr4, Htr2, Htr1, Hck2, Hck1, <- !app_assoc. reflexivity. }
      eapply ER_loop_raises; eassumption. }
  apply bind_inv in Hk.
  destruct Hk as [[after [s5 [Hlast Hk]]] | [e [Hlast ->]]];
    destruct (disk_usage_percent_inv _ _ _ _ Hlast)
      as [ru' [Htr5 [Hck5 [_ [_ Hpct']]]]].
  - destruct ru' as [u'|e']; [injection Hpct' as -> | discriminate].
    injection Hk as <- <-. split; [congruence|].
    exists (EvDiskUsage (root_for_usage a) (Ok u) :: scan ++ EvTime (clock s) :: evs
              ++ [EvDiskUsage (root_for_usage a) (Ok u')]).
    split.
    { rewrite Htr5, Htr4, Htr2, Htr1, Hck2, Hck1, <- !app_assoc. reflexivity. }
    eapply ER_done; eassumption.
  - destruct ru' as [u'|e']; [discriminate | injection Hpct' as ->].
    split; [congruence|].
    exists (EvDiskUsage (root_for_usage a) (Ok u) :: scan ++ EvTime (clock s) :: evs
              ++ [EvDiskUsage (root_for_usage a) (Raise e')]).
    split.
    { rewrite Htr5, Htr4, Htr2, Htr1, Hck2, Hck1, <- !app_assoc. reflexivity. }
    eapply ER_last_probe_raises; eassumption.
Qed.

(** ** Accounting *)

Lemma deletions_app (l1 l2 : list LogLine) :
  deletions (l1 ++ l2) = deletions l1 ++ deletions l2.
Proof.
  induction l1 as [|l r IH]; [reflexivity|].
  cbn [app deletions]. destruct (deletion_of l); rewrite IH; reflexivity.
Qed.

Lemma total_size_app (d1 d2 : list (Path * Z)) :
  total_size (d1 ++ d2) = total_size d1 + total_size d2.
Proof.
  induction d1 as [|d r IH]; [reflexivity|].
  cbn [app total_size fold_right]. fold (total_size (r ++ d2)).
  fold (total_size r). rewrite IH. ring.
Qed.

Lemma attempt_run_accounting (a : PurgeArgs) f size acc att acc' :
  attempt_run a f size acc att acc' ->
  exists l,
    lines acc' = lines acc ++ [l]
    /\ line_path l = Some f
    /\ n_deleted acc' = n_deleted acc + Z.of_nat (List.length (deletions [l]))
    /\ n_bytes acc' = n_bytes acc + total_size (deletions [l])
    /\ (forall d, deletion_of l = Some d -> d = (f, size)).
Proof.
  intros Hatt. inversion Hatt; subst; eexists;
    (split; [reflexivity|]); (split; [reflexivity|]); cbn;
    repeat split; try ring; intros d Hd; congruence.
Qed.

Lemma loop_run_accounting (a : PurgeArgs) (now : Q) files acc evs r :
  loop_run a now files acc evs r ->
  forall acc', r = Ok acc' ->
  exists new,
    lines acc' = lines acc ++ new
    /\ n_deleted acc' = n_deleted acc + Z.of_nat (List.length (deletions new))
    /\ n_bytes acc' = n_bytes acc + total_size (deletions new).
Proof.
  induction 1 as
      [ acc | f rest acc Hlim | f rest acc evs r Hlim Hrun IH
      | f rest acc e Hlim He | f rest acc st evs r Hlim Hfresh Hrun IH
      | f rest acc st att acc1 e Hlim Hfresh Hatt
      | f rest acc st att acc1 u Hlim Hfresh Hatt Htgt
      | f rest acc st att acc1 u evs r Hlim Hfresh Hatt Htgt Hrun IH ];
    intros acc' Hr; try discriminate.
  - injection Hr as <-. exists []. rewrite app_nil_r. cbn.
    repeat split; ring.
  - injection Hr as <-. eexists. split; [reflexivity|]. cbn. split; ring.
  - exact (IH _ Hr).
  - exact (IH _ Hr).
  - injection Hr as <-.
    destruct (attempt_run_accounting _ _ _ _ _ _ Hatt) as [l [Hl [_ [Hn [Hb _]]]]].
    exists [l; LReached (percent_of u) (target_percent a)].
    cbn [logged lines n_deleted n_bytes]. rewrite Hl, <- app_assoc.
    split; [reflexivity|].
    change [l; LReached (percent_of u) (target_percent a)]
      with ([l] ++ [LReached (percent_of u) (target_percent a)]).
    rewrite deletions_app. cbn [deletions deletion_of]. rewrite app_nil_r.
    split; assumption.
  - destruct (attempt_run_accounting _ _ _ _ _ _ Hatt) as [l [Hl [_ [Hn [Hb _]]]]].
    destruct (IH _ Hr) as [new [Hnew [Hn' Hb']]].
    exists (l :: new). split.
    { rewrite Hnew, Hl, <- app_assoc. reflexivity. }
    change (l :: new) with ([l] ++ new).
    rewrite deletions_app, length_app, total_size_app, Nat2Z.inj_add.
    split; lia.
Qed.

Lemma header_no_deletions (a : PurgeArgs) (before : Q) :
  deletions (header_lines a before) = [].
Proof. reflexivity. Qed.

(** What an engine run that was triggered reports is what its loop
    accumulated. *)
Lemma engine_run_accounting (a : PurgeArgs) (now : Q) evs res :
  engine_run a now evs (Ok res) ->
  files_deleted res = Z.of_nat (List.length (deletions (log res)))
  /\ bytes_freed res = total_size (deletions (log res)).
Proof.
  intros Hrun. inversion Hrun; subst.
  - split; reflexivity.
  - match goal with
    | Hl : loop_run _ _ _ _ _ (Ok _) |- _ =>
        destruct (loop_run_accounting _ _ _ _ _ _ Hl _ eq_refl)
          as [new [Hnew [Hn Hb]]]
    end.
    cbn [files_deleted bytes_freed log].
    cbn [acc0 n_deleted n_bytes lines] in Hnew, Hn, Hb.
    rewrite Hnew. cbn [app deletions deletion_of].
    rewrite deletions_app, header_no_deletions. cbn [app]. split; lia.
Qed.

(** ** The deletion cap *)

Lemma attempt_run_count (a : PurgeArgs) f size acc att acc' :
  attempt_run a f size acc att acc' ->
  n_deleted acc <= n_deleted acc' <= n_deleted acc + 1.
Proof.
  intros Hatt. inversion Hatt; subst; cbn; lia.
Qed.

Lemma loop_run_limit (a : PurgeArgs) (now : Q) files acc evs r :
  loop_run a now files acc evs r ->
  0 < delete_count_limit a ->
  n_deleted acc <= delete_count_limit a ->
  forall acc', r = Ok acc' -> n_deleted acc' <= delete_count_limit a.
Proof.
  intros Hrun Hpos.
  assert (Hroom : forall acc0,
             limit_reached a acc0 = false ->
             n_deleted acc0 + 1 <= delete_count_limit a).
  { intros acc0 Hlim. unfold limit_reached in Hlim.
    apply andb_false_iff in Hlim. destruct Hlim as [Hz | Hle].
    - apply negb_false_iff, Z.eqb_eq in Hz. lia.
    - apply Z.leb_gt in Hle. lia. }
  induction Hrun as
      [ acc | f rest acc Hlim | f rest acc evs r Hlim Hrun IH
      | f rest acc e Hlim He | f rest acc st evs r Hlim Hfresh Hrun IH
      | f rest acc st att acc1 e Hlim Hfresh Hatt
      | f rest acc st att acc1 u Hlim Hfresh Hatt Htgt
      | f rest acc st att acc1 u evs r Hlim Hfresh Hatt Htgt Hrun IH ];
    intros Hle acc' Hr; try discriminate.
  - injection Hr as <-. exact Hle.
  - injection Hr as <-. exact Hle.
  - exact (IH Hle _ Hr).
  - exact (IH Hle _ Hr).
  - injection Hr as <-. cbn [logged n_deleted].
    pose proof (attempt_run_count _ _ _ _ _ _ Hatt).
    pose proof (Hroom _ Hlim). lia.
  - apply (IH); [|exact Hr].
    pose proof (attempt_run_count _ _ _ _ _ _ Hatt).
    pose proof (Hroom _ Hlim). lia.
Qed.

Lemma engine_limit (a : PurgeArgs) s res s' :
  0 < delete_count_limit a ->
  _purge_oldest_until_below a s = (Ok res, s') ->
  files_deleted res <= delete_count_limit a.
Proof.
  intros Hpos Hrun.
  destruct (engine_sound _ _ _ _ Hrun) as [_ [evs [_ Her]]].
  inversion Her; subst; cbn [files_deleted].
  - lia.
  - match goal with
    | Hl : loop_run _ _ _ _ _ (Ok _) |- _ =>
        apply (loop_run_limit _ _ _ _ _ _ Hl Hpos); [cbn; lia | reflexivity]
    end.
Qed.

(** C8: with a deletion count limit greater than zero, the number of files
    the engine counts as deleted, really or under dry-run, never exceeds
    the limit; the count is the number of deletion lines of its log, and
    it is the count [run] returns. *)
Theorem C8_deletions_within_limit :
  (forall (a : PurgeArgs) (s s' : St W) (res : PurgeResult),
      0 < delete_count_limit a ->
      _purge_oldest_until_below a s = (Ok res, s') ->
      files_deleted res <= delete_count_limit a
      /\ files_deleted res = Z.of_nat (List.length (deletions (log res))))
  /\ (forall (r : RunArgs) (s s' : St W) (out : NodeOutput),
      0 < run_delete_count_limit r ->
      run r s = (Ok out, s') ->
      out_files_deleted out <= run_delete_count_limit r).
Proof.
  split.
  - intros a s s' res Hpos Hrun. split.
    + exact (engine_limit _ _ _ _ Hpos Hrun).
    + destruct (engine_sound _ _ _ _ Hrun) as [_ [evs [_ Her]]].
      exact (proj1 (engine_run_accounting _ _ _ _ Her)).
  - intros r s s' out Hpos Hrun. unfold run in Hrun.
    apply bind_inv in Hrun.
    destruct Hrun as [[dir [s1 [_ Hk]]] | [e [_ Hr]]]; [|discriminate].
    apply bind_inv in Hk.
    destruct Hk as [[ex [s2 [_ Hk]]] | [e [_ Hr]]]; [|discriminate].
    destruct ex; cbn [negb] in Hk.
    + apply bind_inv in Hk.
      destruct Hk as [[res [s3 [Heng Hk]]] | [e [_ Hr]]]; [|discriminate].
      apply bind_inv in Hk.
      destruct Hk as [[tl [s4 [_ Hk]]] | [e [_ Hr]]]; [|discriminate].
      injection Hk as <- <-. cbn [out_files_deleted].
      apply (engine_limit (engine_args r dir) s2 res s3); [exact Hpos | exact Heng].
    + apply bind_inv in Hk.
      destruct Hk as [[cwd [s3 [_ Hk]]] | [e [_ Hr]]]; [|discriminate].
      apply bind_inv in Hk.
      destruct Hk as [[used [s4 [_ Hk]]] | [e [_ Hr]]]; [|discriminate].
      injection Hk as <- <-. cbn [out_files_deleted]. lia.
Qed.

(** ** Minimum age *)

Ltac loop_induction Hrun :=
  induction Hrun as
      [ acc | f rest acc Hlim | f rest acc evs r Hlim Hrun IH
      | f rest acc e Hlim He | f rest acc st evs r Hlim Hfresh Hrun IH
      | f rest acc st att acc1 e Hlim Hfresh Hatt
      | f rest acc st att acc1 u Hlim Hfresh Hatt Htgt
      | f rest acc st att acc1 u evs r Hlim Hfresh Hatt Htgt Hrun IH ].

Lemma attempt_run_events (a : PurgeArgs) f size acc att acc' :
  attempt_run a f size acc att acc' ->
  forall ev, In ev att -> exists o, ev = EvUnlink f o.
Proof.
  intros Hatt ev Hin. inversion Hatt; subst; cbn in Hin;
    try contradiction; destruct Hin as [<- | []]; eexists; reflexivity.
Qed.

Lemma in_deletions (ls : list LogLine) (l : LogLine) (d : Path * Z) :
  In l ls -> deletion_of l = Some d -> In d (deletions ls).
Proof.
  induction ls as [|l0 r IH]; intros Hin Hd; [contradiction|].
  cbn [deletions]. destruct Hin as [-> | Hin].
  - rewrite Hd. left. reflexivity.
  - destruct (deletion_of l0); [right|]; exact (IH Hin Hd).
Qed.

Lemma deletions_in (ls : list LogLine) (d : Path * Z) :
  In d (deletions ls) -> exists l, In l ls /\ deletion_of l = Some d.
Proof.
  induction ls as [|l0 r IH]; cbn [deletions]; intros Hin; [contradiction|].
  destruct (deletion_of l0) as [d0|] eqn:E.
  - destruct Hin as [<- | Hin].
    + exists l0. split; [left; reflexivity | exact E].
    + destruct (IH Hin) as [l [Hl Hd]]. exists l. split; [right|]; assumption.
  - destruct (IH Hin) as [l [Hl Hd]]. exists l. split; [right|]; assumption.
Qed.

(** Every [unlink] of the loop follows a [stat] of the same path that
    succeeded and passed the age test. *)
Lemma loop_run_unlink_eligible (a : PurgeArgs) (now : Q) files acc evs r :
  loop_run a now files acc evs r ->
  forall f0 o, In (EvUnlink f0 o) evs ->
  exists st, In (EvStat f0 (Ok st)) evs /\ too_fresh a now st = false.
Proof.
  intros Hrun. loop_induction Hrun; intros f0 o Hin; cbn in Hin.
  - contradiction.
  - contradiction.
  - destruct Hin as [Heq | Hin]; [discriminate|].
    destruct (IH _ _ Hin) as [st [Hst Hf]]. exists st. split; [right|]; assumption.
  - destruct Hin as [Heq | []]. discriminate.
  - destruct Hin as [Heq | Hin]; [discriminate|].
    destruct (IH _ _ Hin) as [st0 [Hst Hf]]. exists st0. split; [right|]; assumption.
  - destruct Hin as [Heq | Hin]; [discriminate|].
    apply in_app_or in Hin. destruct Hin as [Hin | [Heq | []]]; [|discriminate].
    destruct (attempt_run_events _ _ _ _ _ _ Hatt _ Hin) as [o' Heq].
    injection Heq as <- _. exists st. split; [left; reflexivity | exact Hfresh].
  - destruct Hin as [Heq | Hin]; [discriminate|].
    apply in_app_or in Hin. destruct Hin as [Hin | [Heq | []]]; [|discriminate].
    destruct (attempt_run_events _ _ _ _ _ _ Hatt _ Hin) as [o' Heq].
    injection Heq as <- _. exists st. split; [left; reflexivity | exact Hfresh].
  - destruct Hin as [Heq | Hin]; [discriminate|].
    apply in_app_or in Hin. destruct Hin as [Hin | [Heq | Hin]]; [|discriminate|].
    + destruct (attempt_run_events _ _ _ _ _ _ Hatt _ Hin) as [o' Heq].
      injection Heq as <- _. exists st. split; [left; reflexivity | exact Hfresh].
    + destruct (IH _ _ Hin) as [st0 [Hst Hf]]. exists st0. split; [|exact Hf].
      right. apply in_or_app. right. right. exact Hst.
Qed.

(** Every deletion the loop reports follows a [stat] of the same path that
    succeeded, passed the age test and gave the size reported. *)
Lemma loop_run_deletions_eligible (a : PurgeArgs) (now : Q) files acc evs r :
  loop_run a now files acc evs r ->
  forall acc', r = Ok acc' ->
  exists new,
    lines acc' = lines acc ++ new
    /\ forall f0 size, In (f0, size) (deletions new) ->
       exists st, In (EvStat f0 (Ok st)) evs
                  /\ too_fresh a now st = false /\ size = st_size st.
Proof.
  intros Hrun. loop_induction Hrun; intros acc' Hr; try discriminate.
  - injection Hr as <-. exists []. rewrite app_nil_r. split; [reflexivity|].
    intros f0 size [].
  - injection Hr as <-. eexists. split; [reflexivity|]. intros f0 size [].
  - destruct (IH _ Hr) as [new [Hnew Hdel]]. exists new. split; [exact Hnew|].
    intros f0 size Hin. destruct (Hdel _ _ Hin) as [st [Hst Hp]].
    exists st. split; [right; exact Hst | exact Hp].
  - destruct (IH _ Hr) as [new [Hnew Hdel]]. exists new. split; [exact Hnew|].
    intros f0 size Hin. destruct (Hdel _ _ Hin) as [st0 [Hst Hp]].
    exists st0. split; [right; exact Hst | exact Hp].
  - injection Hr as <-.
    destruct (attempt_run_accounting _ _ _ _ _ _ Hatt) as [l [Hl [_ [_ [_ Hd]]]]].
    exists [l; LReached (percent_of u) (target_percent a)].
    cbn [logged lines]. rewrite Hl, <- app_assoc. split; [reflexivity|].
    intros f0 size Hin. apply deletions_in in Hin.
    destruct Hin as [l0 [[<- | [<- | []]] Hd0]]; [|discriminate].
    apply Hd in Hd0. injection Hd0 as -> ->.
    exists st. split; [left; reflexivity|]. split; [exact Hfresh | reflexivity].
  - destruct (attempt_run_accounting _ _ _ _ _ _ Hatt) as [l [Hl [_ [_ [_ Hd]]]]].
    destruct (IH _ Hr) as [new [Hnew Hdel]].
    exists (l :: new). split.
    { rewrite Hnew, Hl, <- app_assoc. reflexivity. }
    intros f0 size Hin. change (l :: new) with ([l] ++ new) in Hin.
    rewrite deletions_app in Hin. apply in_app_or in Hin.
    destruct Hin as [Hin | Hin].
    + apply deletions_in in Hin. destruct Hin as [l0 [[<- | []] Hd0]].
      apply Hd in Hd0. injection Hd0 as -> ->.
      exists st. split; [left; reflexivity|]. split; [exact Hfresh | reflexivity].
    + destruct (Hdel _ _ Hin) as [st0 [Hst Hp]]. exists st0. split; [|exact Hp].
      right. apply in_or_app. right. right. exact Hst.
Qed.

Lemma scan_no_unlink (now : Q) scan r f o :
  scan_ok now scan r -> ~ In (EvUnlink f o) scan.
Proof.
  intros [Hread _] Hin. rewrite Forall_forall in Hread.
  specialize (Hread _ Hin). discriminate.
Qed.

Lemma engine_run_eligible (a : PurgeArgs) (now : Q) evs r :
  engine_run a now evs r ->
  (forall f o, In (EvUnlink f o) evs ->
     exists st, In (EvStat f (Ok st)) evs /\ too_fresh a now st = false)
  /\ (forall res, r = Ok res ->
      forall f size, In (f, size) (deletions (log res)) ->
      exists st, In (EvStat f (Ok st)) evs
                 /\ too_fresh a now st = false /\ size = st_size st).
Proof.
  intros Hrun.
  assert (Hloop : forall u scan files levs racc post,
             scan_ok now scan (Ok files) ->
             loop_run a now files (acc0 a (percent_of u)) levs racc ->
             (forall f o, ~ In (EvUnlink f o) post) ->
             forall f o,
               In (EvUnlink f o)
                  (EvDiskUsage (root_for_usage a) (Ok u) :: scan
                     ++ EvTime now :: levs ++ post) ->
               exists st,
                 In (EvStat f (Ok st))
                    (EvDiskUsage (root_for_usage a) (Ok u) :: scan
                       ++ EvTime now :: levs ++ post)
                 /\ too_fresh a now st = false).
  { intros u scan files levs racc post Hscan Hl Hpost f o Hin.
    destruct Hin as [Heq | Hin]; [discriminate|].
    apply in_app_or in Hin. destruct Hin as [Hin | [Heq | Hin]];
      [exfalso; exact (scan_no_unlink _ _ _ _ _ Hscan Hin) | discriminate |].
    apply in_app_or in Hin. destruct Hin as [Hin | Hin];
      [|exfalso; exact (Hpost _ _ Hin)].
    destruct (loop_run_unlink_eligible _ _ _ _ _ _ Hl _ _ Hin) as [st [Hst Hf]].
    exists st. split; [|exact Hf].
    right. apply in_or_app. right. right. apply in_or_app. left. exact Hst. }
  inversion Hrun; subst.
  - split; [|intros res Hr; discriminate].
    intros f o [Heq | []]. discriminate.
  - split.
    + intros f o [Heq | []]. discriminate.
    + intros res Hr. injection Hr as <-. intros f size [].
  - split; [|intros res Hr; discriminate].
    intros f o [Heq | Hin]; [discriminate|].
    exfalso. match goal with Hs : scan_ok _ _ _ |- _ =>
      exact (scan_no_unlink _ _ _ _ _ Hs Hin) end.
  - split; [|intros res Hr; discriminate].
    intros f o Hin.
    match goal with Hs : scan_ok _ _ _, Hl : loop_run _ _ _ _ _ _ |- _ =>
      pose proof (Hloop u scan files evs0 _ [] Hs Hl (fun _ _ Hf => Hf)) as Hx end.
    rewrite !app_nil_r in Hx. exact (Hx _ _ Hin).
  - split; [|intros res Hr; discriminate].
    match goal with Hs : scan_ok _ _ _, Hl : loop_run _ _ _ _ _ _ |- _ =>
      apply (Hloop u scan files evs0 _ _ Hs Hl) end.
    intros f o [Heq | []]. discriminate.
  - split.
    + match goal with Hs : scan_ok _ _ _, Hl : loop_run _ _ _ _ _ _ |- _ =>
        apply (Hloop u scan files evs0 _ _ Hs Hl) end.
      intros f o [Heq | []]. discriminate.
    + intros res Hr. injection Hr as <-. cbn [log]. intros f size Hin.
      match goal with Hl : loop_run _ _ _ _ _ (Ok _) |- _ =>
        destruct (loop_run_deletions_eligible _ _ _ _ _ _ Hl _ eq_refl)
          as [new [Hnew Hdel]] end.
      cbn [acc0 lines] in Hnew. rewrite Hnew in Hin.
      cbn [app deletions deletion_of] in Hin.
      rewrite deletions_app, header_no_deletions in Hin. cbn [app] in Hin.
      destruct (Hdel _ _ Hin) as [st [Hst Hp]]. exists st. split; [|exact Hp].
      right. apply in_or_app. right. right. apply in_or_app. left. exact Hst.
Qed.

(** C7: when a minimum age is configured ([min_age_seconds > 0]) and every
    [stat] of a file made during the run reports an age, [now] minus its
    modification time, below that minimum, the engine never unlinks the
    file and never reports it as deleted, in live mode or under dry-run,
    whether the run returns or raises. *)
Theorem C7_young_files_never_deleted :
  forall (a : PurgeArgs) (s s' : St W) (r : res PurgeResult)
         (evs : list Event) (f : Path),
    0 < min_age_seconds a ->
    _purge_oldest_until_below a s = (r, s') ->
    trace s' = trace s ++ evs ->
    (forall st, In (EvStat f (Ok st)) evs ->
       (clock s - st_mtime st < inject_Z (min_age_seconds a))%Q) ->
    (forall o, ~ In (EvUnlink f o) evs)
    /\ (forall res, r = Ok res ->
        forall size,
          ~ In (LDeleted f size) (log res) /\ ~ In (LDryRun f size) (log res)).
Proof.
  intros a s s' r evs f Hpos Hrun Htr Hyoung.
  destruct (engine_sound _ _ _ _ Hrun) as [_ [evs0 [Htr0 Her]]].
  rewrite Htr0 in Htr. apply app_inv_head in Htr. subst evs0.
  destruct (engine_run_eligible _ _ _ _ Her) as [Hunl Hdel].
  assert (Hno : forall st, In (EvStat f (Ok st)) evs ->
                  too_fresh a (clock s) st = false -> False).
  { intros st Hin Hf. specialize (Hyoung st Hin). apply Qltb_lt in Hyoung.
    unfold too_fresh in Hf. rewrite Hyoung, andb_true_r in Hf.
    apply Z.ltb_ge in Hf. lia. }
  split.
  - intros o Hin. destruct (Hunl _ _ Hin) as [st [Hst Hf]]. exact (Hno st Hst Hf).
  - intros res Hr size. split; intros Hin;
      (assert (Hd : In (f, size) (deletions (log res)))
        by (eapply in_deletions; [exact Hin | reflexivity]));
      destruct (Hdel res Hr _ _ Hd) as [st [Hst [Hf _]]]; exact (Hno st Hst Hf).
Qed.

(** ** Failures on single files *)

Lemma loop_run_abort (a : PurgeArgs) (now : Q) files acc evs r :
  loop_run a now files acc evs r ->
  forall e, r = Raise e -> exists pre ev, evs = pre ++ [ev] /\ abort_cause ev e.
Proof.
  intros Hrun. loop_induction Hrun; intros e0 Hr; try discriminate.
  - destruct (IH _ Hr) as [pre [ev [-> Hev]]].
    exists (EvStat f (Raise FileNotFoundError) :: pre), ev.
    split; [reflexivity | exact Hev].
  - injection Hr as <-. exists [], (EvStat f (Raise e)).
    split; [reflexivity|]. split; [reflexivity | exact He].
  - destruct (IH _ Hr) as [pre [ev [-> Hev]]].
    exists (EvStat f (Ok st) :: pre), ev. split; [reflexivity | exact Hev].
  - injection Hr as <-.
    exists (EvStat f (Ok st) :: att), (EvDiskUsage (root_for_usage a) (Raise e)).
    split; reflexivity.
  - destruct (IH _ Hr) as [pre [ev [-> Hev]]].
    exists (EvStat f (Ok st) :: att ++ EvDiskUsage (root_for_usage a) (Ok u) :: pre), ev.
    split; [|exact Hev]. cbn. rewrite <- app_assoc. reflexivity.
Qed.

Lemma engine_run_abort (a : PurgeArgs) (now : Q) evs e :
  engine_run a now evs (Raise e) ->
  exists pre ev, evs = pre ++ [ev] /\ abort_cause ev e.
Proof.
  intros Hrun. inversion Hrun; subst.
  - exists [], (EvDiskUsage (root_for_usage a) (Raise e)). split; reflexivity.
  - match goal with Hs : scan_ok _ _ _ |- _ =>
      destruct Hs as [_ [Hab _]]; destruct (Hab e eq_refl) as [pre [ev [-> Hev]]] end.
    exists (EvDiskUsage (root_for_usage a) (Ok u) :: pre), ev.
    split; [reflexivity | exact Hev].
  - match goal with Hl : loop_run _ _ _ _ _ _ |- _ =>
      destruct (loop_run_abort _ _ _ _ _ _ Hl e eq_refl) as [pre [ev [-> Hev]]] end.
    exists (EvDiskUsage (root_for_usage a) (Ok u) :: scan ++ EvTime now :: pre), ev.
    split; [|exact Hev]. cbn. rewrite <- app_assoc. reflexivity.
  - exists (EvDiskUsage (root_for_usage a) (Ok u) :: scan ++ EvTime now :: evs0),
      (EvDiskUsage (root_for_usage a) (Raise e)).
    split; [|reflexivity]. cbn. rewrite <- !app_assoc. reflexivity.
Qed.

Lemma attempt_run_live (a : PurgeArgs) f size acc att acc' :
  dry_run a = false ->
  attempt_run a f size acc att acc' ->
  exists o l,
    att = [EvUnlink f o]
    /\ lines acc' = lines acc ++ [l]
    /\ ((unlink_returned (EvUnlink f o) = true
         /\ unlink_failed (EvUnlink f o) = false
         /\ is_skip_line l = false
         /\ n_deleted acc' = n_deleted acc + 1)
        \/ (exists e, o = Raise e /\ e <> FileNotFoundError
            /\ unlink_returned (EvUnlink f o) = false
            /\ unlink_failed (EvUnlink f o) = true
            /\ l = skip_line f e
            /\ is_skip_line l = true
            /\ n_deleted acc' = n_deleted acc
            /\ n_bytes acc' = n_bytes acc)).
Proof.
  intros Hlive Hatt. inversion Hatt; subst; try congruence;
    eexists _, _; (split; [reflexivity|]); (split; [reflexivity|]).
  - left. repeat split.
  - left. repeat split.
  - right. exists PermissionError. repeat split. discriminate.
  - right. exists IsADirectoryError. repeat split. discriminate.
  - right. exists OtherError. repeat split. discriminate.
Qed.

Lemma loop_run_live (a : PurgeArgs) (now : Q) files acc evs r :
  dry_run a = false ->
  loop_run a now files acc evs r ->
  forall acc', r = Ok acc' ->
  exists new,
    lines acc' = lines acc ++ new
    /\ (forall f0 e, In (EvUnlink f0 (Raise e)) evs -> e <> FileNotFoundError ->
        In (skip_line f0 e) new)
    /\ List.length (filter is_skip_line new)
       = List.length (filter unlink_failed evs)
    /\ n_deleted acc'
       = n_deleted acc + Z.of_nat (List.length (filter unlink_returned evs)).
Proof.
  intros Hlive Hrun. loop_induction Hrun; intros acc' Hr; try discriminate.
  - injection Hr as <-. exists []. rewrite app_nil_r. cbn.
    repeat split; try lia; try (intros ? ? []).
  - injection Hr as <-. eexists. split; [reflexivity|]. cbn.
    repeat split; try lia; try (intros ? ? []).
  - destruct (IH _ Hr) as [new [Hnew [Hskip [Hlen Hcnt]]]].
    exists new. split; [exact Hnew|]. cbn. repeat split; try assumption.
    intros f0 e0 [Heq | Hin] Hne; [discriminate | exact (Hskip _ _ Hin Hne)].
  - destruct (IH _ Hr) as [new [Hnew [Hskip [Hlen Hcnt]]]].
    exists new. split; [exact Hnew|]. cbn. repeat split; try assumption.
    intros f0 e0 [Heq | Hin] Hne; [discriminate | exact (Hskip _ _ Hin Hne)].
  - injection Hr as <-.
    destruct (attempt_run_live _ _ _ _ _ _ Hlive Hatt) as [o [l [-> [Hl Hcase]]]].
    exists [l; LReached (percent_of u) (target_percent a)].
    cbn [logged lines n_deleted]. rewrite Hl, <- app_assoc.
    split; [reflexivity|].
    destruct Hcase as [[Hret [Hfail [Hsk Hn]]]
                      | [e [-> [Hne [Hret [Hfail [-> [Hsk [Hn _]]]]]]]]];
      cbn [app filter]; cbn [unlink_failed unlink_returned] in *;
      rewrite ?Hret, ?Hfail, ?Hsk; cbn.
    + repeat split; try lia.
      intros f0 e [Heq | [Heq | [Heq | []]]] Hne; try discriminate.
      injection Heq as <- ->. destruct e; try discriminate. congruence.
    + repeat split; try lia.
      intros f0 e0 [Heq | [Heq | [Heq | []]]] Hne0; try discriminate.
      injection Heq as <- <-. left. reflexivity.
  - destruct (attempt_run_live _ _ _ _ _ _ Hlive Hatt) as [o [l [-> [Hl Hcase]]]].
    destruct (IH _ Hr) as [new [Hnew [Hskip [Hlen Hcnt]]]].
    exists (l :: new). split.
    { rewrite Hnew, Hl, <- app_assoc. reflexivity. }
    destruct Hcase as [[Hret [Hfail [Hsk Hn]]]
                      | [e [-> [Hne [Hret [Hfail [-> [Hsk [Hn _]]]]]]]]];
      cbn [app filter]; cbn [unlink_failed unlink_returned] in *;
      rewrite ?Hret, ?Hfail, ?Hsk; cbn [List.length].
    + repeat split; try lia.
      intros f0 e [Heq | [Heq | [Heq | Hin]]] Hne; try discriminate.
      * injection Heq as <- ->. destruct e; try discriminate. congruence.
      * right. exact (Hskip _ _ Hin Hne).
    + repeat split; try lia.
      intros f0 e0 [Heq | [Heq | [Heq | Hin]]] Hne0; try discriminate.
      * injection Heq as <- <-. left. reflexivity.
      * right. exact (Hskip _ _ Hin Hne0).
Qed.

(** A candidate whose every [stat] raised [FileNotFoundError] leaves no
    line in what the loop logs. *)
Lemma loop_run_vanished_silent (a : PurgeArgs) (now : Q) files acc evs r :
  loop_run a now files acc evs r ->
  forall acc', r = Ok acc' ->
  exists new,
    lines acc' = lines acc ++ new
    /\ forall f0,
        (forall rs, In (EvStat f0 rs) evs -> rs = Raise FileNotFoundError) ->
        forall l, In l new -> line_path l <> Some f0.
Proof.
  intros Hrun. loop_induction Hrun; intros acc' Hr; try discriminate.
  - injection Hr as <-. exists []. rewrite app_nil_r. split; [reflexivity|].
    intros f0 _ l [].
  - injection Hr as <-. eexists. split; [reflexivity|].
    intros f0 _ l [<- | []]. discriminate.
  - destruct (IH _ Hr) as [new [Hnew Hsil]]. exists new. split; [exact Hnew|].
    intros f0 Hall. apply Hsil. intros rs Hin. apply Hall. right. exact Hin.
  - destruct (IH _ Hr) as [new [Hnew Hsil]]. exists new. split; [exact Hnew|].
    intros f0 Hall. apply Hsil. intros rs Hin. apply Hall. right. exact Hin.
  - injection Hr as <-.
    destruct (attempt_run_accounting _ _ _ _ _ _ Hatt) as [l [Hl [Hp _]]].
    exists [l; LReached (percent_of u) (target_percent a)].
    cbn [logged lines]. rewrite Hl, <- app_assoc. split; [reflexivity|].
    intros f0 Hall l0 [<- | [<- | []]]; [|discriminate].
    rewrite Hp. intros Heq. injection Heq as ->.
    specialize (Hall (Ok st) (or_introl eq_refl)). discriminate.
  - destruct (attempt_run_accounting _ _ _ _ _ _ Hatt) as [l [Hl [Hp _]]].
    destruct (IH _ Hr) as [new [Hnew Hsil]].
    exists (l :: new). split.
    { rewrite Hnew, Hl, <- app_assoc. reflexivity. }
    intros f0 Hall l0 [<- | Hin].
    + rewrite Hp. intros Heq. injection Heq as ->.
      specialize (Hall (Ok st) (or_introl eq_refl)). discriminate.
    + apply (Hsil f0); [|exact Hin].
      intros rs Hrs. apply Hall. right. apply in_or_app. right. right. exact Hrs.
Qed.

Lemma reads_no_unlink (evs : list Event) :
  Forall (fun ev => is_mutation ev = false) evs ->
  filter unlink_failed evs = [] /\ filter unlink_returned evs = [].
Proof.
  induction 1 as [|ev r Hev _ [IH1 IH2]]; [split; reflexivity|].
  cbn [filter]. rewrite IH1, IH2.
  destruct ev as [| | | | | | | | | p [[]|[]] | |]; cbn in Hev |- *;
    try discriminate; split; reflexivity.
Qed.

Lemma header_line_path (a : PurgeArgs) (before : Q) (l : LogLine) :
  In l (header_lines a before) -> line_path l = None /\ is_skip_line l = false.
Proof.
  unfold header_lines. cbn [In].
  intros [<- | [<- | [<- | [<- | [<- | [<- | [<- | []]]]]]]]; split; reflexivity.
Qed.

Lemma filter_skip_header (a : PurgeArgs) (before : Q) :
  filter is_skip_line (header_lines a before) = [].
Proof. reflexivity. Qed.

(** The calls of a triggered engine run, filtered for [unlink]s, are those
    of its loop. *)
Lemma filter_unlink_engine (p : Event -> bool) (now : Q) (a : PurgeArgs)
  (u : usage) (ru : res usage) (scan levs : list Event) (r : res (list Path)) :
  (forall ev, is_mutation ev = false -> p ev = false) ->
  scan_ok now scan r ->
  filter p (EvDiskUsage (root_for_usage a) (Ok u) :: scan ++ EvTime now :: levs
              ++ [EvDiskUsage (root_for_usage a) ru])
  = filter p levs.
Proof.
  intros Hp [Hread _].
  assert (Hscan : filter p scan = []).
  { induction Hread as [|ev l Hev _ IH]; [reflexivity|].
    cbn [filter]. rewrite (Hp _ Hev). exact IH. }
  cbn [filter]. rewrite (Hp (EvDiskUsage _ _) eq_refl).
  rewrite filter_app, Hscan. cbn [app filter]. rewrite (Hp (EvTime _) eq_refl).
  rewrite filter_app. cbn [filter]. rewrite (Hp (EvDiskUsage _ _) eq_refl).
  apply app_nil_r.
Qed.

Lemma unlink_failed_mutation (ev : Event) :
  is_mutation ev = false -> unlink_failed ev = false.
Proof. destruct ev; cbn; (discriminate || reflexivity). Qed.

Lemma unlink_returned_mutation (ev : Event) :
  is_mutation ev = false -> unlink_returned ev = false.
Proof. destruct ev; cbn; (discriminate || reflexivity). Qed.

Lemma eligible_stats_app (a : PurgeArgs) (now : Q) (l1 l2 : list Event) :
  eligible_stats a now (l1 ++ l2)
  = eligible_stats a now l1 ++ eligible_stats a now l2.
Proof.
  induction l1 as [|ev l1 IH]; [reflexivity|].
  destruct ev; cbn [app eligible_stats]; try exact IH.
  destruct r; [|exact IH]. destruct (too_fresh a now a0); [exact IH|].
  cbn [app]. rewrite IH. reflexivity.
Qed.

Lemma attempt_run_line (a : PurgeArgs) f size acc att acc' :
  attempt_run a f size acc att acc' ->
  exists l,
    lines acc' = lines acc ++ [l]
    /\ line_path l = Some f
    /\ eligible_stats a 0 att = []
    /\ (forall t, ~ In (EvTime t) att)
    /\ (forall f0 e, In (EvUnlink f0 (Raise e)) att ->
        e <> FileNotFoundError -> l = skip_line f0 e)
    /\ List.length (filter is_skip_line [l])
       = List.length (filter unlink_failed att)
    /\ (forall g, List.length (filter (skip_about g) [l])
                  = List.length (filter (unlink_failed_on g) att)).
Proof.
  intros Hatt.
  inversion Hatt; subst; eexists; (split; [reflexivity|]);
    (split; [reflexivity|]); (split; [reflexivity|]);
    (split; [intros t Hin; cbn in Hin; intuition discriminate|]);
    (split; [intros f0 e Hin Hne; cbn in Hin;
             first [ contradiction
                   | destruct Hin as [Hin|Hin]; [|contradiction];
                     first [ discriminate
                           | injection Hin as <- <-;
                             first [reflexivity | congruence] ] ]|]);
    (split; [reflexivity|]);
    intros g; unfold skip_about, line_about, unlink_failed_on; cbn;
    destruct (String.eqb f g); reflexivity.
Qed.

Lemma eligible_stats_attempt (a : PurgeArgs) (now : Q) f size acc att acc' l :
  attempt_run a f size acc att acc' ->
  eligible_stats a now (att ++ l) = eligible_stats a now l.
Proof.
  intros Hatt. inversion Hatt; subst; reflexivity.
Qed.

Lemma filter_iteration (p : Event -> bool) (st pr : Event) (att evs : list Event) :
  (forall ev, is_mutation ev = false -> p ev = false) ->
  is_mutation st = false -> is_mutation pr = false ->
  filter p (st :: att ++ pr :: evs) = filter p att ++ filter p evs.
Proof.
  intros Hp Hst Hpr. cbn [filter]. rewrite (Hp st Hst), filter_app.
  cbn [filter]. rewrite (Hp pr Hpr). reflexivity.
Qed.

Lemma unlink_failed_on_mutation (g : Path) (ev : Event) :
  is_mutation ev = false -> unlink_failed_on g ev = false.
Proof. destruct ev; cbn; (discriminate || reflexivity). Qed.

(** The lines the loop appends, occurrence by occurrence. *)
Lemma loop_run_lines (a : PurgeArgs) (now : Q) files acc evs r :
  loop_run a now files acc evs r ->
  (forall t, ~ In (EvTime t) evs)
  /\ forall acc', r = Ok acc' ->
     exists new,
       lines acc' = lines acc ++ new
       /\ (forall f e, In (EvUnlink f (Raise e)) evs ->
           e <> FileNotFoundError -> In (skip_line f e) new)
       /\ List.length (filter is_skip_line new)
          = List.length (filter unlink_failed evs)
       /\ (forall g, List.length (filter (skip_about g) new)
                     = List.length (filter (unlink_failed_on g) evs))
       /\ (forall g, List.length (filter (line_about g) new)
                     = List.length (entries_of g (eligible_stats a now evs))).
Proof.
  intros Hrun. loop_induction Hrun.
  - split; [intros t []|]. intros acc' [= <-]. exists []. rewrite app_nil_r.
    repeat split; try reflexivity. intros ? ? [].
  - split; [intros t []|]. intros acc' [= <-].
    exists [LStop (delete_count_limit a)].
    repeat split; try reflexivity. intros ? ? [].
  - destruct IH as [Hnt IH]. split.
    { intros t [Hin|Hin]; [discriminate | exact (Hnt t Hin)]. }
    intros acc' Hr. destruct (IH acc' Hr) as [new [Hl [Hs [Hc [Hg He]]]]].
    exists new. split; [exact Hl|]. split.
    { intros f0 e [Hin|Hin] Hne; [discriminate | exact (Hs f0 e Hin Hne)]. }
    repeat split; assumption.
  - split; [intros t [Hin|[]]; discriminate | intros acc' Hr; discriminate].
  - destruct IH as [Hnt IH]. split.
    { intros t [Hin|Hin]; [discriminate | exact (Hnt t Hin)]. }
    intros acc' Hr. destruct (IH acc' Hr) as [new [Hl [Hs [Hc [Hg He]]]]].
    exists new. split; [exact Hl|]. split.
    { intros f0 e [Hin|Hin] Hne; [discriminate | exact (Hs f0 e Hin Hne)]. }
    split; [exact Hc|]. split; [exact Hg|].
    intros g. cbn [eligible_stats]. rewrite Hfresh. exact (He g).
  - destruct (attempt_run_line _ _ _ _ _ _ Hatt) as [l [_ [_ [_ [Hnt _]]]]].
    split; [|intros acc' Hr; discriminate].
    intros t [Hin|Hin]; [discriminate|]. apply in_app_or in Hin.
    destruct Hin as [Hin|[Hin|[]]]; [exact (Hnt t Hin) | discriminate].
  - destruct (attempt_run_line _ _ _ _ _ _ Hatt)
      as [l [Hl [Hp [_ [Hnt [Hs [Hc Hg]]]]]]].
    split.
    { intros t [Hin|Hin]; [discriminate|]. apply in_app_or in Hin.
      destruct Hin as [Hin|[Hin|[]]]; [exact (Hnt t Hin) | discriminate]. }
    intros acc' [= <-].
    exists ([l] ++ [LReached (percent_of u) (target_percent a)]). split.
    { cbn [logged lines]. rewrite Hl, <- app_assoc. reflexivity. }
    split.
    { intros f0 e [Hin|Hin] Hne; [discriminate|]. apply in_app_or in Hin.
      destruct Hin as [Hin|[Hin|[]]]; [|discriminate].
      left. exact (Hs f0 e Hin Hne). }
    split.
    { rewrite (filter_iteration unlink_failed (EvStat f (Ok st))
                 (EvDiskUsage (root_for_usage a) (Ok u)) att []
                 unlink_failed_mutation eq_refl eq_refl).
      rewrite !filter_app, !length_app, Hc. reflexivity. }
    split.
    { intros g.
      rewrite (filter_iteration (unlink_failed_on g) (EvStat f (Ok st))
                 (EvDiskUsage (root_for_usage a) (Ok u)) att []
                 (unlink_failed_on_mutation g) eq_refl eq_refl).
      rewrite !filter_app, !length_app, (Hg g). reflexivity. }
    intros g. cbn [eligible_stats]. rewrite Hfresh.
    rewrite (eligible_stats_attempt _ _ _ _ _ _ _ _ Hatt). cbn [eligible_stats].
    unfold entries_of. cbn [filter fst app]. unfold line_about at 1. rewrite Hp.
    cbn. destruct (String.eqb f g); reflexivity.
  - destruct (attempt_run_line _ _ _ _ _ _ Hatt)
      as [l [Hl [Hp [_ [Hnt [Hs [Hc Hg]]]]]]].
    destruct IH as [Hnt' IH]. split.
    { intros t [Hin|Hin]; [discriminate|]. apply in_app_or in Hin.
      destruct Hin as [Hin|[Hin|Hin]];
        [exact (Hnt t Hin) | discriminate | exact (Hnt' t Hin)]. }
    intros acc' Hr. destruct (IH acc' Hr) as [new [Hl' [Hs' [Hc' [Hg' He']]]]].
    exists ([l] ++ new). split.
    { rewrite Hl', Hl, <- app_assoc. reflexivity. }
    split.
    { intros f0 e [Hin|Hin] Hne; [discriminate|]. apply in_app_or in Hin.
      destruct Hin as [Hin|[Hin|Hin]]; [|discriminate|].
      - left. exact (Hs f0 e Hin Hne).
      - right. exact (Hs' f0 e Hin Hne). }
    split.
    { rewrite (filter_iteration unlink_failed (EvStat f (Ok st))
                 (EvDiskUsage (root_for_usage a) (Ok u)) att evs
                 unlink_failed_mutation eq_refl eq_refl).
      rewrite !filter_app, !length_app, Hc, Hc'. reflexivity. }
    split.
    { intros g.
      rewrite (filter_iteration (unlink_failed_on g) (EvStat f (Ok st))
                 (EvDiskUsage (root_for_usage a) (Ok u)) att evs
                 (unlink_failed_on_mutation g) eq_refl eq_refl).
      rewrite !filter_app, !length_app, (Hg g), (Hg' g). reflexivity. }
    intros g. cbn [eligible_stats]. rewrite Hfresh.
    rewrite (eligible_stats_attempt _ _ _ _ _ _ _ _ Hatt). cbn [eligible_stats].
    unfold entries_of. cbn [filter fst]. rewrite filter_app, length_app.
    fold (entries_of g (eligible_stats a now evs)). rewrite (He' g).
    unfold line_about at 1. cbn [filter]. rewrite Hp.
    destruct (String.eqb f g); reflexivity.
Qed.

Lemma last_time_unique (p1 p2 q1 q2 : list Event) (t1 t2 : Q) :
  p1 ++ EvTime t1 :: q1 = p2 ++ EvTime t2 :: q2 ->
  (forall t, ~ In (EvTime t) q1) ->
  (forall t, ~ In (EvTime t) q2) ->
  q1 = q2.
Proof.
  revert p2. induction p1 as [|x p1 IH]; intros [|y p2] Heq H1 H2; cbn in Heq.
  - injection Heq as _ ->. reflexivity.
  - injection Heq as _ ->. exfalso. apply (H1 t2).
    apply in_or_app. right. left. reflexivity.
  - injection Heq as _ <-. exfalso. apply (H2 t1).
    apply in_or_app. right. left. reflexivity.
  - injection Heq as _ Heq. exact (IH _ Heq H1 H2).
Qed.

Lemma entries_of_no_stat (a : PurgeArgs) (now : Q) (f : Path) (evs : list Event) :
  (forall rs, In (EvStat f rs) evs -> rs = Raise FileNotFoundError) ->
  entries_of f (eligible_stats a now evs) = [].
Proof.
  induction evs as [|ev evs IH]; intros Hall; [reflexivity|].
  assert (IH' : entries_of f (eligible_stats a now evs) = []).
  { apply IH. intros rs Hin. apply Hall. right. exact Hin. }
  destruct ev; cbn [eligible_stats]; try exact IH'.
  destruct r as [st|e]; [|exact IH'].
  destruct (too_fresh a now st); [exact IH'|].
  unfold entries_of. cbn [filter fst].
  destruct (String.eqb p f) eqn:Ep; [|exact IH'].
  apply String.eqb_eq in Ep. subst p.
  specialize (Hall (Ok st) (or_introl eq_refl)). discriminate.
Qed.

Lemma filter_none {A : Type} (p : A -> bool) (l : list A) :
  List.length (filter p l) = O -> forall x, In x l -> p x = false.
Proof.
  induction l as [|y l IH]; intros Hlen x Hin; [destruct Hin|].
  cbn [filter] in Hlen. destruct (p y) eqn:Ey; [discriminate|].
  destruct Hin as [<-|Hin]; [exact Ey | exact (IH Hlen x Hin)].
Qed.

Lemma line_about_header (a : PurgeArgs) (before : Q) (f : Path) :
  filter (line_about f) (header_lines a before) = [].
Proof. reflexivity. Qed.

Lemma skip_about_header (a : PurgeArgs) (before : Q) (f : Path) :
  filter (skip_about f) (header_lines a before) = [].
Proof. reflexivity. Qed.

(** C2, as the code has it, in either mode: every [unlink] that fails with
    permission denied, is-a-directory or any other error except
    file-not-found gets its own skip line (as many skip lines about a file
    as failed [unlink]s of it) and is not counted; the calls after the last
    reading of the clock are those of the loop, and the log has exactly one
    line about a file for each [stat] of it there that succeeded and passed
    the age test, so a candidate that the loop's [stat] finds gone gets no
    line for that occurrence and is not counted, whatever the sort saw of
    it before; and when the engine raises, what it raises comes from a
    probe, an enumeration call or a [stat] that failed otherwise than with
    file-not-found, never from a deletion or a vanished file. *)
Theorem C2_per_file_failures_are_skipped :
  forall (a : PurgeArgs) (s s' : St W) (r : res PurgeResult) (evs : list Event),
    _purge_oldest_until_below a s = (r, s') ->
    trace s' = trace s ++ evs ->
    (forall res, r = Ok res ->
       (forall f e, In (EvUnlink f (Raise e)) evs -> e <> FileNotFoundError ->
          In (skip_line f e) (log res))
       /\ List.length (filter is_skip_line (log res))
          = List.length (filter unlink_failed evs)
       /\ (forall f,
            List.length (filter (skip_about f) (log res))
            = List.length (filter (unlink_failed_on f) evs))
       /\ files_deleted res = Z.of_nat (List.length (deletions (log res)))
       /\ bytes_freed res = total_size (deletions (log res))
       /\ (dry_run a = false ->
           files_deleted res
           = Z.of_nat (List.length (filter unlink_returned evs)))
       /\ (triggered res = true ->
           exists pre post,
             evs = pre ++ EvTime (clock s) :: post
             /\ forall t, ~ In (EvTime t) post)
       /\ (triggered res = false ->
           forall l, In l (log res) -> line_path l = None)
       /\ (forall pre t post,
            evs = pre ++ EvTime t :: post ->
            (forall t', ~ In (EvTime t') post) ->
            forall f,
              List.length (filter (line_about f) (log res))
              = List.length (entries_of f (eligible_stats a (clock s) post))
              /\ ((forall rs, In (EvStat f rs) post ->
                     rs = Raise FileNotFoundError) ->
                  forall l, In l (log res) -> line_path l <> Some f)))
    /\ (forall e, r = Raise e ->
        exists pre ev, evs = pre ++ [ev] /\ abort_cause ev e).
Proof.
  intros a s s' r evs Hrun Htr.
  destruct (engine_sound _ _ _ _ Hrun) as [_ [evs0 [Htr0 Her]]].
  rewrite Htr0 in Htr. apply app_inv_head in Htr. subst evs0.
  split; [|intros e ->; exact (engine_run_abort _ _ _ _ Her)].
  intros res ->.
  destruct (engine_run_accounting _ _ _ _ Her) as [Hfiles Hbytes].
  inversion Her as
      [ | u Hthr | | | | u scan files levs acc u' Hthr Hscan Hloop ]; subst.
  - split; [intros f e [Heq | []]; discriminate|].
    split; [reflexivity|]. split; [reflexivity|].
    split; [exact Hfiles|]. split; [exact Hbytes|].
    split; [reflexivity|]. split; [discriminate|].
    split; [intros _ l [<- | []]; reflexivity|].
    intros pre t post Heq. exfalso.
    destruct pre as [|x [|y pre]]; discriminate.
  - destruct (loop_run_lines _ _ _ _ _ _ Hloop) as [Hnt Hlines].
    destruct (Hlines acc eq_refl) as [new [Hnew [Hskip [Hlen [Hper Hel]]]]].
    cbn [acc0 lines] in Hnew.
    assert (Hpost : forall t, ~ In (EvTime t)
                      (levs ++ [EvDiskUsage (root_for_usage a) (Ok u')])).
    { intros t Hin. apply in_app_or in Hin.
      destruct Hin as [Hin|[Hin|[]]]; [exact (Hnt t Hin) | discriminate]. }
    cbn [log files_deleted bytes_freed triggered app] in *. rewrite Hnew.
    split.
    { intros f e Hin Hne. right. right. right.
      apply in_or_app. right. apply (Hskip f e); [|exact Hne].
      destruct Hin as [Heq | Hin]; [discriminate|].
      apply in_app_or in Hin. destruct Hin as [Hin | [Heq | Hin]];
        [exfalso; exact (scan_no_unlink _ _ _ _ _ Hscan Hin) | discriminate |].
      apply in_app_or in Hin. destruct Hin as [Hin | [Heq | []]];
        [exact Hin | discriminate]. }
    split.
    { rewrite (filter_unlink_engine _ _ _ _ _ _ _ _ unlink_failed_mutation Hscan).
      cbn [filter is_skip_line]. rewrite filter_app, filter_skip_header.
      exact Hlen. }
    split.
    { intros f.
      rewrite (filter_unlink_engine _ _ _ _ _ _ _ _
                 (unlink_failed_on_mutation f) Hscan).
      cbn [filter skip_about is_skip_line andb].
      rewrite filter_app, skip_about_header. exact (Hper f). }
    split; [rewrite <- Hnew; exact Hfiles|].
    split; [rewrite <- Hnew; exact Hbytes|].
    split.
    { intros Hlive.
      destruct (loop_run_live _ _ _ _ _ _ Hlive Hloop _ eq_refl)
        as [new' [_ [_ [_ Hcnt]]]].
      rewrite (filter_unlink_engine _ _ _ _ _ _ _ _ unlink_returned_mutation Hscan).
      cbn [acc0 n_deleted] in Hcnt. lia. }
    split.
    { intros _. exists (EvDiskUsage (root_for_usage a) (Ok u) :: scan),
        (levs ++ [EvDiskUsage (root_for_usage a) (Ok u')]).
      split; [reflexivity | exact Hpost]. }
    split; [discriminate|].
    intros pre t post Heq Hnone f.
    assert (post = levs ++ [EvDiskUsage (root_for_usage a) (Ok u')]) as ->.
    { symmetry.
      apply (last_time_unique (EvDiskUsage (root_for_usage a) (Ok u) :: scan)
               pre _ _ (clock s) t); [|exact Hpost | exact Hnone].
      rewrite <- Heq. reflexivity. }
    assert (Hcount :
              List.length
                (filter (line_about f)
                   (LFreedTotal (n_bytes acc) (n_deleted acc)
                    :: LUsageBeforeAfter (percent_of u) (percent_of u')
                    :: LBlank :: header_lines a (percent_of u) ++ new))
              = List.length
                  (entries_of f
                     (eligible_stats a (clock s)
                        (levs ++ [EvDiskUsage (root_for_usage a) (Ok u')])))).
    { cbn [filter line_about line_path].
      rewrite filter_app, line_about_header.
      rewrite eligible_stats_app. cbn [eligible_stats]. rewrite app_nil_r.
      exact (Hel f). }
    split; [exact Hcount|].
    intros Hall l Hin Hl.
    rewrite (entries_of_no_stat _ _ _ _ Hall) in Hcount.
    pose proof (filter_none _ _ Hcount l Hin) as Hfalse.
    unfold line_about in Hfalse. rewrite Hl, String.eqb_refl in Hfalse.
    discriminate.
Qed.

(** ** The reclaim sweep and [run] *)

Lemma reads_only_folder_size_loop :
  forall listing total, reads_only (folder_size_loop listing total).
Proof.
  induction listing as [|f rest IH]; intros total; cbn [folder_size_loop].
  - apply reads_only_ret.
  - apply reads_only_bind; [apply reads_only_is_file|].
    intros isf. destruct isf; [|apply IH].
    intros s r s' Hrun. apply bind_inv in Hrun.
    destruct Hrun as [[rs [s1 [Htry Hk]]] | [e [Htry _]]];
      apply try_inv in Htry; destruct Htry as [r0 [Hst Hr0]];
      [injection Hr0 as -> | discriminate].
    unfold_sys Hst. apply syscall_trace in Hst. destruct Hst as [Htr Hck].
    assert (Hgo : forall total',
               folder_size_loop rest total' s1 = (r, s') ->
               clock s' = clock s
               /\ exists evs,
                   trace s' = trace s ++ evs
                   /\ Forall (fun ev => is_mutation ev = false) evs
                   /\ (forall e, r = Raise e ->
                       exists pre ev, evs = pre ++ [ev] /\ abort_cause ev e)).
    { intros total' Hloop.
      destruct (IH _ _ _ _ Hloop) as [Hck' [evs [Htr' [Hread Hab]]]].
      split; [congruence|]. exists (EvStat f r0 :: evs). split.
      { rewrite Htr', Htr, <- app_assoc. reflexivity. }
      split; [constructor; [reflexivity | exact Hread]|].
      intros e He. destruct (Hab e He) as [pre [ev [-> Hev]]].
      exists (EvStat f r0 :: pre), ev. split; [reflexivity | exact Hev]. }
    destruct r0 as [st | []]; try (exact (Hgo _ Hk));
      injection Hk as <- <-; (split; [exact Hck|]);
      eexists; (split; [exact Htr|]); (split; [repeat constructor|]);
      intros e He; injection He as <-; eexists [], _;
      (split; [reflexivity|]); split; (reflexivity || discriminate).
Qed.

Lemma reads_only_folder_size (p : Path) : reads_only (_folder_size p).
Proof.
  unfold _folder_size. apply reads_only_bind; [apply reads_only_exists|].
  intros ex. destruct (negb ex); [apply reads_only_ret|].
  apply reads_only_bind; [apply reads_only_rglob|].
  intros listing. apply reads_only_folder_size_loop.
Qed.

(** What a sweep that returns has done: it asked for the home directory,
    then either found no trash folder, or measured the folder with calls
    that only read and ended with the [rmtree] of it. *)
Lemma clear_user_trash_inv s r s' :
  _clear_user_trash s = (r, s') ->
  clock s' = clock s
  /\ exists rh rest,
      trace s' = trace s ++ EvHome rh :: rest
      /\ forall tl, r = Ok tl ->
         exists h,
           rh = Ok h
           /\ ((tl = LTrashNotFound (path_join h ".local/share/Trash/files")
                /\ rest = [EvExists (path_join h ".local/share/Trash/files")
                             (Ok false)])
               \/ (exists pre ro size,
                   rest = EvExists (path_join h ".local/share/Trash/files")
                            (Ok true)
                          :: pre
                          ++ [EvRmtree (path_join h ".local/share/Trash/files") ro]
                   /\ Forall (fun ev => is_mutation ev = false) pre
                   /\ tl = match ro with
                           | Ok _ =>
                               LTrashCleared
                                 (path_join h ".local/share/Trash/files") size
                           | Raise e =>
                               LTrashFailed
                                 (path_join h ".local/share/Trash/files") e
                           end)).
Proof.
  unfold _clear_user_trash. intros Hrun. apply bind_inv in Hrun.
  destruct Hrun as [[h [s1 [Hhome Hk]]] | [e [Hhome ->]]];
    unfold_sys Hhome; apply syscall_trace in Hhome; destruct Hhome as [Htr1 Hck1].
  2:{ split; [exact Hck1|]. exists (Raise e), []. split; [exact Htr1|].
      intros tl Htl. discriminate. }
  set (tp := path_join h ".local/share/Trash/files") in *.
  apply bind_inv in Hk.
  destruct Hk as [[ex [s2 [Hex Hk]]] | [e [Hex ->]]];
    unfold_sys Hex; apply syscall_trace in Hex; destruct Hex as [Htr2 Hck2].
  2:{ split; [congruence|]. exists (Ok h), [EvExists tp (Raise e)]. split.
      { rewrite Htr2, Htr1, <- app_assoc. reflexivity. }
      intros tl Htl. discriminate. }
  destruct ex; cbn [negb] in Hk.
  2:{ injection Hk as <- <-. split; [congruence|].
      exists (Ok h), [EvExists tp (Ok false)]. split.
      { rewrite Htr2, Htr1, <- app_assoc. reflexivity. }
      intros tl Htl. injection Htl as <-. exists h. split; [reflexivity|].
      left. split; reflexivity. }
  apply bind_inv in Hk.
  destruct Hk as [[before [s3 [Hsize Hk]]] | [e [Hsize ->]]];
    destruct (reads_only_folder_size _ _ _ _ Hsize) as [Hck3 [pre [Htr3 [Hread _]]]].
  2:{ split; [congruence|]. exists (Ok h), (EvExists tp (Ok true) :: pre). split.
      { rewrite Htr3, Htr2, Htr1, <- !app_assoc. reflexivity. }
      intros tl Htl. discriminate. }
  apply bind_inv in Hk.
  destruct Hk as [[ro [s4 [Htry Hk]]] | [e [Htry _]]];
    apply try_inv in Htry; destruct Htry as [r0 [Hrm Hr0]];
    [injection Hr0 as -> | discriminate].
  unfold_sys Hrm. apply syscall_trace in Hrm. destruct Hrm as [Htr4 Hck4].
  split; [destruct r0; injection Hk as <- <-; congruence|].
  exists (Ok h), (EvExists tp (Ok true) :: pre ++ [EvRmtree tp r0]). split.
  { destruct r0; injection Hk as _ <-;
      rewrite Htr4, Htr3, Htr2, Htr1, <- !app_assoc; reflexivity. }
  intros tl Htl. exists h. split; [reflexivity|]. right.
  exists pre, r0, before. split; [reflexivity|]. split; [exact Hread|].
  destruct r0; injection Hk as <- _; injection Htl as <-; reflexivity.
Qed.

(** C1, as the code has it: whenever the LoRA directory exists and the
    engine returns, triggered or not, [run] goes on with the reclaim sweep
    from the state the engine left: the sweep's calls come after all the
    engine's calls, its line closes the log, and when the trash folder is
    found the sweep ends with the [rmtree] of it. *)
Theorem C1_sweep_follows_engine :
  forall (r : RunArgs) (s s1 s2 s3 : St W) (dir : Path) (res : PurgeResult),
    sys_resolve (loras_path r) s = (Ok dir, s1) ->
    sys_exists dir s1 = (Ok true, s2) ->
    _purge_oldest_until_below (engine_args r dir) s2 = (Ok res, s3) ->
    exists rs s4 rh rest,
      _clear_user_trash s3 = (rs, s4)
      /\ trace s4 = trace s3 ++ EvHome rh :: rest
      /\ run r s
         = (match rs with
            | Ok tl =>
                Ok (mkOut (log res ++ [LBlank; tl]) (before_used_pct res)
                      (after_used_pct res) (files_deleted res)
                      (bytes_freed res))
            | Raise e => Raise e
            end, s4)
      /\ forall tl, rs = Ok tl ->
         exists h,
           rh = Ok h
           /\ ((tl = LTrashNotFound (path_join h ".local/share/Trash/files")
                /\ rest = [EvExists (path_join h ".local/share/Trash/files")
                             (Ok false)])
               \/ (exists pre ro size,
                   rest = EvExists (path_join h ".local/share/Trash/files")
                            (Ok true)
                          :: pre
                          ++ [EvRmtree (path_join h ".local/share/Trash/files") ro]
                   /\ Forall (fun ev => is_mutation ev = false) pre
                   /\ tl = match ro with
                           | Ok _ =>
                               LTrashCleared
                                 (path_join h ".local/share/Trash/files") size
                           | Raise e =>
                               LTrashFailed
                                 (path_join h ".local/share/Trash/files") e
                           end)).
Proof.
  intros r s s1 s2 s3 dir res Hres Hex Heng.
  destruct (_clear_user_trash s3) as [rs s4] eqn:Hsweep.
  destruct (clear_user_trash_inv _ _ _ Hsweep) as [_ [rh [rest [Htr Hshape]]]].
  exists rs, s4, rh, rest. split; [reflexivity|]. split; [exact Htr|].
  split; [|exact Hshape].
  unfold run, bind. rewrite Hres, Hex. cbn [negb]. rewrite Heng, Hsweep.
  destruct rs; reflexivity.
Qed.

(** ** Dry runs in a quiet world *)

Lemma returns_ret {A : Type} (w : W) (t : Q) (x : A) :
  returns w t (ret x) (Ok x).
Proof.
  intros s Hw Ht. exists []. rewrite app_nil_r. unfold ret.
  destruct s as [w0 t0 tr]. cbn in *. subst. reflexivity.
Qed.

Lemma returns_raise {A : Type} (w : W) (t : Q) (e : exn) :
  returns w t (@raise W A e) (Raise e).
Proof.
  intros s Hw Ht. exists []. rewrite app_nil_r. unfold raise.
  destruct s as [w0 t0 tr]. cbn in *. subst. reflexivity.
Qed.

Lemma returns_bind {A B : Type} (w : W) (t : Q) (m : M W A) (k : A -> M W B)
  (v : res A) (kv : A -> res B) :
  returns w t m v ->
  (forall x, v = Ok x -> returns w t (k x) (kv x)) ->
  returns w t (bind m k) (rbind v kv).
Proof.
  intros Hm Hk s Hw Ht. destruct (Hm s Hw Ht) as [evs1 Hm1].
  unfold bind. rewrite Hm1. destruct v as [x|e]; cbn [rbind].
  - destruct (Hk x eq_refl (mkSt w t (trace s ++ evs1)) eq_refl eq_refl)
      as [evs2 Hk2].
    exists (evs1 ++ evs2). rewrite Hk2. cbn [trace]. rewrite app_assoc.
    reflexivity.
  - exists evs1. reflexivity.
Qed.

Lemma returns_syscall {A : Type} (w : W) (t : Q) (op : W -> res A * W)
  (ev : res A -> Event) :
  snd (op w) = w -> returns w t (syscall op ev) (fst (op w)).
Proof.
  intros Hq s Hw Ht. unfold syscall. rewrite Hw.
  destruct (op w) as [r w'] eqn:E. cbn in Hq |- *. subst w'.
  exists [ev r]. rewrite Ht. reflexivity.
Qed.

Lemma returns_try {A : Type} (w : W) (t : Q) (m : M W A) (v : res A) :
  returns w t m v -> returns w t (try m) (Ok v).
Proof.
  intros Hm s Hw Ht. destruct (Hm s Hw Ht) as [evs Hm1].
  exists evs. unfold try. rewrite Hm1. reflexivity.
Qed.

Lemma returns_time (w : W) (t : Q) : returns w t sys_time (Ok t).
Proof.
  intros s Hw Ht. exists [EvTime t]. unfold sys_time. rewrite Hw, Ht.
  reflexivity.
Qed.

Lemma returns_percent (w : W) (t : Q) (p : Path) :
  quiet w -> returns w t (_disk_usage_percent p) (percent_at w p).
Proof.
  intros Hq. unfold _disk_usage_percent, percent_at.
  apply returns_bind.
  - unfold sys_disk_usage.
    apply (returns_syscall w t (fun w0 => os_disk_usage w0 p)). apply Hq.
  - intros u _. apply returns_ret.
Qed.

Lemma returns_collect_loop (w : W) (t : Q) (allowed exclude : list string) :
  quiet w ->
  forall listing files,
    returns w t (collect_loop allowed exclude listing files)
      (collect_loop_at w allowed exclude listing files).
Proof.
  intros Hq. induction listing as [|f rest IH]; intros files;
    cbn [collect_loop collect_loop_at].
  - apply returns_ret.
  - apply returns_bind.
    + unfold sys_is_file.
      apply (returns_syscall w t (fun w0 => os_is_file w0 f)). apply Hq.
    + intros isf _. destruct (negb isf); [apply IH|].
      destruct (suffix_rejected allowed f); [apply IH|].
      destruct (name_excluded exclude f); apply IH.
Qed.

Lemma returns_collect (w : W) (t : Q) (dir : Path) (allowed exclude : list string) :
  quiet w ->
  returns w t (_collect_lora_files dir allowed exclude)
    (collect_at w dir allowed exclude).
Proof.
  intros Hq. unfold _collect_lora_files, collect_at.
  apply returns_bind.
  { unfold sys_exists.
    apply (returns_syscall w t (fun w0 => os_exists w0 dir)). apply Hq. }
  intros ex _. destruct (negb ex); [apply returns_ret|].
  apply returns_bind.
  { unfold sys_is_dir.
    apply (returns_syscall w t (fun w0 => os_is_dir w0 dir)). apply Hq. }
  intros isd _. destruct (negb isd); [apply returns_ret|].
  apply returns_bind.
  { unfold sys_rglob.
    apply (returns_syscall w t (fun w0 => os_rglob w0 dir)). apply Hq. }
  intros listing _. apply returns_collect_loop. exact Hq.
Qed.

Lemma returns_stat (w : W) (t : Q) (p : Path) :
  quiet w -> returns w t (try (sys_stat p)) (Ok (fst (os_stat w p))).
Proof.
  intros Hq. apply returns_try. unfold sys_stat.
  apply (returns_syscall w t (fun w0 => os_stat w0 p)). apply Hq.
Qed.

Lemma returns_mtime_safe (w : W) (t : Q) (p : Path) :
  quiet w -> returns w t (_mtime_safe p) (key_at w t p).
Proof.
  intros Hq. unfold _mtime_safe.
  change (key_at w t p)
    with (rbind (Ok (fst (os_stat w p)))
            (fun r => match r with
                      | Ok st => Ok (st_mtime st)
                      | Raise FileNotFoundError => Ok t
                      | Raise e => Raise e
                      end)).
  apply returns_bind; [apply returns_stat; exact Hq|].
  intros r _. destruct r as [st | []].
  - apply returns_ret.
  - apply returns_time.
  - apply returns_raise.
  - apply returns_raise.
  - apply returns_raise.
Qed.

Lemma returns_decorate (w : W) (t : Q) :
  quiet w ->
  forall l, returns w t (decorate _mtime_safe l) (keys_at w t l).
Proof.
  intros Hq. induction l as [|p rest IH]; cbn [decorate keys_at].
  - apply returns_ret.
  - apply returns_bind; [apply returns_mtime_safe; exact Hq|].
    intros k _. apply returns_bind; [exact IH|].
    intros ks _. apply returns_ret.
Qed.

Lemma returns_list_sort (w : W) (t : Q) (l : list Path) :
  quiet w -> returns w t (list_sort _mtime_safe l) (sorted_at w t l).
Proof.
  intros Hq. unfold list_sort, sorted_at.
  apply returns_bind; [apply returns_decorate; exact Hq|].
  intros keyed _. apply returns_ret.
Qed.

Lemma returns_bind_ok {A B : Type} (w : W) (t : Q) (m : M W A)
  (k : A -> M W B) (x : A) (v : res B) :
  returns w t m (Ok x) -> returns w t (k x) v -> returns w t (bind m k) v.
Proof.
  intros Hm Hk. exact (returns_bind w t m k (Ok x) (fun _ => v) Hm (fun y Hy =>
    match Hy in (_ = r) return
          match r with Ok z => returns w t (k z) v | Raise _ => True end
    with eq_refl => Hk end)).
Qed.

Lemma returns_bind_raise {A B : Type} (w : W) (t : Q) (m : M W A)
  (k : A -> M W B) (e : exn) :
  returns w t m (Raise e) -> returns w t (bind m k) (Raise e).
Proof.
  intros Hm.
  apply (returns_bind w t m k (Raise e) (fun _ => Raise e) Hm).
  intros x Hx. discriminate.
Qed.

Lemma returns_purge_loop (w : W) (t : Q) (a : PurgeArgs) (now : Q) :
  quiet w ->
  dry_run a = true ->
  forall files acc,
    returns w t (purge_loop a now files acc) (dry_loop_at w a now files acc).
Proof.
  intros Hq Hdry. induction files as [|f rest IH]; intros acc;
    cbn [purge_loop dry_loop_at].
  - apply returns_ret.
  - destruct (limit_reached a acc); [apply returns_ret|].
    pose proof (returns_stat w t f Hq) as Hstat.
    destruct (fst (os_stat w f)) as [st | e].
    + eapply returns_bind_ok; [exact Hstat|]. cbv beta iota.
      destruct (too_fresh a now st); [apply IH|]. cbv zeta.
      eapply returns_bind_ok.
      { unfold attempt_delete. rewrite Hdry. apply returns_ret. }
      pose proof (returns_percent w t (root_for_usage a) Hq) as Hpct.
      destruct (percent_at w (root_for_usage a)) as [pct | e]; cbn [rbind].
      * eapply returns_bind_ok; [exact Hpct|]. cbv beta.
        destruct (Qltb pct (target_percent a)); [apply returns_ret | apply IH].
      * apply returns_bind_raise. exact Hpct.
    + eapply returns_bind_ok; [exact Hstat|]. cbv beta iota.
      destruct e; [apply IH | apply returns_raise ..].
Qed.

(** In a quiet world a dry run of the engine returns [dry_purge_at] and
    leaves the world as it found it. *)
Lemma returns_dry_purge (w : W) (t : Q) (a : PurgeArgs) :
  quiet w ->
  dry_run a = true ->
  returns w t (_purge_oldest_until_below a) (dry_purge_at w t a).
Proof.
  intros Hq Hdry. unfold _purge_oldest_until_below, dry_purge_at.
  apply returns_bind; [apply returns_percent; exact Hq|].
  intros before _. destruct (Qltb before (threshold_percent a));
    [apply returns_ret|].
  apply returns_bind; [apply returns_collect; exact Hq|].
  intros files _. apply returns_bind; [apply returns_list_sort; exact Hq|].
  intros sorted _.
  change (rbind (dry_loop_at w a t sorted (acc0 a before))
            (fun acc =>
               rbind (percent_at w (root_for_usage a))
                 (fun after =>
                    Ok (mkResult true before after (n_deleted acc) (n_bytes acc)
                          ([LFreedTotal (n_bytes acc) (n_deleted acc);
                            LUsageBeforeAfter before after; LBlank] ++ lines acc)))))
    with (rbind (Ok t)
            (fun now =>
               rbind (dry_loop_at w a now sorted (acc0 a before))
                 (fun acc =>
                    rbind (percent_at w (root_for_usage a))
                      (fun after =>
                         Ok (mkResult true before after (n_deleted acc)
                               (n_bytes acc)
                               ([LFreedTotal (n_bytes acc) (n_deleted acc);
                                 LUsageBeforeAfter before after; LBlank]
                                  ++ lines acc)))))).
  apply returns_bind; [apply returns_time|].
  intros now _. apply returns_bind.
  { apply returns_purge_loop; assumption. }
  intros acc _. apply returns_bind; [apply returns_percent; exact Hq|].
  intros after _. apply returns_ret.
Qed.

Lemma dry_purge_at_before_after (w : W) (t : Q) (a : PurgeArgs) (res : PurgeResult) :
  dry_purge_at w t a = Ok res -> after_used_pct res = before_used_pct res.
Proof.
  unfold dry_purge_at.
  destruct (percent_at w (root_for_usage a)) as [before|e]; cbn [rbind];
    [|discriminate].
  destruct (Qltb before (threshold_percent a)).
  { intros Hr. injection Hr as <-. reflexivity. }
  destruct (collect_at w (loras_dir a) (allowed_suffixes a) (exclude_names a))
    as [files|e]; cbn [rbind]; [|discriminate].
  destruct (sorted_at w t files) as [sorted|e]; cbn [rbind]; [|discriminate].
  destruct (dry_loop_at w a t sorted (acc0 a before)) as [acc|e]; cbn [rbind];
    [|discriminate].
  intros Hr. injection Hr as <-. reflexivity.
Qed.

Lemma attempt_run_dry (a : PurgeArgs) f size acc att acc' :
  dry_run a = true ->
  attempt_run a f size acc att acc' ->
  att = [] /\ acc' = counted acc size (LDryRun f size).
Proof.
  intros Hdry Hatt. inversion Hatt; subst; try congruence. split; reflexivity.
Qed.

Lemma loop_run_dry (a : PurgeArgs) (now : Q) files acc evs r :
  dry_run a = true ->
  loop_run a now files acc evs r ->
  Forall (fun ev => is_mutation ev = false) evs
  /\ (forall acc', r = Ok acc' ->
      exists new,
        lines acc' = lines acc ++ new
        /\ deletions new = eligible_stats a now evs
        /\ forall l f size, In l new -> l <> LDeleted f size).
Proof.
  intros Hdry Hrun. loop_induction Hrun.
  - split; [constructor|]. intros acc' Hr. injection Hr as <-.
    exists []. rewrite app_nil_r. repeat split. intros l f size [].
  - split; [constructor|]. intros acc' Hr. injection Hr as <-.
    eexists. split; [reflexivity|]. split; [reflexivity|].
    intros l f0 size [<- | []]. discriminate.
  - destruct IH as [Hread Hok]. split; [constructor; [reflexivity|exact Hread]|].
    exact Hok.
  - split; [repeat constructor|]. intros acc' Hr. discriminate.
  - destruct IH as [Hread Hok]. split; [constructor; [reflexivity|exact Hread]|].
    intros acc' Hr. destruct (Hok _ Hr) as [new [Hnew [Hdel Hnd]]].
    exists new. split; [exact Hnew|]. split; [|exact Hnd].
    cbn [eligible_stats]. rewrite Hfresh. exact Hdel.
  - destruct (attempt_run_dry _ _ _ _ _ _ Hdry Hatt) as [-> _].
    split; [repeat constructor|]. intros acc' Hr. discriminate.
  - destruct (attempt_run_dry _ _ _ _ _ _ Hdry Hatt) as [-> ->].
    split; [repeat constructor|]. intros acc' Hr. injection Hr as <-.
    eexists [_; _]. cbn [logged counted lines]. rewrite <- app_assoc.
    split; [reflexivity|]. cbn [app eligible_stats deletions deletion_of].
    rewrite Hfresh. split; [reflexivity|].
    intros l f0 size [<- | [<- | []]]; discriminate.
  - destruct (attempt_run_dry _ _ _ _ _ _ Hdry Hatt) as [-> ->].
    destruct IH as [Hread Hok].
    split; [cbn [app]; repeat constructor; exact Hread|].
    intros acc' Hr. destruct (Hok _ Hr) as [new [Hnew [Hdel Hnd]]].
    exists (LDryRun f (st_size st) :: new). split.
    { rewrite Hnew. cbn [counted lines]. rewrite <- app_assoc. reflexivity. }
    cbn [app eligible_stats deletions deletion_of]. rewrite Hfresh, Hdel.
    split; [reflexivity|].
    intros l f0 size [<- | Hin]; [discriminate | exact (Hnd _ _ _ Hin)].
Qed.

Lemma engine_run_dry (a : PurgeArgs) (now : Q) evs r :
  dry_run a = true ->
  engine_run a now evs r ->
  Forall (fun ev => is_mutation ev = false) evs
  /\ (forall res l f size, r = Ok res -> In l (log res) -> l <> LDeleted f size).
Proof.
  intros Hdry Hrun.
  assert (Hall : forall u scan files levs racc post,
             scan_ok now scan (Ok files) ->
             loop_run a now files (acc0 a (percent_of u)) levs racc ->
             Forall (fun ev => is_mutation ev = false) post ->
             Forall (fun ev => is_mutation ev = false)
               (EvDiskUsage (root_for_usage a) (Ok u) :: scan
                  ++ EvTime now :: levs ++ post)).
  { intros u scan files levs racc post [Hscan _] Hl Hpost.
    constructor; [reflexivity|]. apply Forall_app. split; [exact Hscan|].
    constructor; [reflexivity|]. apply Forall_app. split; [|exact Hpost].
    exact (proj1 (loop_run_dry _ _ _ _ _ _ Hdry Hl)). }
  inversion Hrun; subst.
  - split; [repeat constructor|]. intros res l f size Hr. discriminate.
  - split; [repeat constructor|]. intros res l f size Hr. injection Hr as <-.
    intros [<- | []]. discriminate.
  - match goal with Hs : scan_ok _ _ _ |- _ => destruct Hs as [Hscan _] end.
    split; [constructor; [reflexivity | exact Hscan]|].
    intros res l f size Hr. discriminate.
  - split; [|intros res l f size Hr; discriminate].
    match goal with Hs : scan_ok _ _ _, Hl : loop_run _ _ _ _ _ _ |- _ =>
      pose proof (Hall u scan files evs0 _ [] Hs Hl (Forall_nil _)) as Hx end.
    rewrite app_nil_r in Hx. exact Hx.
  - split; [|intros res l f size Hr; discriminate].
    match goal with Hs : scan_ok _ _ _, Hl : loop_run _ _ _ _ _ _ |- _ =>
      apply (Hall u scan files evs0 _ _ Hs Hl) end.
    repeat constructor.
  - split.
    + match goal with Hs : scan_ok _ _ _, Hl : loop_run _ _ _ _ _ _ |- _ =>
        apply (Hall u scan files evs0 _ _ Hs Hl) end.
      repeat constructor.
    + intros res l f size Hr. injection Hr as <-. cbn [log].
      match goal with Hl : loop_run _ _ _ _ _ (Ok _) |- _ =>
        destruct (proj2 (loop_run_dry _ _ _ _ _ _ Hdry Hl) _ eq_refl)
          as [new [Hnew [_ Hnd]]] end.
      cbn [acc0 lines] in Hnew. rewrite Hnew.
      intros [<- | [<- | [<- | Hin]]]; try discriminate.
      apply in_app_or in Hin. destruct Hin as [Hin | Hin].
      * intros ->. pose proof (proj1 (header_line_path _ _ _ Hin)). discriminate.
      * exact (Hnd _ _ _ Hin).
Qed.

(** The only mutating call of the sweep is the [rmtree] of the trash folder
    under the home directory it was given. *)
Lemma clear_user_trash_mutations s r s' :
  _clear_user_trash s = (r, s') ->
  exists evs,
    trace s' = trace s ++ evs
    /\ forall ev, In ev evs -> is_mutation ev = true ->
       exists h ro,
         In (EvHome (Ok h)) evs
         /\ ev = EvRmtree (path_join h ".local/share/Trash/files") ro.
Proof.
  unfold _clear_user_trash. intros Hrun. apply bind_inv in Hrun.
  destruct Hrun as [[h [s1 [Hhome Hk]]] | [e [Hhome ->]]];
    unfold_sys Hhome; apply syscall_trace in Hhome; destruct Hhome as [Htr1 _].
  2:{ eexists. split; [exact Htr1|]. intros ev [<- | []] Hm. discriminate. }
  set (tp := path_join h ".local/share/Trash/files") in *.
  apply bind_inv in Hk.
  destruct Hk as [[ex [s2 [Hex Hk]]] | [e [Hex ->]]];
    unfold_sys Hex; apply syscall_trace in Hex; destruct Hex as [Htr2 _].
  2:{ exists [EvHome (Ok h); EvExists tp (Raise e)]. split.
      { rewrite Htr2, Htr1, <- app_assoc. reflexivity. }
      intros ev [<- | [<- | []]] Hm; discriminate. }
  destruct ex; cbn [negb] in Hk.
  2:{ injection Hk as _ <-. exists [EvHome (Ok h); EvExists tp (Ok false)]. split.
      { rewrite Htr2, Htr1, <- app_assoc. reflexivity. }
      intros ev [<- | [<- | []]] Hm; discriminate. }
  apply bind_inv in Hk.
  destruct Hk as [[before [s3 [Hsize Hk]]] | [e [Hsize ->]]];
    destruct (reads_only_folder_size _ _ _ _ Hsize) as [_ [pre [Htr3 [Hread _]]]];
    rewrite Forall_forall in Hread.
  2:{ exists (EvHome (Ok h) :: EvExists tp (Ok true) :: pre). split.
      { rewrite Htr3, Htr2, Htr1, <- !app_assoc. reflexivity. }
      intros ev [<- | [<- | Hin]] Hm; try discriminate.
      rewrite (Hread _ Hin) in Hm. discriminate. }
  apply bind_inv in Hk.
  destruct Hk as [[ro [s4 [Htry Hk]]] | [e [Htry _]]];
    apply try_inv in Htry; destruct Htry as [r0 [Hrm Hr0]];
    [injection Hr0 as -> | discriminate].
  unfold_sys Hrm. apply syscall_trace in Hrm. destruct Hrm as [Htr4 _].
  exists (EvHome (Ok h) :: EvExists tp (Ok true) :: pre ++ [EvRmtree tp r0]). split.
  { destruct r0; injection Hk as _ <-;
      rewrite Htr4, Htr3, Htr2, Htr1, <- !app_assoc; reflexivity. }
  intros ev [<- | [<- | Hin]] Hm; try discriminate.
  apply in_app_or in Hin. destruct Hin as [Hin | [<- | []]].
  - rewrite (Hread _ Hin) in Hm. discriminate.
  - exists h, r0. split; [left; reflexivity | reflexivity].
Qed.

(** The calls of a dry [run]: calls that only read, then the sweep. *)
Lemma run_dry_events (r : RunArgs) s out s' :
  run_dry_run r = true ->
  run r s = (out, s') ->
  exists pre post,
    trace s' = trace s ++ pre ++ post
    /\ Forall (fun ev => is_mutation ev = false) pre
    /\ forall ev, In ev post -> is_mutation ev = true ->
       exists h ro,
         In (EvHome (Ok h)) post
         /\ ev = EvRmtree (path_join h ".local/share/Trash/files") ro.
Proof.
  intros Hdry Hrun. unfold run in Hrun. apply bind_inv in Hrun.
  destruct Hrun as [[dir [s1 [Hres Hk]]] | [e [Hres ->]]];
    unfold_sys Hres; apply syscall_trace in Hres; destruct Hres as [Htr1 _].
  2:{ eexists [_], []. rewrite app_nil_r. split; [exact Htr1|].
      split; [repeat constructor | intros ev []]. }
  apply bind_inv in Hk.
  destruct Hk as [[ex [s2 [Hex Hk]]] | [e [Hex ->]]];
    unfold_sys Hex; apply syscall_trace in Hex; destruct Hex as [Htr2 _].
  2:{ eexists [_; _], []. rewrite app_nil_r. split.
      { rewrite Htr2, Htr1, <- app_assoc. reflexivity. }
      split; [repeat constructor | intros ev []]. }
  destruct ex; cbn [negb] in Hk.
  - apply bind_inv in Hk.
    destruct Hk as [[res [s3 [Heng Hk]]] | [e [Heng ->]]];
      destruct (engine_sound _ _ _ _ Heng) as [_ [evs [Htr3 Her]]];
      pose proof (proj1 (engine_run_dry (engine_args r dir) _ _ _ Hdry Her))
        as Hread.
    2:{ exists (EvResolve (loras_path r) (Ok dir) :: EvExists dir (Ok true) :: evs), [].
        rewrite app_nil_r. split.
        { rewrite Htr3, Htr2, Htr1, <- !app_assoc. reflexivity. }
        split; [repeat constructor; exact Hread | intros ev []]. }
    apply bind_inv in Hk.
    destruct Hk as [[tl [s4 [Hsw Hk]]] | [e [Hsw ->]]];
      destruct (clear_user_trash_mutations _ _ _ Hsw) as [post [Htr4 Hmut]];
      try (injection Hk as _ <-);
      exists (EvResolve (loras_path r) (Ok dir) :: EvExists dir (Ok true) :: evs), post;
      (split; [rewrite Htr4, Htr3, Htr2, Htr1, <- !app_assoc; reflexivity|]);
      (split; [repeat constructor; exact Hread | exact Hmut]).
  - apply bind_inv in Hk.
    destruct Hk as [[cwd [s3 [Hcwd Hk]]] | [e [Hcwd ->]]];
      unfold_sys Hcwd; apply syscall_trace in Hcwd; destruct Hcwd as [Htr3 _].
    2:{ eexists [_; _; _], []. rewrite app_nil_r. split.
        { rewrite Htr3, Htr2, Htr1, <- !app_assoc. reflexivity. }
        split; [repeat constructor | intros ev []]. }
    apply bind_inv in Hk.
    destruct Hk as [[used [s4 [Hpct Hk]]] | [e [Hpct ->]]];
      destruct (disk_usage_percent_inv _ _ _ _ Hpct) as [ru [Htr4 _]];
      try (injection Hk as _ <-);
      eexists [_; _; _; _], []; rewrite app_nil_r;
      (split; [rewrite Htr4, Htr3, Htr2, Htr1, <- !app_assoc; reflexivity|]);
      (split; [repeat constructor | intros ev []]).
Qed.

(** Under dry-run the eviction engine makes no mutating call; it counts
    every candidate its loop finds eligible, with the size the [stat]
    reported, and reports no real deletion; in a quiet world it leaves the
    world as it found it and reports equal before and after percentages.
    Whatever [run] changes under dry-run is therefore changed by the
    reclaim sweep that follows the engine. *)
Theorem dry_run_engine_changes_nothing :
  (forall (a : PurgeArgs) (s s' : St W) (r : res PurgeResult) (evs : list Event),
      dry_run a = true ->
      _purge_oldest_until_below a s = (r, s') ->
      trace s' = trace s ++ evs ->
      Forall (fun ev => is_mutation ev = false) evs
      /\ (forall res, r = Ok res ->
          files_deleted res = Z.of_nat (List.length (deletions (log res)))
          /\ bytes_freed res = total_size (deletions (log res))
          /\ forall l f size, In l (log res) -> l <> LDeleted f size)
      /\ (quiet (world s) ->
          world s' = world s
          /\ forall res, r = Ok res -> after_used_pct res = before_used_pct res))
  /\ (forall (a : PurgeArgs) (now : Q) (files : list Path) (acc acc' : Acc)
             (s s' : St W) (evs : list Event),
      dry_run a = true ->
      purge_loop a now files acc s = (Ok acc', s') ->
      trace s' = trace s ++ evs ->
      deletions (lines acc') = deletions (lines acc) ++ eligible_stats a now evs
      /\ n_deleted acc'
         = n_deleted acc + Z.of_nat (List.length (eligible_stats a now evs))
      /\ n_bytes acc' = n_bytes acc + total_size (eligible_stats a now evs))
  /\ (forall (r : RunArgs) (s s' : St W) (out : res NodeOutput) (evs : list Event),
      run_dry_run r = true ->
      run r s = (out, s') ->
      trace s' = trace s ++ evs ->
      forall ev, In ev evs -> is_mutation ev = true ->
      exists h ro,
        In (EvHome (Ok h)) evs
        /\ ev = EvRmtree (path_join h ".local/share/Trash/files") ro).
Proof.
  split; [|split].
  - intros a s s' r evs Hdry Hrun Htr.
    destruct (engine_sound _ _ _ _ Hrun) as [_ [evs0 [Htr0 Her]]].
    rewrite Htr0 in Htr. apply app_inv_head in Htr. subst evs0.
    destruct (engine_run_dry _ _ _ _ Hdry Her) as [Hread Hnd].
    split; [exact Hread|]. split.
    + intros res ->. destruct (engine_run_accounting _ _ _ _ Her) as [Hn Hb].
      split; [exact Hn|]. split; [exact Hb|].
      intros l f size. exact (Hnd res l f size eq_refl).
    + intros Hq.
      destruct (returns_dry_purge (world s) (clock s) a Hq Hdry s eq_refl eq_refl)
        as [evs1 Hret].
      rewrite Hrun in Hret. injection Hret as -> ->. split; [reflexivity|].
      intros res Hres. exact (dry_purge_at_before_after _ _ _ _ Hres).
  - intros a now files acc acc' s s' evs Hdry Hrun Htr.
    destruct (purge_loop_sound _ _ _ _ _ _ _ Hrun) as [evs0 [Htr0 [_ Hlr]]].
    rewrite Htr0 in Htr. apply app_inv_head in Htr. subst evs0.
    destruct (proj2 (loop_run_dry _ _ _ _ _ _ Hdry Hlr) _ eq_refl)
      as [new [Hnew [Hdel _]]].
    destruct (loop_run_accounting _ _ _ _ _ _ Hlr _ eq_refl)
      as [new' [Hnew' [Hn Hb]]].
    rewrite Hnew in Hnew'. apply app_inv_head in Hnew'. subst new'.
    rewrite Hnew, deletions_app, <- Hdel. repeat split; assumption.
  - intros r s s' out evs Hdry Hrun Htr ev Hin Hmut.
    destruct (run_dry_events _ _ _ _ Hdry Hrun) as [pre [post [Htr0 [Hread Hpost]]]].
    rewrite Htr0 in Htr. apply app_inv_head in Htr. subst evs.
    apply in_app_or in Hin. destruct Hin as [Hin | Hin].
    + rewrite Forall_forall in Hread. rewrite (Hread _ Hin) in Hmut. discriminate.
    + destruct (Hpost _ Hin Hmut) as [h [ro [Hh Hev]]]. exists h, ro.
      split; [apply in_or_app; right; exact Hh | exact Hev].
Qed.

(** ** Oldest first *)

Lemma insert_keyed_perm (x : Q * Path) (l : list (Q * Path)) :
  Permutation (insert_keyed x l) (x :: l).
Proof.
  induction l as [|y l IH]; cbn [insert_keyed]; [apply Permutation_refl|].
  destruct (Qltb (fst y) (fst x)); [|apply Permutation_refl].
  eapply perm_trans; [apply perm_skip; exact IH | apply perm_swap].
Qed.

Lemma sort_keyed_perm (l : list (Q * Path)) : Permutation (sort_keyed l) l.
Proof.
  induction l as [|x l IH]; [apply perm_nil|].
  cbn [sort_keyed fold_right]. fold (sort_keyed l).
  eapply perm_trans; [apply insert_keyed_perm | apply perm_skip; exact IH].
Qed.

Lemma insert_keyed_sorted (x : Q * Path) (l : list (Q * Path)) :
  StronglySorted key_le l -> StronglySorted key_le (insert_keyed x l).
Proof.
  induction 1 as [|y l Hs IH Hall]; cbn [insert_keyed].
  - constructor; constructor.
  - destruct (Qltb (fst y) (fst x)) eqn:E.
    + constructor; [exact IH|].
      apply (Permutation_Forall (Permutation_sym (insert_keyed_perm x l))).
      constructor; [|exact Hall].
      apply Qltb_lt in E. apply Qlt_le_weak. exact E.
    + apply Qltb_ge in E. constructor.
      * constructor; assumption.
      * constructor; [exact E|].
        eapply Forall_impl; [|exact Hall].
        intros z Hz. unfold key_le in *. eapply Qle_trans; eassumption.
Qed.

Lemma sort_keyed_sorted (l : list (Q * Path)) :
  StronglySorted key_le (sort_keyed l).
Proof.
  induction l as [|x l IH]; [constructor|].
  cbn [sort_keyed fold_right]. fold (sort_keyed l).
  apply insert_keyed_sorted. exact IH.
Qed.

Lemma subseq_refl {A : Type} (l : list A) : subseq l l.
Proof. induction l; constructor; assumption. Qed.

Lemma loop_run_order (a : PurgeArgs) (now : Q) files acc evs r :
  loop_run a now files acc evs r ->
  forall acc', r = Ok acc' ->
  exists new,
    lines acc' = lines acc ++ new
    /\ subseq (map fst (deletions new)) files.
Proof.
  intros Hrun. loop_induction Hrun; intros acc' Hr; try discriminate.
  - injection Hr as <-. exists []. rewrite app_nil_r. split; constructor.
  - injection Hr as <-. eexists. split; [reflexivity | constructor].
  - destruct (IH _ Hr) as [new [Hnew Hsub]]. exists new.
    split; [exact Hnew | constructor; exact Hsub].
  - destruct (IH _ Hr) as [new [Hnew Hsub]]. exists new.
    split; [exact Hnew | constructor; exact Hsub].
  - injection Hr as <-.
    destruct (attempt_run_accounting _ _ _ _ _ _ Hatt) as [l [Hl [_ [_ [_ Hd]]]]].
    exists [l; LReached (percent_of u) (target_percent a)].
    cbn [logged lines]. rewrite Hl, <- app_assoc. split; [reflexivity|].
    cbn [deletions deletion_of]. destruct (deletion_of l) as [d|] eqn:E.
    + rewrite (Hd d eq_refl). cbn. apply subseq_keep. constructor.
    + constructor.
  - destruct (attempt_run_accounting _ _ _ _ _ _ Hatt) as [l [Hl [_ [_ [_ Hd]]]]].
    destruct (IH _ Hr) as [new [Hnew Hsub]].
    exists (l :: new). split.
    { rewrite Hnew, Hl, <- app_assoc. reflexivity. }
    cbn [deletions]. destruct (deletion_of l) as [d|] eqn:E.
    + rewrite (Hd d eq_refl). cbn. apply subseq_keep. exact Hsub.
    + apply subseq_skip. exact Hsub.
Qed.







(** ** Repeating a dry run *)

Lemma Forall_filter {A : Type} (P : A -> Prop) (f : A -> bool) (l : list A) :
  Forall P l -> Forall P (filter f l).
Proof.
  rewrite !Forall_forall. intros Hall x Hin. apply filter_In in Hin.
  apply Hall. exact (proj1 Hin).
Qed.

Lemma insert_keyed_head (x : Q * Path) (l : list (Q * Path)) :
  Forall (key_le x) l -> insert_keyed x l = x :: l.
Proof.
  destruct l as [|y l]; [reflexivity|]. intros Hall. inversion Hall; subst.
  cbn [insert_keyed].
  match goal with Hle : key_le x y |- _ => apply Qltb_ge in Hle; rewrite Hle end.
  reflexivity.
Qed.

Lemma filter_insert_keyed (P : Q * Path -> bool) (x : Q * Path)
  (l : list (Q * Path)) :
  StronglySorted key_le l ->
  filter P (insert_keyed x l)
  = if P x then insert_keyed x (filter P l) else filter P l.
Proof.
  induction 1 as [|y l Hs IH Hall]; cbn [insert_keyed filter].
  - destruct (P x); reflexivity.
  - destruct (Qltb (fst y) (fst x)) eqn:E; cbn [filter].
    + rewrite IH. destruct (P y), (P x); cbn [insert_keyed]; rewrite ?E;
        reflexivity.
    + destruct (P x); [|reflexivity].
      symmetry. apply insert_keyed_head.
      apply (Forall_filter _ P (y :: l)).
      apply Qltb_ge in E. constructor; [exact E|].
      eapply Forall_impl; [|exact Hall].
      intros z Hz. unfold key_le in *. eapply Qle_trans; eassumption.
Qed.

(** The sort is stable: filtering commutes with it. *)
Lemma filter_sort_keyed (P : Q * Path -> bool) (l : list (Q * Path)) :
  filter P (sort_keyed l) = sort_keyed (filter P l).
Proof.
  induction l as [|x l IH]; [reflexivity|].
  cbn [sort_keyed fold_right filter]. fold (sort_keyed l).
  rewrite (filter_insert_keyed P x _ (sort_keyed_sorted l)), IH.
  destruct (P x); reflexivity.
Qed.

Lemma filter_map_snd (P : Path -> bool) (l : list (Q * Path)) :
  filter P (map snd l) = map snd (filter (fun kp => P (snd kp)) l).
Proof.
  induction l as [|x l IH]; [reflexivity|].
  cbn [map filter]. destruct (P (snd x)); cbn [map]; rewrite IH; reflexivity.
Qed.

(** At two times the keys differ only for the files that are gone. *)
Lemma keys_at_clock (w : W) (t1 t2 : Q) (l : list Path) :
  match keys_at w t1 l, keys_at w t2 l with
  | Ok k1, Ok k2 =>
      filter (fun kp => present w (snd kp)) k1
      = filter (fun kp => present w (snd kp)) k2
  | Raise e1, Raise e2 => e1 = e2
  | _, _ => False
  end.
Proof.
  induction l as [|p rest IH]; cbn [keys_at]; [reflexivity|].
  assert (Hp : present w p
               = match fst (os_stat w p) with
                 | Raise FileNotFoundError => false
                 | _ => true
                 end) by reflexivity.
  unfold key_at.
  destruct (fst (os_stat w p)) as [st | []]; cbn [rbind]; try reflexivity;
    destruct (keys_at w t1 rest) as [k1|e1], (keys_at w t2 rest) as [k2|e2];
    cbn [rbind]; try exact IH;
    cbn [filter snd]; rewrite Hp, ?IH; reflexivity.
Qed.

Lemma sorted_at_clock (w : W) (t1 t2 : Q) (l : list Path) :
  match sorted_at w t1 l, sorted_at w t2 l with
  | Ok l1, Ok l2 => filter (present w) l1 = filter (present w) l2
  | Raise e1, Raise e2 => e1 = e2
  | _, _ => False
  end.
Proof.
  unfold sorted_at. pose proof (keys_at_clock w t1 t2 l) as Hk.
  destruct (keys_at w t1 l) as [k1|e1], (keys_at w t2 l) as [k2|e2];
    cbn [rbind]; try exact Hk.
  rewrite !filter_map_snd, !filter_sort_keyed, Hk. reflexivity.
Qed.

Lemma summary_logged (acc : Acc) (l : LogLine) :
  deletion_of l = None -> summary (Ok (logged acc l)) = summary (Ok acc).
Proof.
  intros Hl. cbn [summary rbind logged n_deleted n_bytes lines].
  rewrite deletions_app. cbn [deletions]. rewrite Hl, app_nil_r. reflexivity.
Qed.

Lemma dry_loop_at_limit (w : W) (a : PurgeArgs) (now : Q) files acc :
  limit_reached a acc = true ->
  summary (dry_loop_at w a now files acc) = summary (Ok acc).
Proof.
  intros Hlim. destruct files as [|f rest]; [reflexivity|].
  cbn [dry_loop_at]. rewrite Hlim. apply summary_logged. reflexivity.
Qed.

(** Files that are gone do not change what the loop counts. *)
Lemma dry_loop_at_present (w : W) (a : PurgeArgs) (now : Q) :
  forall files acc,
    summary (dry_loop_at w a now files acc)
    = summary (dry_loop_at w a now (filter (present w) files) acc).
Proof.
  induction files as [|f rest IH]; intros acc; [reflexivity|].
  cbn [filter]. unfold present at 1.
  destruct (fst (os_stat w f)) as [st | e] eqn:Est.
  - cbn [dry_loop_at]. rewrite Est.
    destruct (limit_reached a acc); [reflexivity|].
    destruct (too_fresh a now st); [apply IH|]. cbv zeta.
    destruct (percent_at w (root_for_usage a)) as [pct|e]; cbn [rbind];
      [|reflexivity].
    destruct (Qltb pct (target_percent a)); [reflexivity | apply IH].
  - destruct e.
    + cbn [dry_loop_at]. rewrite Est.
      destruct (limit_reached a acc) eqn:Elim; [|apply IH].
      rewrite dry_loop_at_limit by exact Elim.
      apply summary_logged. reflexivity.
    + cbn [dry_loop_at]. rewrite Est.
      destruct (limit_reached a acc); reflexivity.
    + cbn [dry_loop_at]. rewrite Est.
      destruct (limit_reached a acc); reflexivity.
    + cbn [dry_loop_at]. rewrite Est.
      destruct (limit_reached a acc); reflexivity.
Qed.

(** The loop reads the clock only through the age test. *)
Lemma dry_loop_at_clock (w : W) (a : PurgeArgs) (t1 t2 : Q) :
  (forall p st, fst (os_stat w p) = Ok st ->
     too_fresh a t1 st = too_fresh a t2 st) ->
  forall files acc,
    dry_loop_at w a t1 files acc = dry_loop_at w a t2 files acc.
Proof.
  intros Hage. induction files as [|f rest IH]; intros acc; [reflexivity|].
  cbn [dry_loop_at]. destruct (limit_reached a acc); [reflexivity|].
  destruct (fst (os_stat w f)) as [st | e] eqn:Est.
  - rewrite (Hage f st Est). destruct (too_fresh a t2 st); [apply IH|].
    cbv zeta. destruct (percent_at w (root_for_usage a)) as [pct|e];
      cbn [rbind]; [|reflexivity].
    destruct (Qltb pct (target_percent a)); [reflexivity | apply IH].
  - destruct e; [apply IH | reflexivity ..].
Qed.

Lemma dry_purge_at_clock (w : W) (a : PurgeArgs) (t1 t2 : Q) :
  (forall p st, fst (os_stat w p) = Ok st ->
     too_fresh a t1 st = too_fresh a t2 st) ->
  report (dry_purge_at w t1 a) = report (dry_purge_at w t2 a).
Proof.
  intros Hage. unfold dry_purge_at.
  destruct (percent_at w (root_for_usage a)) as [before|e]; cbn [rbind];
    [|reflexivity].
  destruct (Qltb before (threshold_percent a)); [reflexivity|].
  destruct (collect_at w (loras_dir a) (allowed_suffixes a) (exclude_names a))
    as [files|e]; cbn [rbind]; [|reflexivity].
  pose proof (sorted_at_clock w t1 t2 files) as Hsort.
  destruct (sorted_at w t1 files) as [l1|e1], (sorted_at w t2 files) as [l2|e2];
    cbn [rbind]; try contradiction; [|rewrite Hsort; reflexivity].
  assert (Hsum : summary (dry_loop_at w a t1 l1 (acc0 a before))
                 = summary (dry_loop_at w a t2 l2 (acc0 a before))).
  { rewrite (dry_loop_at_present w a t1 l1), Hsort,
      <- (dry_loop_at_present w a t1 l2).
    rewrite (dry_loop_at_clock w a t1 t2 Hage). reflexivity. }
  destruct (dry_loop_at w a t1 l1 (acc0 a before)) as [acc1|e1],
           (dry_loop_at w a t2 l2 (acc0 a before)) as [acc2|e2];
    cbn [summary rbind] in Hsum |- *; try discriminate; [|exact Hsum].
  injection Hsum as Hn Hb Hd. cbn [rbind report].
  cbn [files_deleted bytes_freed log app deletions deletion_of].
  rewrite Hn, Hb, Hd. reflexivity.
Qed.

(** C10, as the code has it: a dry run in a quiet world leaves the world
    as it found it, and a second dry run from that world, at any later
    clock reading, reports the same deletions, the same byte total and the
    same count (or raises the same exception), provided no file is on
    different sides of the minimum-age test at the two clock readings; in
    particular whenever no minimum age is configured. *)
Theorem C10_dry_run_repeatable :
  forall (a : PurgeArgs) (s s1 s2 : St W) (t2 : Q)
         (r1 r2 : res PurgeResult),
    dry_run a = true ->
    quiet (world s) ->
    (forall p st, fst (os_stat (world s) p) = Ok st ->
       too_fresh a (clock s) st = too_fresh a t2 st) ->
    _purge_oldest_until_below a s = (r1, s1) ->
    _purge_oldest_until_below a (mkSt (world s1) t2 (trace s1)) = (r2, s2) ->
    world s1 = world s
    /\ world s2 = world s
    /\ match r1, r2 with
       | Ok x, Ok y =>
           deletions (log x) = deletions (log y)
           /\ bytes_freed x = bytes_freed y
           /\ files_deleted x = files_deleted y
       | Raise e1, Raise e2 => e1 = e2
       | _, _ => False
       end.
Proof.
  intros a s s1 s2 t2 r1 r2 Hdry Hq Hage Hrun1 Hrun2.
  destruct (returns_dry_purge (world s) (clock s) a Hq Hdry s eq_refl eq_refl)
    as [evs1 Hret1].
  rewrite Hrun1 in Hret1. injection Hret1 as -> ->. cbn [world trace] in Hrun2.
  destruct (returns_dry_purge (world s) t2 a Hq Hdry
              (mkSt (world s) t2 (trace s ++ evs1)) eq_refl eq_refl)
    as [evs2 Hret2].
  rewrite Hrun2 in Hret2. injection Hret2 as -> ->.
  split; [reflexivity|]. split; [reflexivity|].
  pose proof (dry_purge_at_clock (world s) a (clock s) t2 Hage) as Hrep.
  destruct (dry_purge_at (world s) (clock s) a) as [x|e1],
           (dry_purge_at (world s) t2 a) as [y|e2];
    cbn [report rbind] in Hrep; try discriminate.
  - injection Hrep as Hn Hb Hd. repeat split; assumption.
  - injection Hrep as ->. reflexivity.
Qed.

(** ** Further properties

    Properties of the helpers, the reclaim sweep and the node that the
    statements above leave out. *)

(** *** The CSV fields of [run] *)

Lemma str_lstrip_chars (c : ascii) (s : string) :
  In c (list_ascii_of_string (str_lstrip s)) -> In c (list_ascii_of_string s).
Proof.
  induction s as [|d r IH]; cbn; [tauto|].
  destruct (is_space d); cbn; auto.
Qed.

Lemma str_rstrip_chars (c : ascii) (s : string) :
  In c (list_ascii_of_string (str_rstrip s)) -> In c (list_ascii_of_string s).
Proof.
  induction s as [|d r IH]; cbn; [tauto|].
  destruct (str_rstrip r) as [|d' r'] eqn:E.
  - destruct (is_space d); cbn; tauto.
  - cbn. cbn in IH. tauto.
Qed.

Lemma str_strip_chars (c : ascii) (s : string) :
  In c (list_ascii_of_string (str_strip s)) -> In c (list_ascii_of_string s).
Proof. intro Hc. apply str_lstrip_chars, str_rstrip_chars, Hc. Qed.

Lemma str_split_comma_chars (s y : string) :
  In y (str_split_comma s) -> ~ In ","%char (list_ascii_of_string y).
Proof.
  revert y. induction s as [|c r IH]; cbn; intros y Hy.
  - destruct Hy as [<-|[]]. cbn. tauto.
  - destruct (Ascii.eqb c ",") eqn:Ec.
    + destruct Hy as [<-|Hy]; [cbn; tauto | auto].
    + destruct (str_split_comma r) as [|h t] eqn:E.
      * destruct Hy as [<-|[]]. cbn. intros [->|[]].
        rewrite Ascii.eqb_refl in Ec. discriminate.
      * destruct Hy as [<-|Hy].
        -- cbn. intros [->|Hin].
           ++ rewrite Ascii.eqb_refl in Ec. discriminate.
           ++ exact (IH h (or_introl eq_refl) Hin).
        -- apply IH. right. exact Hy.
Qed.

Lemma str_lstrip_head (s : string) :
  match str_lstrip s with
  | EmptyString => True
  | String c _ => is_space c = false
  end.
Proof.
  induction s as [|c r IH]; cbn; [exact I|].
  destruct (is_space c) eqn:E; [exact IH | exact E].
Qed.

Lemma str_rstrip_idem (s : string) : str_rstrip (str_rstrip s) = str_rstrip s.
Proof.
  induction s as [|c r IH]; cbn; [reflexivity|].
  destruct (str_rstrip r) as [|d r'] eqn:E.
  - destruct (is_space c) eqn:Ec; cbn; [reflexivity|]. rewrite Ec. reflexivity.
  - cbn [str_rstrip]. fold str_rstrip. 
    change (match str_rstrip (String d r') with
            | EmptyString => if is_space c then EmptyString else String c EmptyString
            | String a s0 => String c (String a s0) end = String c (String d r')).
    rewrite IH. reflexivity.
Qed.

Lemma str_lstrip_rstrip (s : string) :
  match s with EmptyString => True | String c _ => is_space c = false end ->
  str_lstrip (str_rstrip s) = str_rstrip s.
Proof.
  destruct s as [|c r]; cbn; [reflexivity|]. intro Hc.
  destruct (str_rstrip r); [rewrite Hc|]; cbn; rewrite Hc; reflexivity.
Qed.

Lemma str_strip_idem (s : string) : str_strip (str_strip s) = str_strip s.
Proof.
  unfold str_strip.
  rewrite (str_lstrip_rstrip (str_lstrip s)) by apply str_lstrip_head.
  apply str_rstrip_idem.
Qed.

Lemma csv_list_nonempty (s x : string) :
  In x (_csv_list s) -> x <> EmptyString.
Proof.
  intros Hx. unfold _csv_list in Hx.
  apply in_map_iff in Hx. destruct Hx as (y & <- & Hy).
  apply filter_In in Hy. destruct Hy as [_ Hne].
  intro E. rewrite E in Hne. discriminate.
Qed.

(** X1: every token [_csv_list] returns is non-empty, has no leading or
    trailing white space and contains no comma. *)
Theorem X1_csv_list_tokens :
  forall (s x : string),
    In x (_csv_list s) ->
    x <> EmptyString
    /\ str_strip x = x
    /\ ~ In ","%char (list_ascii_of_string x).
Proof.
  intros s x Hx. unfold _csv_list in Hx.
  apply in_map_iff in Hx. destruct Hx as (y & <- & Hy).
  apply filter_In in Hy. destruct Hy as [Hy Hne].
  split; [|split].
  - intro E. rewrite E in Hne. discriminate.
  - apply str_strip_idem.
  - intro Hc. apply str_strip_chars in Hc.
    exact (str_split_comma_chars _ _ Hy Hc).
Qed.

Lemma str_split_comma_plain (t : string) :
  ~ In ","%char (list_ascii_of_string t) -> str_split_comma t = [t].
Proof.
  induction t as [|c r IH]; cbn; [reflexivity|]. intro Hn.
  destruct (Ascii.eqb c ",") eqn:Ec.
  - apply Ascii.eqb_eq in Ec. tauto.
  - rewrite IH by tauto. reflexivity.
Qed.

Lemma str_split_comma_app (t rest : string) :
  ~ In ","%char (list_ascii_of_string t) ->
  str_split_comma (t ++ String "," rest) = t :: str_split_comma rest.
Proof.
  induction t as [|c r IH]; cbn; [reflexivity|]. intro Hn.
  destruct (Ascii.eqb c ",") eqn:Ec.
  - apply Ascii.eqb_eq in Ec. tauto.
  - rewrite IH by tauto. reflexivity.
Qed.

Lemma str_split_comma_concat (ts : list string) :
  ts <> [] ->
  (forall t, In t ts -> ~ In ","%char (list_ascii_of_string t)) ->
  str_split_comma (String.concat "," ts) = ts.
Proof.
  induction ts as [|t ts IH]; [congruence|]. intros _ Hts.
  destruct ts as [|t' ts'].
  - cbn. apply str_split_comma_plain. apply Hts. left. reflexivity.
  - change (String.concat "," (t :: t' :: ts'))
      with (t ++ String "," (String.concat "," (t' :: ts')))%string.
    rewrite str_split_comma_app by (apply Hts; left; reflexivity).
    rewrite IH; [reflexivity | discriminate |].
    intros x Hx. apply Hts. right. exact Hx.
Qed.

(** X2: round trip.  Joining clean tokens with commas and splitting the
    result with [_csv_list] gives the tokens back, in order. *)
Theorem X2_csv_list_round_trip :
  forall (ts : list string),
    (forall t, In t ts -> clean_token t) ->
    _csv_list (String.concat "," ts) = ts.
Proof.
  intros ts Hts. destruct ts as [|t0 ts0]; [reflexivity|].
  unfold _csv_list. rewrite str_split_comma_concat; [|discriminate|].
  2:{ intros t Ht. apply (Hts t Ht). }
  remember (t0 :: ts0) as ts eqn:E. clear E.
  induction ts as [|t ts IH]; [reflexivity|].
  cbn [filter].
  destruct (Hts t (or_introl eq_refl)) as (Hne & Hstrip & _).
  rewrite Hstrip. destruct t; [congruence|]. cbn [str_nonempty map].
  rewrite Hstrip. f_equal. apply IH. intros x Hx. apply Hts. right. exact Hx.
Qed.

Lemma ascii_lower_idem (c : ascii) : ascii_lower (ascii_lower c) = ascii_lower c.
Proof.
  destruct c as [[] [] [] [] [] [] [] []]; vm_compute; reflexivity.
Qed.

Lemma str_lower_idem (s : string) : str_lower (str_lower s) = str_lower s.
Proof.
  induction s as [|c r IH]; cbn; [reflexivity|].
  rewrite ascii_lower_idem, IH. reflexivity.
Qed.

Lemma str_lower_nonempty (s : string) :
  s <> EmptyString -> str_lower s <> EmptyString.
Proof. destruct s; cbn; [congruence | discriminate]. Qed.

Lemma str_lower_dot (s : string) :
  str_startswith "." s = true -> str_startswith "." (str_lower s) = true.
Proof.
  intros Hs. apply str_startswith_spec in Hs. destruct Hs as [post ->].
  reflexivity.
Qed.

(** X3: the filters [run] hands to the engine are normalised.  Every
    allowed suffix starts with a dot and is in lower case; every excluded
    name fragment is non-empty and in lower case. *)
Theorem X3_filters_normalized :
  forall (r : RunArgs) (dir : Path),
    (forall x, In x (allowed_suffixes (engine_args r dir)) ->
       str_startswith "." x = true /\ str_lower x = x)
    /\ (forall x, In x (exclude_names (engine_args r dir)) ->
       x <> EmptyString /\ str_lower x = x).
Proof.
  intros r dir. cbn [engine_args allowed_suffixes exclude_names]. split.
  - intros x Hx. unfold normalize_suffixes in Hx. apply in_map_iff in Hx.
    destruct Hx as (t & <- & _).
    destruct (str_startswith "." t) eqn:Edot.
    + split; [apply str_lower_dot; exact Edot | apply str_lower_idem].
    + split; [reflexivity|]. cbn [str_lower]. rewrite str_lower_idem.
      reflexivity.
  - intros x Hx. apply in_map_iff in Hx. destruct Hx as (t & <- & Ht).
    split; [|apply str_lower_idem].
    apply str_lower_nonempty. exact (csv_list_nonempty _ _ Ht).
Qed.

Lemma csv_list_empty_iff (csv : string) :
  _csv_list csv = []
  <-> forall y, In y (str_split_comma csv) -> str_strip y = EmptyString.
Proof.
  unfold _csv_list. induction (str_split_comma csv) as [|y l IH]; cbn.
  - split; [intros _ ? [] | reflexivity].
  - destruct (str_strip y) eqn:Ey; cbn.
    + rewrite IH. split.
      * intros Hl z [<-|Hz]; [exact Ey | exact (Hl z Hz)].
      * intros Hl z Hz. apply Hl. right. exact Hz.
    + split; [discriminate|]. intros Hl.
      specialize (Hl y (or_introl eq_refl)). congruence.
Qed.

(** X4: a filter field that holds nothing but commas and white space
    switches its filter off: with such a suffix field no file is rejected
    for its suffix, with such an exclusion field no file is excluded by
    name. *)
Theorem X4_blank_filter_fields :
  forall (r : RunArgs) (dir : Path),
    ((forall y, In y (str_split_comma (allowed_suffixes_csv r)) ->
        str_strip y = EmptyString) ->
     forall f, suffix_rejected (allowed_suffixes (engine_args r dir)) f = false)
    /\ ((forall y, In y (str_split_comma (exclude_names_csv r)) ->
           str_strip y = EmptyString) ->
        forall f, name_excluded (exclude_names (engine_args r dir)) f = false).
Proof.
  intros r dir. cbn [engine_args allowed_suffixes exclude_names]. split.
  - intros Hblank f. apply csv_list_empty_iff in Hblank.
    unfold normalize_suffixes. rewrite Hblank. reflexivity.
  - intros Hblank f. apply csv_list_empty_iff in Hblank.
    rewrite Hblank. reflexivity.
Qed.

(** *** The usage percentage *)

Lemma percent_of_range (u : usage) :
  0 <= u_used u <= u_total u -> (0 <= percent_of u <= 100)%Q.
Proof.
  intros [H0 H1]. unfold percent_of.
  destruct (u_total u) as [|t|t] eqn:Et; cbn [Z.eqb]; [| |lia].
  - assert (u_used u = 0) as -> by lia. split; discriminate.
  - unfold Qle, Qdiv, Qmult, Qinv, inject_Z; cbn. split; nia.
Qed.

(** X5: [_disk_usage_percent] returns whenever the probe does, also when
    the reported total is 0 (the divisor is then 1); with
    [0 <= used <= total] the percentage lies between 0 and 100. *)
Theorem X5_disk_usage_percent_range :
  forall (p : Path) (s s1 : St W) (u : usage),
    sys_disk_usage p s = (Ok u, s1) ->
    exists pct,
      _disk_usage_percent p s = (Ok pct, s1)
      /\ (u_total u = 0 -> pct = (inject_Z (u_used u) / 1 * 100)%Q)
      /\ (0 <= u_used u <= u_total u -> (0 <= pct <= 100)%Q).
Proof.
  intros p s s1 u Hu. exists (percent_of u). split; [|split].
  - unfold _disk_usage_percent, bind. rewrite Hu. reflexivity.
  - intros Ht. unfold percent_of. rewrite Ht. reflexivity.
  - apply percent_of_range.
Qed.

(** *** The order of the collector *)

Lemma subseq_In {A : Type} (l1 l2 : list A) (x : A) :
  subseq l1 l2 -> In x l1 -> In x l2.
Proof.
  induction 1 as [l | y l1 l2 Hs IH | y l1 l2 Hs IH]; intros Hin.
  - destruct Hin.
  - right. apply IH. exact Hin.
  - destruct Hin as [<-|Hin]; [left; reflexivity | right; apply IH; exact Hin].
Qed.

Lemma subseq_NoDup {A : Type} (l1 l2 : list A) :
  subseq l1 l2 -> NoDup l2 -> NoDup l1.
Proof.
  induction 1 as [l | y l1 l2 Hs IH | y l1 l2 Hs IH]; intros Hnd.
  - constructor.
  - apply IH. inversion Hnd. assumption.
  - inversion Hnd as [|? ? Hnot Hnd']; subst. constructor; [|apply IH; exact Hnd'].
    intros Hin. apply Hnot. exact (subseq_In _ _ _ Hs Hin).
Qed.

Lemma collect_loop_subseq (allowed exclude : list string) :
  forall (listing files : list Path) s out s',
    collect_loop allowed exclude listing files s = (Ok out, s') ->
    exists kept, out = files ++ kept /\ subseq kept listing.
Proof.
  induction listing as [|f rest IH]; intros files s out s' Hrun.
  - injection Hrun as <- <-. exists []. rewrite app_nil_r.
    split; [reflexivity | constructor].
  - cbn [collect_loop] in Hrun. apply bind_inv in Hrun.
    destruct Hrun as [[isf [s1 [_ Hk]]] | [e [_ Hr]]]; [|discriminate].
    assert (Hskip : collect_loop allowed exclude rest files s1 = (Ok out, s') ->
                    exists kept, out = files ++ kept /\ subseq kept (f :: rest)).
    { intros Hk'. destruct (IH _ _ _ _ Hk') as [kept [Ho Hs]].
      exists kept. split; [exact Ho | apply subseq_skip; exact Hs]. }
    destruct (negb isf); [exact (Hskip Hk)|].
    destruct (suffix_rejected allowed f); [exact (Hskip Hk)|].
    destruct (name_excluded exclude f); [exact (Hskip Hk)|].
    destruct (IH _ _ _ _ Hk) as [kept [Ho Hs]].
    exists (f :: kept). split.
    + rewrite Ho, <- app_assoc. reflexivity.
    + apply subseq_keep. exact Hs.
Qed.

(** What the collector returns, in terms of its calls. *)
Lemma collect_inv (dir : Path) (allowed exclude : list string) s files s' evs :
  _collect_lora_files dir allowed exclude s = (Ok files, s') ->
  trace s' = trace s ++ evs ->
  files = []
  \/ exists listing,
      In (EvRglob dir (Ok listing)) evs
      /\ subseq files listing
      /\ forall f, In f files ->
           In (EvIsFile f (Ok true)) evs
           /\ suffix_rejected allowed f = false
           /\ name_excluded exclude f = false.
Proof.
  intros Hrun Htr. unfold _collect_lora_files in Hrun. apply bind_inv in Hrun.
  destruct Hrun as [[ex [s1 [Hex Hk]]] | [e [_ Hr]]]; [|discriminate].
  unfold_sys Hex. apply syscall_trace in Hex. destruct Hex as [Htr1 _].
  destruct (negb ex); [injection Hk as <- <-; left; reflexivity|].
  apply bind_inv in Hk.
  destruct Hk as [[isd [s2 [Hisd Hk]]] | [e [_ Hr]]]; [|discriminate].
  unfold_sys Hisd. apply syscall_trace in Hisd. destruct Hisd as [Htr2 _].
  destruct (negb isd); [injection Hk as <- <-; left; reflexivity|].
  apply bind_inv in Hk.
  destruct Hk as [[listing [s3 [Hls Hk]]] | [e [_ Hr]]]; [|discriminate].
  unfold_sys Hls. apply syscall_trace in Hls. destruct Hls as [Htr3 _].
  right. exists listing.
  destruct (collect_loop_spec _ _ _ _ _ _ _ Hk) as [levs [Htr4 [_ Hout]]].
  destruct (collect_loop_subseq _ _ _ _ _ _ _ Hk) as [kept [Hkept Hsub]].
  cbn [app] in Hkept. subst kept.
  rewrite Htr4, Htr3, Htr2, Htr1, <- !app_assoc in Htr. apply app_inv_head in Htr.
  subst evs. split; [|split; [exact Hsub|]].
  - right. right. left. reflexivity.
  - intros f Hf. apply (Hout files eq_refl) in Hf.
    destruct Hf as [[]|[_ [Hev [Hs Hn]]]].
    split; [|split; assumption]. right. right. right. exact Hev.
Qed.

(** X6: the collector only reads, and the list it returns keeps the
    enumeration order of [rglob]: it is the listing with entries left out,
    so a listing without repetitions gives candidates without
    repetitions. *)
Theorem X6_collect_keeps_listing_order :
  forall (dir : Path) (allowed exclude : list string) (s s' : St W)
         (files : list Path) (evs : list Event),
    _collect_lora_files dir allowed exclude s = (Ok files, s') ->
    trace s' = trace s ++ evs ->
    Forall (fun ev => is_mutation ev = false) evs
    /\ (files = []
        \/ exists listing,
            In (EvRglob dir (Ok listing)) evs
            /\ subseq files listing
            /\ (NoDup listing -> NoDup files)).
Proof.
  intros dir allowed exclude s s' files evs Hrun Htr. split.
  - destruct (reads_only_collect _ _ _ _ _ _ Hrun) as [_ [evs0 [Htr0 [Hro _]]]].
    rewrite Htr0 in Htr. apply app_inv_head in Htr. subst evs0. exact Hro.
  - destruct (collect_inv _ _ _ _ _ _ _ Hrun Htr) as [->|[listing [Hin [Hsub _]]]];
      [left; reflexivity|].
    right. exists listing. split; [exact Hin|]. split; [exact Hsub|].
    apply subseq_NoDup. exact Hsub.
Qed.

(** *** Measuring a folder *)
Lemma stat_sizes_app (l1 l2 : list Event) :
  stat_sizes (l1 ++ l2) = stat_sizes l1 + stat_sizes l2.
Proof.
  induction l1 as [|ev l1 IH]; [reflexivity|].
  destruct ev; cbn; try exact IH. destruct r; cbn; rewrite IH; lia.
Qed.

Lemma folder_size_loop_spec :
  forall (listing : list Path) (total : Z) s r s',
    folder_size_loop listing total s = (r, s') ->
    exists evs,
      trace s' = trace s ++ evs
      /\ (forall ev, In ev evs ->
          exists f, In f listing
                    /\ ((exists b, ev = EvIsFile f b) \/ (exists o, ev = EvStat f o)))
      /\ (forall n, r = Ok n -> n = total + stat_sizes evs).
Proof.
  induction listing as [|f rest IH]; intros total s r s' Hrun.
  - injection Hrun as <- <-. exists []. rewrite app_nil_r.
    repeat split; [intros ? [] | intros n [= <-]; cbn; lia].
  - cbn [folder_size_loop] in Hrun. apply bind_inv in Hrun.
    destruct Hrun as [[isf [s1 [Hisf Hk]]] | [e [Hisf ->]]];
      unfold_sys Hisf; apply syscall_trace in Hisf; destruct Hisf as [Htr1 _].
    2:{ exists [EvIsFile f (Raise e)]. split; [exact Htr1|]. split.
        - intros ev [<-|[]]. exists f. split; [left; reflexivity|]. left. eauto.
        - intros n Hn. discriminate. }
    destruct isf.
    + apply bind_inv in Hk.
      destruct Hk as [[rs [s2 [Htry Hk]]] | [e [Htry _]]];
        apply try_inv in Htry; destruct Htry as [r0 [Hst Hr0]];
        [injection Hr0 as -> | discriminate].
      unfold_sys Hst. apply syscall_trace in Hst. destruct Hst as [Htr2 _].
      assert (Hcont : forall total',
                 folder_size_loop rest total' s2 = (r, s') ->
                 exists evs,
                   trace s' = trace s ++ EvIsFile f (Ok true) :: EvStat f r0 :: evs
                   /\ (forall ev, In ev evs ->
                       exists f0, In f0 rest
                         /\ ((exists b, ev = EvIsFile f0 b) \/ (exists o, ev = EvStat f0 o)))
                   /\ (forall n, r = Ok n -> n = total' + stat_sizes evs)).
      { intros total' Hk'. destruct (IH _ _ _ _ Hk') as [evs [Htr [Hev Hn]]].
        exists evs. split; [|split; assumption].
        rewrite Htr, Htr2, Htr1, <- !app_assoc. reflexivity. }
      assert (Hwrap : forall total' evs,
                 trace s' = trace s ++ EvIsFile f (Ok true) :: EvStat f r0 :: evs ->
                 (forall ev, In ev evs ->
                       exists f0, In f0 rest
                         /\ ((exists b, ev = EvIsFile f0 b) \/ (exists o, ev = EvStat f0 o))) ->
                 (forall n, r = Ok n -> n = total' + stat_sizes evs) ->
                 total' = total + stat_sizes [EvStat f r0] ->
                 exists evs0,
                   trace s' = trace s ++ evs0
                   /\ (forall ev, In ev evs0 ->
                       exists f0, In f0 (f :: rest)
                         /\ ((exists b, ev = EvIsFile f0 b) \/ (exists o, ev = EvStat f0 o)))
                   /\ (forall n, r = Ok n -> n = total + stat_sizes evs0)).
      { intros total' evs Htr Hev Hn Ht.
        exists (EvIsFile f (Ok true) :: EvStat f r0 :: evs). split; [exact Htr|]. split.
        - intros ev [<-|[<-|Hin]].
          + exists f. split; [left; reflexivity|]. left. eauto.
          + exists f. split; [left; reflexivity|]. right. eauto.
          + destruct (Hev ev Hin) as [f0 [Hf0 Hshape]]. exists f0.
            split; [right; exact Hf0 | exact Hshape].
        - intros n Hr. rewrite (Hn n Hr), Ht.
          change (EvIsFile f (Ok true) :: EvStat f r0 :: evs)
            with ([EvIsFile f (Ok true)] ++ [EvStat f r0] ++ evs).
          rewrite !stat_sizes_app. cbn [stat_sizes]. lia. }
      destruct r0 as [st|e].
      * destruct (Hcont _ Hk) as [evs [Htr [Hev Hn]]].
        eapply Hwrap; eauto. cbn. lia.
      * destruct e.
        -- destruct (Hcont _ Hk) as [evs [Htr [Hev Hn]]].
           eapply Hwrap; eauto. cbn. lia.
        -- injection Hk as <- <-.
           exists [EvIsFile f (Ok true); EvStat f (Raise PermissionError)].
           split; [rewrite Htr2, Htr1, <- app_assoc; reflexivity|]. split.
           ++ intros ev [<-|[<-|[]]]; exists f; (split; [left; reflexivity|]); eauto.
           ++ intros n Hn. discriminate.
        -- injection Hk as <- <-.
           exists [EvIsFile f (Ok true); EvStat f (Raise IsADirectoryError)].
           split; [rewrite Htr2, Htr1, <- app_assoc; reflexivity|]. split.
           ++ intros ev [<-|[<-|[]]]; exists f; (split; [left; reflexivity|]); eauto.
           ++ intros n Hn. discriminate.
        -- injection Hk as <- <-.
           exists [EvIsFile f (Ok true); EvStat f (Raise OtherError)].
           split; [rewrite Htr2, Htr1, <- app_assoc; reflexivity|]. split.
           ++ intros ev [<-|[<-|[]]]; exists f; (split; [left; reflexivity|]); eauto.
           ++ intros n Hn. discriminate.
    + destruct (IH _ _ _ _ Hk) as [evs [Htr [Hev Hn]]].
      exists (EvIsFile f (Ok false) :: evs). split.
      { rewrite Htr, Htr1, <- app_assoc. reflexivity. }
      split.
      * intros ev [<-|Hin].
        -- exists f. split; [left; reflexivity|]. left. eauto.
        -- destruct (Hev ev Hin) as [f0 [Hf0 Hshape]]. exists f0.
           split; [right; exact Hf0 | exact Hshape].
      * intros n Hr. rewrite (Hn n Hr). reflexivity.
Qed.

Lemma stat_sizes_nonneg (evs : list Event) :
  (forall f st, In (EvStat f (Ok st)) evs -> 0 <= st_size st) ->
  0 <= stat_sizes evs.
Proof.
  induction evs as [|ev evs IH]; intros Hs; [cbn; lia|].
  assert (IH' : 0 <= stat_sizes evs).
  { apply IH. intros f st Hin. apply (Hs f st). right. exact Hin. }
  destruct ev; cbn; try exact IH'. destruct r; [|exact IH'].
  specialize (Hs p a (or_introl eq_refl)). lia.
Qed.

Lemma folder_size_sum (p : Path) (s s' : St W) (n : Z) (evs : list Event) :
  _folder_size p s = (Ok n, s') ->
  trace s' = trace s ++ evs ->
  n = stat_sizes evs.
Proof.
  intros Hrun Htr. unfold _folder_size in Hrun. apply bind_inv in Hrun.
  destruct Hrun as [[ex [s1 [Hex Hk]]] | [e [Hex Hr]]]; [|discriminate].
  unfold_sys Hex; apply syscall_trace in Hex; destruct Hex as [Htr1 _].
  destruct ex; cbn [negb] in Hk.
  - apply bind_inv in Hk.
    destruct Hk as [[listing [s2 [Hls Hk]]] | [e [Hls Hr]]]; [|discriminate].
    unfold_sys Hls; apply syscall_trace in Hls; destruct Hls as [Htr2 _].
    destruct (folder_size_loop_spec _ _ _ _ _ Hk) as [levs [Htr3 [_ Hn]]].
    rewrite Htr3, Htr2, Htr1, <- !app_assoc in Htr. apply app_inv_head in Htr.
    subst evs. rewrite (Hn n eq_refl). reflexivity.
  - injection Hk as <- <-.
    rewrite Htr1 in Htr. apply app_inv_head in Htr. subst evs. reflexivity.
Qed.

(** X7: [_folder_size] only reads; on a path that does not exist it
    returns 0 after that one call; what it returns is the sum of the sizes
    its successful [stat] calls reported (an entry whose [stat] raises
    [FileNotFoundError] adds nothing and does not stop it); it raises only
    what a failing call raised. *)
Theorem X7_folder_size_sums_stats :
  forall (p : Path) (s s' : St W) (r : res Z) (evs : list Event),
    _folder_size p s = (r, s') ->
    trace s' = trace s ++ evs ->
    Forall (fun ev => is_mutation ev = false) evs
    /\ (In (EvExists p (Ok false)) evs ->
        r = Ok 0 /\ evs = [EvExists p (Ok false)])
    /\ (forall n, r = Ok n ->
        n = stat_sizes evs
        /\ ((forall f st, In (EvStat f (Ok st)) evs -> 0 <= st_size st) -> 0 <= n))
    /\ (forall e, r = Raise e ->
        exists pre ev, evs = pre ++ [ev] /\ abort_cause ev e).
Proof.
  intros p s s' r evs Hrun Htr.
  destruct (reads_only_folder_size p s r s' Hrun) as [_ [evs0 [Htr0 [Hro Hab]]]].
  assert (evs0 = evs) as -> by (rewrite Htr0 in Htr; exact (app_inv_head _ _ _ Htr)).
  split; [exact Hro|]. split; [|split; [|exact Hab]].
  - intros Hin. unfold _folder_size in Hrun. apply bind_inv in Hrun.
    destruct Hrun as [[ex [s1 [Hex Hk]]] | [e [Hex ->]]];
      unfold_sys Hex; apply syscall_trace in Hex; destruct Hex as [Htr1 _].
    2:{ rewrite Htr1 in Htr. apply app_inv_head in Htr. subst evs.
        destruct Hin as [Hin|[]]. discriminate. }
    destruct ex.
    + exfalso. cbn [negb] in Hk. apply bind_inv in Hk.
      destruct Hk as [[listing [s2 [Hls Hk]]] | [e [Hls ->]]];
        unfold_sys Hls; apply syscall_trace in Hls; destruct Hls as [Htr2 _].
      * destruct (folder_size_loop_spec _ _ _ _ _ Hk) as [levs [Htr3 [Hev _]]].
        rewrite Htr3, Htr2, Htr1, <- !app_assoc in Htr. apply app_inv_head in Htr.
        subst evs. destruct Hin as [Hin|[Hin|Hin]]; try discriminate.
        destruct (Hev _ Hin) as [f [_ [[b Hb]|[o Ho]]]]; discriminate.
      * rewrite Htr2, Htr1, <- !app_assoc in Htr. apply app_inv_head in Htr.
        subst evs. destruct Hin as [Hin|[Hin|[]]]; discriminate.
    + cbn [negb] in Hk. injection Hk as <- <-.
      rewrite Htr1 in Htr. apply app_inv_head in Htr. subst evs. split; reflexivity.
  - intros n ->.
    assert (Hn : n = stat_sizes evs) by exact (folder_size_sum _ _ _ _ _ Hrun Htr).
    split; [exact Hn|]. intros Hpos. rewrite Hn. apply stat_sizes_nonneg. exact Hpos.
Qed.

(** *** The reclaim sweep and the node without its directory *)

Lemma reads_no_unlink_in (evs : list Event) (f : Path) (o : res unit) :
  Forall (fun ev => is_mutation ev = false) evs -> ~ In (EvUnlink f o) evs.
Proof.
  intros Hro Hin. rewrite Forall_forall in Hro. specialize (Hro _ Hin).
  discriminate.
Qed.

(** X8: the outcomes of [_clear_user_trash].  It never unlinks; when it
    raises it has removed nothing; when it returns, either the trash folder
    was reported missing and nothing else was called, or the only mutating
    call is one [rmtree] of the trash folder, made last: a failure of that
    call is reported in the returned line instead of raised, and the size
    reported as freed is the sum of the sizes the [stat] calls of the
    measurement reported before the removal. *)
Theorem X8_trash_sweep_outcomes :
  forall (s s' : St W) (r : res LogLine) (evs : list Event),
    _clear_user_trash s = (r, s') ->
    trace s' = trace s ++ evs ->
    (forall f o, ~ In (EvUnlink f o) evs)
    /\ (forall e, r = Raise e ->
        Forall (fun ev => is_mutation ev = false) evs)
    /\ (forall tl, r = Ok tl ->
        exists h,
          (tl = LTrashNotFound (path_join h ".local/share/Trash/files")
           /\ evs = [EvHome (Ok h);
                     EvExists (path_join h ".local/share/Trash/files") (Ok false)])
          \/ (exists pre ro,
                evs = EvHome (Ok h)
                      :: EvExists (path_join h ".local/share/Trash/files") (Ok true)
                      :: pre
                      ++ [EvRmtree (path_join h ".local/share/Trash/files") ro]
                /\ Forall (fun ev => is_mutation ev = false) pre
                /\ tl = match ro with
                        | Ok _ =>
                            LTrashCleared
                              (path_join h ".local/share/Trash/files")
                              (stat_sizes pre)
                        | Raise e =>
                            LTrashFailed
                              (path_join h ".local/share/Trash/files") e
                        end)).
Proof.
  intros s s' r evs Hrun Htr. unfold _clear_user_trash in Hrun.
  apply bind_inv in Hrun.
  destruct Hrun as [[h [s1 [Hhome Hk]]] | [e [Hhome ->]]];
    unfold_sys Hhome; apply syscall_trace in Hhome; destruct Hhome as [Htr1 _].
  2:{ rewrite Htr1 in Htr. apply app_inv_head in Htr. subst evs.
      split; [intros f o [Hin|[]]; discriminate|].
      split; [intros _ _; repeat constructor | intros tl Htl; discriminate]. }
  apply bind_inv in Hk.
  destruct Hk as [[ex [s2 [Hex Hk]]] | [e [Hex ->]]];
    unfold_sys Hex; apply syscall_trace in Hex; destruct Hex as [Htr2 _].
  2:{ rewrite Htr2, Htr1, <- app_assoc in Htr. apply app_inv_head in Htr.
      subst evs.
      split; [intros f o [Hin|[Hin|[]]]; discriminate|].
      split; [intros _ _; repeat constructor | intros tl Htl; discriminate]. }
  destruct ex; cbn [negb] in Hk.
  2:{ injection Hk as <- <-.
      rewrite Htr2, Htr1, <- app_assoc in Htr. apply app_inv_head in Htr.
      subst evs.
      split; [intros f o [Hin|[Hin|[]]]; discriminate|].
      split; [intros e He; discriminate|].
      intros tl [= <-]. exists h. left. split; reflexivity. }
  apply bind_inv in Hk.
  destruct Hk as [[before [s3 [Hsize Hk]]] | [e [Hsize ->]]].
  2:{ destruct (reads_only_folder_size _ _ _ _ Hsize) as [_ [pre [Htr3 [Hro _]]]].
      rewrite Htr3, Htr2, Htr1, <- !app_assoc in Htr. apply app_inv_head in Htr.
      subst evs.
      assert (Hall : Forall (fun ev => is_mutation ev = false)
                       ([EvHome (Ok h)]
                        ++ [EvExists (path_join h ".local/share/Trash/files") (Ok true)]
                        ++ pre)).
      { apply Forall_app. split; [repeat constructor|].
        apply Forall_app. split; [repeat constructor | exact Hro]. }
      split; [intros f o; apply reads_no_unlink_in; exact Hall|].
      split; [intros _ _; exact Hall | intros tl Htl; discriminate]. }
  destruct (reads_only_folder_size _ _ _ _ Hsize) as [_ [pre [Htr3 [Hro _]]]].
  assert (Hbefore : before = stat_sizes pre)
    by exact (folder_size_sum _ _ _ _ _ Hsize Htr3).
  apply bind_inv in Hk.
  destruct Hk as [[ro [s4 [Htry Hk]]] | [e [Htry _]]];
    apply try_inv in Htry; destruct Htry as [r0 [Hrm Hr0]];
    [injection Hr0 as -> | discriminate].
  unfold_sys Hrm. apply syscall_trace in Hrm. destruct Hrm as [Htr4 _].
  assert (Hevs : evs = EvHome (Ok h)
                      :: EvExists (path_join h ".local/share/Trash/files") (Ok true)
                      :: pre
                      ++ [EvRmtree (path_join h ".local/share/Trash/files") r0]).
  { assert (Hs' : trace s' = trace s4) by (destruct r0; injection Hk as _ <-; reflexivity).
    rewrite Hs', Htr4, Htr3, Htr2, Htr1, <- !app_assoc in Htr.
    apply app_inv_head in Htr. subst evs. reflexivity. }
  split; [|split].
  - intros f o Hin. rewrite Hevs in Hin.
    destruct Hin as [Hin|[Hin|Hin]]; try discriminate.
    apply in_app_or in Hin. destruct Hin as [Hin|[Hin|[]]]; [|discriminate].
    exact (reads_no_unlink_in _ _ _ Hro Hin).
  - intros e He. destruct r0; injection Hk as <- _; discriminate.
  - intros tl Htl. exists h. right. exists pre, r0.
    split; [exact Hevs|]. split; [exact Hro|].
    rewrite <- Hbefore. destruct r0; injection Hk as <- _; injection Htl as <-; reflexivity.
Qed.

(** X9: when the resolved LoRA path does not exist, [run] asks for the
    current directory and probes the usage of that directory (not of the
    LoRA path); it makes no other call; it returns the two warning lines,
    the same percentage as usage before and after, and zero files and
    bytes, or raises what the failing call raised. *)
Theorem X9_run_missing_directory :
  forall (r : RunArgs) (s s1 s2 s' : St W) (dir : Path) (out : res NodeOutput),
    sys_resolve (loras_path r) s = (Ok dir, s1) ->
    sys_exists dir s1 = (Ok false, s2) ->
    run r s = (out, s') ->
    exists rc,
      match rc with
      | Raise e => trace s' = trace s2 ++ [EvCwd rc] /\ out = Raise e
      | Ok c =>
          exists ru,
            trace s' = trace s2 ++ [EvCwd rc; EvDiskUsage c ru]
            /\ out = match ru with
                     | Raise e => Raise e
                     | Ok u =>
                         Ok (mkOut [LWarnMissing dir; LCurrentUsage (percent_of u)]
                               (percent_of u) (percent_of u) 0 0)
                     end
      end.
Proof.
  intros r s s1 s2 s' dir out Hres Hex Hrun.
  unfold run in Hrun. unfold bind at 1 in Hrun. rewrite Hres in Hrun.
  unfold bind at 1 in Hrun. rewrite Hex in Hrun. cbn [negb] in Hrun.
  apply bind_inv in Hrun.
  destruct Hrun as [[c [s3 [Hcwd Hk]]] | [e [Hcwd ->]]];
    unfold_sys Hcwd; apply syscall_trace in Hcwd; destruct Hcwd as [Htr1 _].
  2:{ exists (Raise e). split; [exact Htr1 | reflexivity]. }
  exists (Ok c). apply bind_inv in Hk.
  destruct Hk as [[used [s4 [Hprobe Hk]]] | [e [Hprobe ->]]];
    destruct (disk_usage_percent_inv _ _ _ _ Hprobe)
      as [ru [Htr2 [_ [_ [_ Hpct]]]]]; exists ru.
  - destruct ru as [u|e]; [injection Hpct as -> | discriminate].
    injection Hk as <- <-. split; [|reflexivity].
    rewrite Htr2, Htr1, <- app_assoc. reflexivity.
  - destruct ru as [u|e']; [discriminate | injection Hpct as ->].
    split; [|reflexivity]. rewrite Htr2, Htr1, <- app_assoc. reflexivity.
Qed.

(** *** The threshold and the limit *)

(** X10: the threshold test is inclusive on the computed percentage.  With
    [before] the value the first [_disk_usage_percent] call returns, a
    returning engine reports it as the usage before and is triggered
    exactly when [before] is at least the threshold: a computed percentage
    equal to the threshold triggers the purge. *)
Theorem X10_threshold_inclusive :
  forall (a : PurgeArgs) (s s1 s' : St W) (before : Q) (res : PurgeResult),
    _disk_usage_percent (root_for_usage a) s = (Ok before, s1) ->
    _purge_oldest_until_below a s = (Ok res, s') ->
    before_used_pct res = before
    /\ (triggered res = true <-> (threshold_percent a <= before)%Q)
    /\ (triggered res = false <-> (before < threshold_percent a)%Q).
Proof.
  intros a s s1 s' before res Hprobe Hrun.
  unfold _purge_oldest_until_below in Hrun. apply bind_inv in Hrun.
  destruct Hrun as [[b [s1' [Hprobe' Hk]]] | [e [_ He]]]; [|discriminate].
  rewrite Hprobe in Hprobe'. injection Hprobe' as <- <-.
  destruct (Qltb before (threshold_percent a)) eqn:Ethr.
  - injection Hk as <- _. cbn [before_used_pct triggered].
    apply Qltb_lt in Ethr. split; [reflexivity|]. split; split; intro Hx;
      try discriminate; try reflexivity; try exact Ethr.
    exfalso. exact (Qlt_not_le _ _ Ethr Hx).
  - apply bind_inv in Hk.
    destruct Hk as [[files [s2 [_ Hk]]] | [e [_ He]]]; [|discriminate].
    apply bind_inv in Hk.
    destruct Hk as [[sorted [s3 [_ Hk]]] | [e [_ He]]]; [|discriminate].
    apply bind_inv in Hk.
    destruct Hk as [[now [s4 [_ Hk]]] | [e [_ He]]]; [|discriminate].
    apply bind_inv in Hk.
    destruct Hk as [[acc [s5 [_ Hk]]] | [e [_ He]]]; [|discriminate].
    apply bind_inv in Hk.
    destruct Hk as [[after [s6 [_ Hk]]] | [e [_ He]]]; [|discriminate].
    injection Hk as <- _. cbn [before_used_pct triggered].
    apply Qltb_ge in Ethr. split; [reflexivity|]. split; split; intro Hx;
      try discriminate; try reflexivity; try exact Ethr.
    exfalso. exact (Qlt_not_le _ _ Hx Ethr).
Qed.

Lemma loop_run_at_limit (a : PurgeArgs) (now : Q) files acc evs r :
  loop_run a now files acc evs r ->
  limit_reached a acc = true ->
  evs = [] /\ exists acc', r = Ok acc' /\ n_deleted acc' = n_deleted acc
                           /\ n_bytes acc' = n_bytes acc
                           /\ deletions (lines acc') = deletions (lines acc).
Proof.
  intros Hrun Hlim0.
  inversion Hrun; subst; try congruence.
  - split; [reflexivity|]. exists acc. repeat split.
  - split; [reflexivity|]. eexists. split; [reflexivity|]. cbn.
    rewrite deletions_app. cbn. rewrite app_nil_r. repeat split.
Qed.

(** X11: a negative [delete_count_limit] is a limit already reached: the
    engine makes no mutating call and reports no deletion. *)
Theorem X11_negative_limit_deletes_nothing :
  forall (a : PurgeArgs) (s s' : St W) (r : res PurgeResult) (evs : list Event),
    delete_count_limit a < 0 ->
    _purge_oldest_until_below a s = (r, s') ->
    trace s' = trace s ++ evs ->
    Forall (fun ev => is_mutation ev = false) evs
    /\ (forall res, r = Ok res ->
        files_deleted res = 0 /\ bytes_freed res = 0
        /\ deletions (log res) = []).
Proof.
  intros a s s' r evs Hneg Hrun Htr.
  destruct (engine_sound _ _ _ _ Hrun) as [_ [evs0 [Htr0 Her]]].
  assert (evs0 = evs) as -> by (rewrite Htr0 in Htr; exact (app_inv_head _ _ _ Htr)).
  assert (Hlim : forall before, limit_reached a (acc0 a before) = true).
  { intros before. unfold limit_reached. cbn [acc0 n_deleted].
    apply andb_true_iff. split.
    - apply negb_true_iff. apply Z.eqb_neq. lia.
    - apply Z.leb_le. lia. }
  split.
  - inversion Her as
        [ e | u Hthr | u scan e Hthr Hscan
        | u scan files levs e Hthr Hscan Hloop
        | u scan files levs acc e Hthr Hscan Hloop
        | u scan files levs acc u' Hthr Hscan Hloop ]; subst;
      try (repeat constructor; fail).
    + constructor; [reflexivity|]. exact (proj1 Hscan).
    + destruct (loop_run_at_limit _ _ _ _ _ _ Hloop (Hlim _)) as [_ [acc' [Hr _]]].
      discriminate.
    + destruct (loop_run_at_limit _ _ _ _ _ _ Hloop (Hlim _)) as [-> _].
      constructor; [reflexivity|]. apply Forall_app. split; [exact (proj1 Hscan)|].
      repeat constructor.
    + destruct (loop_run_at_limit _ _ _ _ _ _ Hloop (Hlim _)) as [-> _].
      constructor; [reflexivity|]. apply Forall_app. split; [exact (proj1 Hscan)|].
      repeat constructor.
  - intros res ->.
    inversion Her as
        [ | u Hthr | | | | u scan files levs acc u' Hthr Hscan Hloop ]; subst.
    + repeat split.
    + destruct (loop_run_at_limit _ _ _ _ _ _ Hloop (Hlim _))
        as [_ [acc' [Hr [Hn [Hb Hd]]]]].
      injection Hr as <-. cbn [files_deleted bytes_freed log].
      rewrite Hn, Hb. cbn [acc0 n_deleted n_bytes]. repeat split.
      change (deletions ([LFreedTotal (n_bytes acc) (n_deleted acc);
                          LUsageBeforeAfter (percent_of u) (percent_of u'); LBlank]
                         ++ lines acc) = []).
      rewrite deletions_app, Hd. reflexivity.
Qed.

(** *** The calls of the loop *)

Lemma attempt_run_returned (a : PurgeArgs) f size acc att acc' :
  dry_run a = false ->
  attempt_run a f size acc att acc' ->
  forall f0 o, In (EvUnlink f0 o) att ->
    o = Ok tt \/ o = Raise FileNotFoundError ->
    f0 = f /\ lines acc' = lines acc ++ [LDeleted f size].
Proof.
  intros Hlive Hatt f0 o Hin Ho.
  inversion Hatt; subst; try congruence;
    destruct Hin as [Hin|[]]; injection Hin as <- <-;
    destruct Ho as [Ho|Ho]; try discriminate; split; reflexivity.
Qed.

Lemma loop_run_returned_logged (a : PurgeArgs) (now : Q) files acc evs r :
  dry_run a = false ->
  loop_run a now files acc evs r ->
  forall acc', r = Ok acc' ->
  exists new,
    lines acc' = lines acc ++ new
    /\ forall f0 o, In (EvUnlink f0 o) evs ->
       o = Ok tt \/ o = Raise FileNotFoundError ->
       exists st, In (EvStat f0 (Ok st)) evs /\ In (LDeleted f0 (st_size st)) new.
Proof.
  intros Hlive Hrun. loop_induction Hrun; intros acc' Hr.
  - injection Hr as <-. exists []. rewrite app_nil_r. split; [reflexivity|].
    intros ? ? [].
  - injection Hr as <-. eexists. split; [reflexivity|]. intros ? ? [].
  - destruct (IH acc' Hr) as [new [Hl Hin]]. exists new. split; [exact Hl|].
    intros f0 o [Hx|Hx] Ho; [discriminate|].
    destruct (Hin f0 o Hx Ho) as [st [Hs Hd]]. exists st. split; [right|]; assumption.
  - discriminate.
  - destruct (IH acc' Hr) as [new [Hl Hin]]. exists new. split; [exact Hl|].
    intros f0 o [Hx|Hx] Ho; [discriminate|].
    destruct (Hin f0 o Hx Ho) as [st0 [Hs Hd]]. exists st0. split; [right|]; assumption.
  - discriminate.
  - injection Hr as <-.
    destruct (attempt_run_accounting _ _ _ _ _ _ Hatt) as [l [Hl1 _]].
    exists ([l] ++ [LReached (percent_of u) (target_percent a)]). split.
    { cbn [logged lines]. rewrite Hl1, <- app_assoc. reflexivity. }
    intros f0 o [Hx|Hx] Ho; [discriminate|].
    apply in_app_or in Hx. destruct Hx as [Hx|[Hx|[]]]; [|discriminate].
    destruct (attempt_run_returned _ _ _ _ _ _ Hlive Hatt _ _ Hx Ho) as [-> Hl2].
    exists st. split; [left; reflexivity|].
    rewrite Hl1 in Hl2. apply app_inv_head in Hl2. injection Hl2 as ->.
    left. reflexivity.
  - destruct (IH acc' Hr) as [new [Hl Hin]].
    destruct (attempt_run_accounting _ _ _ _ _ _ Hatt) as [l [Hl1 _]].
    exists ([l] ++ new). split.
    { rewrite Hl, Hl1, <- app_assoc. reflexivity. }
    intros f0 o [Hx|Hx] Ho; [discriminate|].
    apply in_app_or in Hx. destruct Hx as [Hx|[Hx|Hx]]; [|discriminate|].
    + destruct (attempt_run_returned _ _ _ _ _ _ Hlive Hatt _ _ Hx Ho) as [-> Hl2].
      exists st. split; [left; reflexivity|].
      rewrite Hl1 in Hl2. apply app_inv_head in Hl2. injection Hl2 as ->.
      left. reflexivity.
    + destruct (Hin f0 o Hx Ho) as [st0 [Hs Hd]]. exists st0. split.
      * right. apply in_or_app. right. right. exact Hs.
      * apply in_or_app. right. exact Hd.
Qed.

(** X13: in live mode every [unlink] that returned is reported: the log of
    a returning engine has a [Deleted] line for that file with the size the
    loop's [stat] reported.  This includes an [unlink] that found the file
    already gone ([missing_ok=True]): the file is counted as deleted. *)
Theorem X13_returned_unlinks_counted :
  forall (a : PurgeArgs) (s s' : St W) (res : PurgeResult) (evs : list Event),
    dry_run a = false ->
    _purge_oldest_until_below a s = (Ok res, s') ->
    trace s' = trace s ++ evs ->
    forall f o,
      In (EvUnlink f o) evs ->
      o = Ok tt \/ o = Raise FileNotFoundError ->
      exists st,
        In (EvStat f (Ok st)) evs
        /\ In (LDeleted f (st_size st)) (log res).
Proof.
  intros a s s' res evs Hlive Hrun Htr f o Hin Ho.
  destruct (engine_sound _ _ _ _ Hrun) as [_ [evs0 [Htr0 Her]]].
  assert (evs0 = evs) as -> by (rewrite Htr0 in Htr; exact (app_inv_head _ _ _ Htr)).
  inversion Her as
      [ | u Hthr | | | | u scan files levs acc u' Hthr Hscan Hloop ]; subst.
  - destruct Hin as [Hin|[]]. discriminate.
  - destruct Hin as [Hin|Hin]; [discriminate|].
    apply in_app_or in Hin. destruct Hin as [Hin|Hin].
    { exfalso. exact (scan_no_unlink _ _ _ _ _ Hscan Hin). }
    destruct Hin as [Hin|Hin]; [discriminate|].
    apply in_app_or in Hin. destruct Hin as [Hin|[Hin|[]]]; [|discriminate].
    destruct (loop_run_returned_logged _ _ _ _ _ _ Hlive Hloop acc eq_refl)
      as [new [Hl Hnew]].
    destruct (Hnew f o Hin Ho) as [st [Hs Hd]]. exists st. split.
    + right. apply in_or_app. right. right. apply in_or_app. left. exact Hs.
    + cbn [log]. rewrite Hl. right. right. right.
      apply in_or_app. right. exact Hd.
Qed.

Lemma app_cons_eq_cons {A : Type} (pre post l : list A) (x y : A) :
  pre ++ x :: post = y :: l ->
  (pre = [] /\ x = y /\ post = l)
  \/ (exists pre', pre = y :: pre' /\ pre' ++ x :: post = l).
Proof.
  destruct pre as [|z pre']; cbn; intros Heq; injection Heq as E1 E2.
  - left. repeat split; assumption.
  - right. exists pre'. subst z. split; [reflexivity | exact E2].
Qed.

Lemma attempt_run_shape (a : PurgeArgs) f size acc att acc' :
  attempt_run a f size acc att acc' ->
  att = [] \/ exists o, att = [EvUnlink f o].
Proof. intros Hatt. inversion Hatt; subst; eauto. Qed.

Ltac split_at Heq q :=
  let E1 := fresh "E" in
  let E2 := fresh "E" in
  apply app_cons_eq_cons in Heq;
  destruct Heq as [(-> & E1 & E2) | (q & -> & Heq)].

Lemma loop_run_unlink_then_probe (a : PurgeArgs) (now : Q) files acc evs r :
  loop_run a now files acc evs r ->
  forall pre f0 o post,
    evs = pre ++ EvUnlink f0 o :: post ->
    exists ru post', post = EvDiskUsage (root_for_usage a) ru :: post'.
Proof.
  intros Hrun. loop_induction Hrun; intros pre f0 o post Heq; symmetry in Heq.
  - destruct pre; discriminate.
  - destruct pre; discriminate.
  - split_at Heq q1; [discriminate|]. symmetry in Heq. eauto.
  - split_at Heq q1; [discriminate|]. destruct q1; discriminate.
  - split_at Heq q1; [discriminate|]. symmetry in Heq. eauto.
  - split_at Heq q1; [discriminate|].
    destruct (attempt_run_shape _ _ _ _ _ _ Hatt) as [->|[o' ->]]; cbn in Heq.
    + split_at Heq q2; [discriminate|]. destruct q2; discriminate.
    + split_at Heq q2; [subst; eauto|].
      split_at Heq q3; [discriminate|]. destruct q3; discriminate.
  - split_at Heq q1; [discriminate|].
    destruct (attempt_run_shape _ _ _ _ _ _ Hatt) as [->|[o' ->]]; cbn in Heq.
    + split_at Heq q2; [discriminate|]. destruct q2; discriminate.
    + split_at Heq q2; [subst; eauto|].
      split_at Heq q3; [discriminate|]. destruct q3; discriminate.
  - split_at Heq q1; [discriminate|].
    destruct (attempt_run_shape _ _ _ _ _ _ Hatt) as [->|[o' ->]]; cbn in Heq.
    + split_at Heq q2; [discriminate|]. symmetry in Heq. eauto.
    + split_at Heq q2; [subst; eauto|].
      split_at Heq q3; [discriminate|]. symmetry in Heq. eauto.
Qed.

Lemma loop_run_stops_at_target (a : PurgeArgs) (now : Q) files acc evs r :
  loop_run a now files acc evs r ->
  forall pre p u post,
    evs = pre ++ EvDiskUsage p (Ok u) :: post ->
    p = root_for_usage a
    /\ (Qltb (percent_of u) (target_percent a) = true ->
        post = []
        /\ exists acc' ls,
            r = Ok acc'
            /\ lines acc' = ls ++ [LReached (percent_of u) (target_percent a)]).
Proof.
  intros Hrun. loop_induction Hrun; intros pre p u0 post Heq; symmetry in Heq.
  - destruct pre; discriminate.
  - destruct pre; discriminate.
  - split_at Heq q1; [discriminate|]. symmetry in Heq. eauto.
  - split_at Heq q1; [discriminate|]. destruct q1; discriminate.
  - split_at Heq q1; [discriminate|]. symmetry in Heq. eauto.
  - split_at Heq q1; [discriminate|].
    destruct (attempt_run_shape _ _ _ _ _ _ Hatt) as [->|[o' ->]]; cbn in Heq.
    + split_at Heq q2; [discriminate|]. destruct q2; discriminate.
    + split_at Heq q2; [discriminate|].
      split_at Heq q3; [discriminate|]. destruct q3; discriminate.
  - assert (Hhere : forall post0 : list Event,
               EvDiskUsage p (Ok u0) = EvDiskUsage (root_for_usage a) (Ok u) ->
               post0 = [] ->
               p = root_for_usage a
               /\ (Qltb (percent_of u0) (target_percent a) = true ->
                   post0 = []
                   /\ exists acc' ls,
                       Ok (logged acc1 (LReached (percent_of u) (target_percent a)))
                       = Ok acc'
                       /\ lines acc'
                          = ls ++ [LReached (percent_of u0) (target_percent a)])).
    { intros post0 Hev ->. injection Hev as -> ->. split; [reflexivity|].
      intros _. split; [reflexivity|]. eexists _, _. split; reflexivity. }
    split_at Heq q1; [discriminate|].
    destruct (attempt_run_shape _ _ _ _ _ _ Hatt) as [->|[o' ->]]; cbn in Heq.
    + split_at Heq q2; [apply Hhere; assumption|]. destruct q2; discriminate.
    + split_at Heq q2; [discriminate|].
      split_at Heq q3; [apply Hhere; assumption|]. destruct q3; discriminate.
  - assert (Hhere : EvDiskUsage p (Ok u0) = EvDiskUsage (root_for_usage a) (Ok u) ->
               p = root_for_usage a
               /\ (Qltb (percent_of u0) (target_percent a) = true ->
                   post = []
                   /\ exists acc' ls,
                       r = Ok acc'
                       /\ lines acc'
                          = ls ++ [LReached (percent_of u0) (target_percent a)])).
    { intros Hev. injection Hev as -> ->. split; [reflexivity|].
      intros Hx. congruence. }
    split_at Heq q1; [discriminate|].
    destruct (attempt_run_shape _ _ _ _ _ _ Hatt) as [->|[o' ->]]; cbn in Heq.
    + split_at Heq q2; [apply Hhere; assumption|]. symmetry in Heq. eauto.
    + split_at Heq q2; [discriminate|].
      split_at Heq q3; [apply Hhere; assumption|]. symmetry in Heq. eauto.
Qed.

(** X12: the order of the calls of the loop.  Every [unlink] is followed
    at once by a probe of the usage root; every probe of the loop is a
    probe of that root; and a probe that reads below the target is the
    last call of the loop, which then returns with the [Reached target]
    line as its last line. *)
Theorem X12_loop_call_order :
  forall (a : PurgeArgs) (now : Q) (files : list Path) (acc : Acc)
         (s s' : St W) (r : res Acc) (evs : list Event),
    purge_loop a now files acc s = (r, s') ->
    trace s' = trace s ++ evs ->
    (forall pre f o post,
        evs = pre ++ EvUnlink f o :: post ->
        exists ru post', post = EvDiskUsage (root_for_usage a) ru :: post')
    /\ (forall pre p u post,
        evs = pre ++ EvDiskUsage p (Ok u) :: post ->
        p = root_for_usage a
        /\ ((percent_of u < target_percent a)%Q ->
            post = []
            /\ exists acc' ls,
                r = Ok acc'
                /\ lines acc'
                   = ls ++ [LReached (percent_of u) (target_percent a)])).
Proof.
  intros a now files acc s s' r evs Hrun Htr.
  destruct (purge_loop_sound _ _ _ _ _ _ _ Hrun) as [evs0 [Htr0 [_ Hloop]]].
  assert (evs0 = evs) as -> by (rewrite Htr0 in Htr; exact (app_inv_head _ _ _ Htr)).
  split.
  - exact (loop_run_unlink_then_probe _ _ _ _ _ _ Hloop).
  - intros pre p u post Heq.
    destruct (loop_run_stops_at_target _ _ _ _ _ _ Hloop _ _ _ _ Heq) as [Hp Hstop].
    split; [exact Hp|]. intros Hlt. apply Hstop. apply Qltb_lt. exact Hlt.
Qed.

(** *** Failures are fatal at once *)

Lemma stops_at_failure_prefix {A : Type} (l evs : list Event) (r : res A) :
  (forall ev e, In ev l -> ~ abort_cause ev e) ->
  stops_at_failure evs r -> stops_at_failure (l ++ evs) r.
Proof.
  intros Hl Hs. destruct r as [x|e]; cbn in *.
  - intros ev e Hin. apply in_app_or in Hin. destruct Hin; eauto.
  - destruct Hs as [pre [ev [-> [Hab Hpre]]]]. exists (l ++ pre), ev.
    split; [apply app_assoc|]. split; [exact Hab|].
    intros ev' e' Hin. apply in_app_or in Hin. destruct Hin; eauto.
Qed.

Lemma fails_fast_ret {A : Type} (x : A) : fails_fast (@ret W A x).
Proof.
  intros s r s' Hrun. injection Hrun as <- <-. exists [].
  rewrite app_nil_r. split; [reflexivity|]. intros ev e [].
Qed.

Lemma fails_fast_bind {A B : Type} (m : M W A) (k : A -> M W B) :
  fails_fast m -> (forall x, fails_fast (k x)) -> fails_fast (bind m k).
Proof.
  intros Hm Hk s r s' Hrun. apply bind_inv in Hrun.
  destruct Hrun as [[x [s1 [Hmx Hkx]]] | [e [Hme ->]]].
  - destruct (Hm _ _ _ Hmx) as [evs1 [Htr1 Hs1]].
    destruct (Hk x _ _ _ Hkx) as [evs2 [Htr2 Hs2]].
    exists (evs1 ++ evs2). split; [rewrite Htr2, Htr1, app_assoc; reflexivity|].
    apply stops_at_failure_prefix; assumption.
  - destruct (Hm _ _ _ Hme) as [evs1 [Htr1 Hs1]]. exists evs1.
    split; [exact Htr1 | exact Hs1].
Qed.

Lemma fails_fast_syscall {A : Type} (op : W -> res A * W) (ev : res A -> Event) :
  (forall x e, ~ abort_cause (ev (Ok x)) e) ->
  (forall e, abort_cause (ev (Raise e)) e) ->
  fails_fast (syscall op ev).
Proof.
  intros Hok Hraise s r s' Hrun. apply syscall_trace in Hrun.
  destruct Hrun as [Htr _]. exists [ev r]. split; [exact Htr|].
  destruct r as [x|e]; cbn.
  - intros ev' e [<-|[]]. apply Hok.
  - exists [], (ev (Raise e)). split; [reflexivity|]. split; [apply Hraise|].
    intros ev' e' [].
Qed.

Ltac fails_fast_call :=
  apply fails_fast_syscall; cbn; [intros x e Hx; discriminate | reflexivity].

Lemma fails_fast_percent (p : Path) : fails_fast (_disk_usage_percent p).
Proof.
  unfold _disk_usage_percent. apply fails_fast_bind.
  - unfold sys_disk_usage. fails_fast_call.
  - intros u. apply fails_fast_ret.
Qed.

Lemma fails_fast_time : fails_fast (@sys_time W).
Proof.
  intros s r s' Hrun. unfold sys_time in Hrun. injection Hrun as <- <-.
  exists [EvTime (clock s)]. split; [reflexivity|].
  intros ev e [<-|[]] Hab. exact Hab.
Qed.

Lemma fails_fast_mtime_safe (p : Path) : fails_fast (_mtime_safe p).
Proof.
  intros s r s' Hrun. destruct (mtime_safe_inv _ _ _ _ Hrun) as [_ [rs Hrs]].
  destruct rs as [st|e].
  - destruct Hrs as [-> Htr]. eexists. split; [exact Htr|].
    intros ev e [<-|[]] [Hab _]. discriminate.
  - destruct e; destruct Hrs as [-> Htr]; eexists; (split; [exact Htr|]); cbn.
    + intros ev e [<-|[<-|[]]] Hab; [|exact Hab].
      destruct Hab as [Hab Hne]. injection Hab as <-. congruence.
    + eexists [], _. split; [reflexivity|].
      split; [split; [reflexivity|discriminate] | intros ? ? []].
    + eexists [], _. split; [reflexivity|].
      split; [split; [reflexivity|discriminate] | intros ? ? []].
    + eexists [], _. split; [reflexivity|].
      split; [split; [reflexivity|discriminate] | intros ? ? []].
Qed.

Lemma fails_fast_collect_loop (allowed exclude : list string) :
  forall listing files, fails_fast (collect_loop allowed exclude listing files).
Proof.
  induction listing as [|f rest IH]; intros files; cbn [collect_loop].
  - apply fails_fast_ret.
  - apply fails_fast_bind; [unfold sys_is_file; fails_fast_call|].
    intros isf. destruct (negb isf); [apply IH|].
    destruct (suffix_rejected allowed f); [apply IH|].
    destruct (name_excluded exclude f); apply IH.
Qed.

Lemma fails_fast_collect (dir : Path) (allowed exclude : list string) :
  fails_fast (_collect_lora_files dir allowed exclude).
Proof.
  unfold _collect_lora_files.
  apply fails_fast_bind; [unfold sys_exists; fails_fast_call|].
  intros ex. destruct (negb ex); [apply fails_fast_ret|].
  apply fails_fast_bind; [unfold sys_is_dir; fails_fast_call|].
  intros isd. destruct (negb isd); [apply fails_fast_ret|].
  apply fails_fast_bind; [unfold sys_rglob; fails_fast_call|].
  intros listing. apply fails_fast_collect_loop.
Qed.

Lemma fails_fast_decorate :
  forall l, fails_fast (decorate _mtime_safe l).
Proof.
  induction l as [|p rest IH]; cbn [decorate].
  - apply fails_fast_ret.
  - apply fails_fast_bind; [apply fails_fast_mtime_safe|].
    intros k. apply fails_fast_bind; [exact IH|].
    intros ks. apply fails_fast_ret.
Qed.

Lemma attempt_run_no_abort (a : PurgeArgs) f size acc att acc' :
  attempt_run a f size acc att acc' ->
  forall ev e, In ev att -> ~ abort_cause ev e.
Proof.
  intros Hatt ev e Hin Hab.
  destruct (attempt_run_events _ _ _ _ _ _ Hatt ev Hin) as [o ->]. exact Hab.
Qed.

Lemma loop_run_stops (a : PurgeArgs) (now : Q) files acc evs r :
  loop_run a now files acc evs r -> stops_at_failure evs r.
Proof.
  intros Hrun. loop_induction Hrun.
  - intros ev e [].
  - intros ev e [].
  - apply (stops_at_failure_prefix [EvStat f (Raise FileNotFoundError)]); [|exact IH].
    intros ev e [<-|[]] [Hab Hne]. injection Hab as <-. congruence.
  - exists [], (EvStat f (Raise e)). split; [reflexivity|].
    split; [split; [reflexivity|exact He] | intros ? ? []].
  - apply (stops_at_failure_prefix [EvStat f (Ok st)]); [|exact IH].
    intros ev e [<-|[]] [Hab _]. discriminate.
  - exists (EvStat f (Ok st) :: att), (EvDiskUsage (root_for_usage a) (Raise e)).
    split; [reflexivity|]. split; [reflexivity|].
    intros ev' e' [<-|Hin]; [intros [Hab _]; discriminate|].
    exact (attempt_run_no_abort _ _ _ _ _ _ Hatt _ _ Hin).
  - intros ev e [<-|Hin]; [intros [Hab _]; discriminate|].
    apply in_app_or in Hin. destruct Hin as [Hin|[<-|[]]].
    + exact (attempt_run_no_abort _ _ _ _ _ _ Hatt _ _ Hin).
    + intros Hab. discriminate.
  - change (EvStat f (Ok st) :: att ++ EvDiskUsage (root_for_usage a) (Ok u) :: evs)
      with ((EvStat f (Ok st) :: att) ++ [EvDiskUsage (root_for_usage a) (Ok u)] ++ evs).
    apply stops_at_failure_prefix.
    { intros ev' e' [<-|Hin]; [intros [Hab _]; discriminate|].
      exact (attempt_run_no_abort _ _ _ _ _ _ Hatt _ _ Hin). }
    apply stops_at_failure_prefix; [|exact IH].
    intros ev' e' [<-|[]] Hab. discriminate.
Qed.

Lemma fails_fast_purge_loop (a : PurgeArgs) (now : Q) files acc :
  fails_fast (purge_loop a now files acc).
Proof.
  intros s r s' Hrun.
  destruct (purge_loop_sound _ _ _ _ _ _ _ Hrun) as [evs [Htr [_ Hloop]]].
  exists evs. split; [exact Htr|]. exact (loop_run_stops _ _ _ _ _ _ Hloop).
Qed.

Lemma fails_fast_engine (a : PurgeArgs) :
  fails_fast (_purge_oldest_until_below a).
Proof.
  unfold _purge_oldest_until_below.
  apply fails_fast_bind; [apply fails_fast_percent|]. intros before.
  destruct (Qltb before (threshold_percent a)); [apply fails_fast_ret|].
  apply fails_fast_bind; [apply fails_fast_collect|]. intros files.
  apply fails_fast_bind.
  { unfold list_sort. apply fails_fast_bind; [apply fails_fast_decorate|].
    intros keyed. apply fails_fast_ret. }
  intros sorted. apply fails_fast_bind; [apply fails_fast_time|]. intros now.
  apply fails_fast_bind; [apply fails_fast_purge_loop|]. intros acc.
  apply fails_fast_bind; [apply fails_fast_percent|]. intros after.
  apply fails_fast_ret.
Qed.

(** X14: the engine stops at the first uncaught failure.  When it returns,
    no probe, no enumeration call and no [stat] (other than with
    [FileNotFoundError]) failed during the run; when it raises, the failing
    call is the last call made and no call before it had failed in that
    way. *)
Theorem X14_engine_stops_at_first_failure :
  forall (a : PurgeArgs) (s s' : St W) (r : res PurgeResult) (evs : list Event),
    _purge_oldest_until_below a s = (r, s') ->
    trace s' = trace s ++ evs ->
    (forall res, r = Ok res -> forall ev e, In ev evs -> ~ abort_cause ev e)
    /\ (forall e, r = Raise e ->
        exists pre ev,
          evs = pre ++ [ev]
          /\ abort_cause ev e
          /\ forall ev' e', In ev' pre -> ~ abort_cause ev' e').
Proof.
  intros a s s' r evs Hrun Htr.
  destruct (fails_fast_engine a _ _ _ Hrun) as [evs0 [Htr0 Hs]].
  assert (evs0 = evs) as -> by (rewrite Htr0 in Htr; exact (app_inv_head _ _ _ Htr)).
  split.
  - intros res ->. exact Hs.
  - intros e ->. exact Hs.
Qed.

(** *** The candidates of the engine *)

Lemma unlinked_app (l1 l2 : list Event) :
  unlinked (l1 ++ l2) = unlinked l1 ++ unlinked l2.
Proof.
  induction l1 as [|ev l1 IH]; [reflexivity|].
  destruct ev; cbn; rewrite IH; reflexivity.
Qed.

Lemma unlinked_reads (evs : list Event) :
  Forall (fun ev => is_mutation ev = false) evs -> unlinked evs = [].
Proof.
  induction 1 as [|ev evs Hev _ IH]; [reflexivity|].
  destruct ev; cbn; try exact IH. discriminate.
Qed.

Lemma unlinked_In (evs : list Event) (f : Path) :
  In f (unlinked evs) <-> exists o, In (EvUnlink f o) evs.
Proof.
  induction evs as [|ev evs IH]; cbn.
  - split; [intros [] | intros [o []]].
  - split.
    + intros Hin. destruct ev; try (apply IH in Hin; destruct Hin as [o Ho]; eauto).
      destruct Hin as [<-|Hin]; [eauto|].
      apply IH in Hin. destruct Hin as [o Ho]. eauto.
    + intros [o [Heq|Hin]].
      * subst ev. left. reflexivity.
      * assert (Hx : In f (unlinked evs)) by (apply IH; eauto).
        destruct ev; try exact Hx. right. exact Hx.
Qed.

Lemma attempt_run_unlinked (a : PurgeArgs) f size acc att acc' :
  attempt_run a f size acc att acc' -> subseq (unlinked att) [f].
Proof.
  intros Hatt.
  inversion Hatt; subst; cbn;
    first [apply subseq_nil | apply subseq_keep; apply subseq_nil].
Qed.

Lemma subseq_one_app {A : Type} (x : A) (l1 l2 rest : list A) :
  subseq l1 [x] -> subseq l2 rest -> subseq (l1 ++ l2) (x :: rest).
Proof.
  intros H1 H2.
  inversion H1 as [l Hl | y m1 m2 Hs | y m1 m2 Hs]; subst; cbn [app].
  - apply subseq_skip. exact H2.
  - inversion Hs; subst. apply subseq_skip. exact H2.
  - inversion Hs; subst. apply subseq_keep. exact H2.
Qed.

Lemma loop_run_unlinked (a : PurgeArgs) (now : Q) files acc evs r :
  loop_run a now files acc evs r -> subseq (unlinked evs) files.
Proof.
  intros Hrun. loop_induction Hrun; cbn [unlinked].
  - apply subseq_nil.
  - apply subseq_nil.
  - apply subseq_skip. exact IH.
  - apply subseq_nil.
  - apply subseq_skip. exact IH.
  - rewrite unlinked_app. apply subseq_one_app.
    + exact (attempt_run_unlinked _ _ _ _ _ _ Hatt).
    + apply subseq_nil.
  - rewrite unlinked_app. apply subseq_one_app.
    + exact (attempt_run_unlinked _ _ _ _ _ _ Hatt).
    + apply subseq_nil.
  - rewrite unlinked_app. apply subseq_one_app.
    + exact (attempt_run_unlinked _ _ _ _ _ _ Hatt).
    + exact IH.
Qed.

Lemma loop_run_no_rmtree (a : PurgeArgs) (now : Q) files acc evs r :
  loop_run a now files acc evs r ->
  forall p o, ~ In (EvRmtree p o) evs.
Proof.
  intros Hrun. loop_induction Hrun; intros p o Hin.
  - destruct Hin.
  - destruct Hin.
  - destruct Hin as [Hin|Hin]; [discriminate | exact (IH _ _ Hin)].
  - destruct Hin as [Hin|[]]; discriminate.
  - destruct Hin as [Hin|Hin]; [discriminate | exact (IH _ _ Hin)].
  - destruct Hin as [Hin|Hin]; [discriminate|].
    apply in_app_or in Hin. destruct Hin as [Hin|[Hin|[]]]; [|discriminate].
    destruct (attempt_run_events _ _ _ _ _ _ Hatt _ Hin) as [o' Ho]. discriminate.
  - destruct Hin as [Hin|Hin]; [discriminate|].
    apply in_app_or in Hin. destruct Hin as [Hin|[Hin|[]]]; [|discriminate].
    destruct (attempt_run_events _ _ _ _ _ _ Hatt _ Hin) as [o' Ho]. discriminate.
  - destruct Hin as [Hin|Hin]; [discriminate|].
    apply in_app_or in Hin. destruct Hin as [Hin|[Hin|Hin]]; [|discriminate|].
    + destruct (attempt_run_events _ _ _ _ _ _ Hatt _ Hin) as [o' Ho]. discriminate.
    + exact (IH _ _ Hin).
Qed.

(** The phases of a run of the engine. *)
Lemma engine_phases (a : PurgeArgs) s r s' evs :
  _purge_oldest_until_below a s = (r, s') ->
  trace s' = trace s ++ evs ->
  (Forall (fun ev => is_mutation ev = false) evs
   /\ forall res, r = Ok res -> deletions (log res) = [])
  \/ exists u s1 collected s2 keyed s3 cevs kevs levs rl tail,
      _collect_lora_files (loras_dir a) (allowed_suffixes a) (exclude_names a) s1
      = (Ok collected, s2)
      /\ trace s2 = trace s1 ++ cevs
      /\ decorate _mtime_safe collected s2 = (Ok keyed, s3)
      /\ trace s3 = trace s2 ++ kevs
      /\ evs = EvDiskUsage (root_for_usage a) (Ok u)
               :: cevs ++ kevs ++ EvTime (clock s) :: levs ++ tail
      /\ Forall (fun ev => is_mutation ev = false) cevs
      /\ Forall (fun ev => is_mutation ev = false) kevs
      /\ Forall (fun ev => is_mutation ev = false) tail
      /\ loop_run a (clock s) (map snd (sort_keyed keyed))
           (acc0 a (percent_of u)) levs rl
      /\ forall res, r = Ok res ->
           exists acc, rl = Ok acc
                       /\ deletions (log res) = deletions (lines acc).
Proof.
  unfold _purge_oldest_until_below. intros Hrun Htr. apply bind_inv in Hrun.
  destruct Hrun as [[before [s1 [Hprobe Hk]]] | [e [Hprobe ->]]];
    destruct (disk_usage_percent_inv _ _ _ _ Hprobe)
      as [ru [Htr1 [Hck1 [_ [_ Hpct]]]]].
  2:{ left. rewrite Htr1 in Htr. apply app_inv_head in Htr. subst evs.
      split; [repeat constructor | intros res Hres; discriminate]. }
  destruct ru as [u|e']; [injection Hpct as -> | discriminate].
  destruct (Qltb (percent_of u) (threshold_percent a)) eqn:Ethr.
  { injection Hk as <- <-. left.
    rewrite Htr1 in Htr. apply app_inv_head in Htr. subst evs.
    split; [repeat constructor | intros res [= <-]; reflexivity]. }
  apply bind_inv in Hk.
  destruct Hk as [[collected [s2 [Hcol Hk]]] | [e [Hcol ->]]];
    destruct (reads_only_collect _ _ _ _ _ _ Hcol) as [Hck2 [cevs [Htr2 [Hro2 _]]]].
  2:{ left. rewrite Htr2, Htr1, <- app_assoc in Htr. apply app_inv_head in Htr.
      subst evs. split; [|intros res Hres; discriminate].
      constructor; [reflexivity | exact Hro2]. }
  apply bind_inv in Hk.
  destruct Hk as [[sorted [s3 [Hsort Hk]]] | [e [Hsort ->]]];
    unfold list_sort in Hsort; apply bind_inv in Hsort;
    destruct Hsort as [[keyed [s3' [Hdec Hret]]] | [e0 [Hdec Hr0]]];
    try discriminate;
    destruct (reads_only_decorate _ _ _ _ Hdec) as [Hck3 [kevs [Htr3 [Hro3 _]]]].
  2:{ left. rewrite Htr3, Htr2, Htr1, <- !app_assoc in Htr.
      apply app_inv_head in Htr. subst evs. split; [|intros res Hres; discriminate].
      constructor; [reflexivity|]. apply Forall_app. split; assumption. }
  injection Hret as <- <-.
  apply bind_inv in Hk.
  destruct Hk as [[now [s4 [Htime Hk]]] | [e [Htime _]]]; [|discriminate].
  unfold sys_time in Htime. injection Htime as <- <-.
  apply bind_inv in Hk.
  destruct Hk as [[acc [s5 [Hloop Hk]]] | [e [Hloop ->]]];
    destruct (purge_loop_sound _ _ _ _ _ _ _ Hloop) as [levs [Htr5 [Hck5 Hlr]]];
    cbn [trace clock] in Htr5, Hck5; rewrite Hck3, Hck2, Hck1 in Hlr.
  2:{ right. exists u, s1, collected, s2, keyed, s3', cevs, kevs, levs, (Raise e), [].
      repeat split; try assumption; try constructor.
      - rewrite Htr5, Htr3, Htr2, Htr1, Hck3, Hck2, Hck1, <- !app_assoc in Htr.
        apply app_inv_head in Htr. subst evs. rewrite app_nil_r. reflexivity.
      - intros res Hres. discriminate. }
  apply bind_inv in Hk.
  destruct Hk as [[after [s6 [Hlast Hk]]] | [e [Hlast ->]]];
    destruct (disk_usage_percent_inv _ _ _ _ Hlast)
      as [ru' [Htr6 [Hck6 [_ [_ Hpct']]]]].
  - injection Hk as Hr <-. right.
    exists u, s1, collected, s2, keyed, s3', cevs, kevs, levs, (Ok acc),
      [EvDiskUsage (root_for_usage a) ru'].
    rewrite Htr6, Htr5, Htr3, Htr2, Htr1, Hck3, Hck2, Hck1, <- !app_assoc in Htr.
    apply app_inv_head in Htr. subst evs.
    repeat split; try assumption; try (repeat constructor; fail).
    intros res Hres. rewrite Hres in Hr. injection Hr as <-.
    exists acc. split; reflexivity.
  - right.
    exists u, s1, collected, s2, keyed, s3', cevs, kevs, levs, (Ok acc),
      [EvDiskUsage (root_for_usage a) ru'].
    rewrite Htr6, Htr5, Htr3, Htr2, Htr1, Hck3, Hck2, Hck1, <- !app_assoc in Htr.
    apply app_inv_head in Htr. subst evs.
    repeat split; try assumption; try (repeat constructor; fail).
    intros res Hres. discriminate.
Qed.

Lemma sorted_paths_perm (keyed : list (Q * Path)) :
  Permutation (map snd (sort_keyed keyed)) (map snd keyed).
Proof. apply Permutation_map. apply sort_keyed_perm. Qed.

Lemma loop_run_deleted_subseq (a : PurgeArgs) (now : Q) files before evs acc :
  loop_run a now files (acc0 a before) evs (Ok acc) ->
  subseq (map fst (deletions (lines acc))) files.
Proof.
  intros Hloop.
  destruct (loop_run_order _ _ _ _ _ _ Hloop acc eq_refl) as [new [Hl Hsub]].
  rewrite Hl, deletions_app. cbn [acc0 lines]. rewrite header_no_deletions.
  exact Hsub.
Qed.

(** Membership in the sorted candidates gives the collector's facts. *)
Lemma sorted_candidate_facts (a : PurgeArgs) s1 collected s2 keyed s3 cevs f :
  _collect_lora_files (loras_dir a) (allowed_suffixes a) (exclude_names a) s1
  = (Ok collected, s2) ->
  trace s2 = trace s1 ++ cevs ->
  decorate _mtime_safe collected s2 = (Ok keyed, s3) ->
  In f (map snd (sort_keyed keyed)) ->
  suffix_rejected (allowed_suffixes a) f = false
  /\ name_excluded (exclude_names a) f = false
  /\ In (EvIsFile f (Ok true)) cevs
  /\ exists listing,
      In (EvRglob (loras_dir a) (Ok listing)) cevs /\ In f listing.
Proof.
  intros Hcol Htr2 Hdec Hsorted.
  assert (Hcollected : In f collected).
  { destruct (decorate_keys _ _ _ _ Hdec) as [_ [_ [Hmap _]]]. rewrite <- Hmap.
    eapply Permutation_in; [apply sorted_paths_perm | exact Hsorted]. }
  destruct (collect_inv _ _ _ _ _ _ _ Hcol Htr2)
    as [->|[listing [Hls [Hsub Hfacts]]]]; [destruct Hcollected|].
  destruct (Hfacts f Hcollected) as [Hisf [Hsuf Hname]].
  split; [exact Hsuf|]. split; [exact Hname|]. split; [exact Hisf|].
  exists listing. split; [exact Hls | exact (subseq_In _ _ _ Hsub Hcollected)].
Qed.

(** The mutating calls of the engine are [unlink]s of candidates. *)
Lemma engine_mutation_inv (a : PurgeArgs) (s s' : St W) (r : res PurgeResult)
  (evs : list Event) :
  _purge_oldest_until_below a s = (r, s') ->
  trace s' = trace s ++ evs ->
  forall ev, In ev evs -> is_mutation ev = true ->
    exists f o listing,
      ev = EvUnlink f o
      /\ suffix_rejected (allowed_suffixes a) f = false
      /\ name_excluded (exclude_names a) f = false
      /\ In (EvIsFile f (Ok true)) evs
      /\ In (EvRglob (loras_dir a) (Ok listing)) evs
      /\ In f listing.
Proof.
  intros Hrun Htr ev Hin Hmut.
  destruct (engine_phases _ _ _ _ _ Hrun Htr)
    as [[Hro Hnone]
       | (u & s1 & collected & s2 & keyed & s3 & cevs & kevs & levs & rl & tail
          & Hcol & Htr2 & Hdec & Htr3 & Hevs & Hroc & Hrok & Hrot & Hloop & Hres)].
  { rewrite Forall_forall in Hro. specialize (Hro _ Hin). congruence. }
  assert (Hread : forall l, Forall (fun ev => is_mutation ev = false) l ->
                    In ev l -> False).
  { intros l Hl Hx. rewrite Forall_forall in Hl. specialize (Hl _ Hx). congruence. }
  assert (Hlev : In ev levs).
  { rewrite Hevs in Hin. destruct Hin as [<-|Hin]; [discriminate|].
    apply in_app_or in Hin. destruct Hin as [Hin|Hin]; [destruct (Hread _ Hroc Hin)|].
    apply in_app_or in Hin. destruct Hin as [Hin|Hin]; [destruct (Hread _ Hrok Hin)|].
    destruct Hin as [<-|Hin]; [discriminate|].
    apply in_app_or in Hin. destruct Hin as [Hin|Hin]; [exact Hin|].
    destruct (Hread _ Hrot Hin). }
  destruct ev as [ | | | | | | | | | f o | p o | ]; try discriminate.
  2:{ exfalso. exact (loop_run_no_rmtree _ _ _ _ _ _ Hloop _ _ Hlev). }
  assert (Hsorted : In f (map snd (sort_keyed keyed))).
  { apply (subseq_In _ _ _ (loop_run_unlinked _ _ _ _ _ _ Hloop)).
    apply unlinked_In. exists o. exact Hlev. }
  destruct (sorted_candidate_facts _ _ _ _ _ _ _ _ Hcol Htr2 Hdec Hsorted)
    as [Hsuf [Hname [Hisf [listing [Hls Hf]]]]].
  exists f, o, listing. split; [reflexivity|]. split; [exact Hsuf|].
  split; [exact Hname|]. rewrite Hevs.
  split; [right; apply in_or_app; left; exact Hisf|].
  split; [right; apply in_or_app; left; exact Hls | exact Hf].
Qed.

(** X15: the engine removes no tree, and every file it unlinks or reports
    as deleted (or dry-run deleted) is a candidate: [rglob] listed it under
    the LoRA directory, [is_file] answered true for it, and it passed the
    suffix filter and the name filter. *)
Theorem X15_engine_deletes_only_candidates :
  forall (a : PurgeArgs) (s s' : St W) (r : res PurgeResult) (evs : list Event),
    _purge_oldest_until_below a s = (r, s') ->
    trace s' = trace s ++ evs ->
    (forall p o, ~ In (EvRmtree p o) evs)
    /\ forall f,
        (exists o, In (EvUnlink f o) evs)
        \/ (exists res size, r = Ok res /\ In (f, size) (deletions (log res))) ->
        suffix_rejected (allowed_suffixes a) f = false
        /\ name_excluded (exclude_names a) f = false
        /\ In (EvIsFile f (Ok true)) evs
        /\ exists listing,
            In (EvRglob (loras_dir a) (Ok listing)) evs /\ In f listing.
Proof.
  intros a s s' r evs Hrun Htr. split.
  - intros p o Hin.
    destruct (engine_mutation_inv _ _ _ _ _ Hrun Htr _ Hin eq_refl)
      as (f & o' & listing & Hev & _). discriminate.
  - intros f [[o Hin]|[res [size [Hr Hin]]]].
    + destruct (engine_mutation_inv _ _ _ _ _ Hrun Htr _ Hin eq_refl)
        as (f' & o' & listing & Hev & Hsuf & Hname & Hisf & Hls & Hf).
      injection Hev as -> _.
      split; [exact Hsuf|]. split; [exact Hname|]. split; [exact Hisf|].
      exists listing. split; assumption.
    + destruct (engine_phases _ _ _ _ _ Hrun Htr)
        as [[Hro Hnone]
           | (u & s1 & collected & s2 & keyed & s3 & cevs & kevs & levs & rl & tail
              & Hcol & Htr2 & Hdec & Htr3 & Hevs & Hroc & Hrok & Hrot & Hloop
              & Hres)].
      { rewrite (Hnone res Hr) in Hin. destruct Hin. }
      destruct (Hres res Hr) as [acc [-> Hd]]. rewrite Hd in Hin.
      assert (Hsorted : In f (map snd (sort_keyed keyed))).
      { apply (subseq_In _ _ _ (loop_run_deleted_subseq _ _ _ _ _ _ Hloop)).
        apply in_map_iff. exists (f, size). split; [reflexivity | exact Hin]. }
      destruct (sorted_candidate_facts _ _ _ _ _ _ _ _ Hcol Htr2 Hdec Hsorted)
        as [Hsuf [Hname [Hisf [listing [Hls Hf]]]]].
      split; [exact Hsuf|]. split; [exact Hname|]. rewrite Hevs.
      split; [right; apply in_or_app; left; exact Hisf|].
      exists listing. split; [right; apply in_or_app; left; exact Hls | exact Hf].
Qed.

(** X16: when the listing of the LoRA directory names no path twice, the
    engine unlinks no path twice and reports no path twice as deleted. *)
Theorem X16_no_double_deletion :
  forall (a : PurgeArgs) (s s' : St W) (r : res PurgeResult) (evs : list Event),
    _purge_oldest_until_below a s = (r, s') ->
    trace s' = trace s ++ evs ->
    (forall listing,
        In (EvRglob (loras_dir a) (Ok listing)) evs -> NoDup listing) ->
    NoDup (unlinked evs)
    /\ forall res, r = Ok res -> NoDup (map fst (deletions (log res))).
Proof.
  intros a s s' r evs Hrun Htr Hnd.
  destruct (engine_phases _ _ _ _ _ Hrun Htr)
    as [[Hro Hnone]
       | (u & s1 & collected & s2 & keyed & s3 & cevs & kevs & levs & rl & tail
          & Hcol & Htr2 & Hdec & Htr3 & Hevs & Hroc & Hrok & Hrot & Hloop & Hres)].
  { split.
    - rewrite (unlinked_reads _ Hro). constructor.
    - intros res Hr. rewrite (Hnone res Hr). constructor. }
  assert (Hsorted : NoDup (map snd (sort_keyed keyed))).
  { eapply Permutation_NoDup; [symmetry; apply sorted_paths_perm|].
    destruct (decorate_keys _ _ _ _ Hdec) as [_ [_ [Hmap _]]]. rewrite Hmap.
    destruct (collect_inv _ _ _ _ _ _ _ Hcol Htr2)
      as [->|[listing [Hls [Hsub _]]]]; [constructor|].
    apply (subseq_NoDup _ _ Hsub). apply Hnd. rewrite Hevs.
    right. apply in_or_app. left. exact Hls. }
  split.
  - rewrite Hevs.
    change (EvDiskUsage (root_for_usage a) (Ok u)
              :: cevs ++ kevs ++ EvTime (clock s) :: levs ++ tail)
      with ([EvDiskUsage (root_for_usage a) (Ok u)]
              ++ cevs ++ kevs ++ [EvTime (clock s)] ++ levs ++ tail).
    rewrite !unlinked_app, (unlinked_reads _ Hroc), (unlinked_reads _ Hrok),
      (unlinked_reads _ Hrot). cbn [unlinked app]. rewrite app_nil_r.
    exact (subseq_NoDup _ _ (loop_run_unlinked _ _ _ _ _ _ Hloop) Hsorted).
  - intros res Hr. destruct (Hres res Hr) as [acc [-> Hd]]. rewrite Hd.
    exact (subseq_NoDup _ _ (loop_run_deleted_subseq _ _ _ _ _ _ Hloop) Hsorted).
Qed.

(** X17: the mutating calls of [run] are confined.  Each one is either an
    [unlink], made in live mode only, of a file that [rglob] listed under
    the resolved LoRA directory, that [is_file] confirmed and that passed
    both filters, or the [rmtree] of the trash folder under the home
    directory. *)
Theorem X17_run_mutations_confined :
  forall (r : RunArgs) (s s' : St W) (out : res NodeOutput) (evs : list Event),
    run r s = (out, s') ->
    trace s' = trace s ++ evs ->
    forall ev, In ev evs -> is_mutation ev = true ->
      (exists dir listing f o,
          ev = EvUnlink f o
          /\ run_dry_run r = false
          /\ In (EvResolve (loras_path r) (Ok dir)) evs
          /\ In (EvRglob dir (Ok listing)) evs
          /\ In f listing
          /\ In (EvIsFile f (Ok true)) evs
          /\ suffix_rejected (allowed_suffixes (engine_args r dir)) f = false
          /\ name_excluded (exclude_names (engine_args r dir)) f = false)
      \/ (exists h ro,
            In (EvHome (Ok h)) evs
            /\ ev = EvRmtree (path_join h ".local/share/Trash/files") ro).
Proof.
  intros r s s' out evs Hrun Htr ev Hin Hmut. unfold run in Hrun.
  apply bind_inv in Hrun.
  destruct Hrun as [[dir [s1 [Hres Hk]]] | [e [Hres ->]]];
    unfold_sys Hres; apply syscall_trace in Hres; destruct Hres as [Htr1 _].
  2:{ rewrite Htr1 in Htr. apply app_inv_head in Htr. subst evs.
      destruct Hin as [<-|[]]. discriminate. }
  apply bind_inv in Hk.
  destruct Hk as [[ex [s2 [Hex Hk]]] | [e [Hex ->]]];
    unfold_sys Hex; apply syscall_trace in Hex; destruct Hex as [Htr2 _].
  2:{ rewrite Htr2, Htr1, <- app_assoc in Htr. apply app_inv_head in Htr.
      subst evs. destruct Hin as [<-|[<-|[]]]; discriminate. }
  destruct ex; cbn [negb] in Hk.
  2:{ exfalso. apply bind_inv in Hk.
      destruct Hk as [[c [s3 [Hcwd Hk]]] | [e [Hcwd ->]]];
        unfold_sys Hcwd; apply syscall_trace in Hcwd; destruct Hcwd as [Htr3 _].
      2:{ rewrite Htr3, Htr2, Htr1, <- !app_assoc in Htr.
          apply app_inv_head in Htr. subst evs.
          destruct Hin as [<-|[<-|[<-|[]]]]; discriminate. }
      apply bind_inv in Hk.
      destruct Hk as [[used [s4 [Hprobe Hk]]] | [e [Hprobe ->]]];
        destruct (disk_usage_percent_inv _ _ _ _ Hprobe) as [ru [Htr4 _]];
        [injection Hk as _ <-|];
        rewrite Htr4, Htr3, Htr2, Htr1, <- !app_assoc in Htr;
        apply app_inv_head in Htr; subst evs;
        destruct Hin as [<-|[<-|[<-|[<-|[]]]]]; discriminate. }
  assert (Hengine :
            forall (re : res PurgeResult) s3 eevs,
              _purge_oldest_until_below (engine_args r dir) s2 = (re, s3) ->
              trace s3 = trace s2 ++ eevs ->
              In ev eevs ->
              exists listing f o,
                ev = EvUnlink f o
                /\ run_dry_run r = false
                /\ In (EvRglob dir (Ok listing)) eevs
                /\ In f listing
                /\ In (EvIsFile f (Ok true)) eevs
                /\ suffix_rejected (allowed_suffixes (engine_args r dir)) f = false
                /\ name_excluded (exclude_names (engine_args r dir)) f = false).
  { intros re s3 eevs Heng Htr3 Hev.
    destruct (engine_mutation_inv _ _ _ _ _ Heng Htr3 _ Hev Hmut)
      as (f & o & listing & -> & Hsuf & Hname & Hisf & Hls & Hf).
    exists listing, f, o. split; [reflexivity|]. split.
    { destruct (run_dry_run r) eqn:Edry; [|reflexivity]. exfalso.
      destruct (engine_sound _ _ _ _ Heng) as [_ [eevs0 [Htr0 Her]]].
      rewrite Htr0 in Htr3. apply app_inv_head in Htr3. subst eevs0.
      destruct (engine_run_dry (engine_args r dir) _ _ _ Edry Her) as [Hro _].
      exact (reads_no_unlink_in _ _ _ Hro Hev). }
    repeat split; assumption. }
  apply bind_inv in Hk.
  destruct Hk as [[res [s3 [Heng Hk]]] | [e [Heng ->]]];
    destruct (engine_sound _ _ _ _ Heng) as [_ [eevs [Htr3 _]]].
  2:{ rewrite Htr3, Htr2, Htr1, <- !app_assoc in Htr. apply app_inv_head in Htr.
      subst evs. cbn [app] in Hin |- *. left.
      destruct Hin as [<-|[<-|Hin]]; try discriminate.
      destruct (Hengine _ _ _ Heng Htr3 Hin)
        as (listing & f & o & Hev & Hlive & Hls & Hf & Hisf & Hsuf & Hname).
      exists dir, listing, f, o. split; [exact Hev|]. split; [exact Hlive|].
      split; [left; reflexivity|].
      split; [right; right; exact Hls|]. split; [exact Hf|].
      split; [right; right; exact Hisf|]. split; assumption. }
  apply bind_inv in Hk.
  assert (Hsweep : exists rs s4, _clear_user_trash s3 = (rs, s4) /\ trace s' = trace s4).
  { destruct Hk as [[tl [s4 [Hsw Hk]]] | [e [Hsw _]]].
    - injection Hk as _ <-. eauto.
    - eauto. }
  clear Hk. destruct Hsweep as [rs [s4 [Hsw Hs4]]].
  destruct (clear_user_trash_mutations _ _ _ Hsw) as [tevs [Htr4 Htrash]].
  rewrite Hs4, Htr4, Htr3, Htr2, Htr1, <- !app_assoc in Htr.
  apply app_inv_head in Htr. subst evs. cbn [app] in Hin |- *.
  destruct Hin as [<-|[<-|Hin]]; try discriminate.
  apply in_app_or in Hin. destruct Hin as [Hin|Hin].
  - left.
    destruct (Hengine _ _ _ Heng Htr3 Hin)
      as (listing & f & o & Hev & Hlive & Hls & Hf & Hisf & Hsuf & Hname).
    exists dir, listing, f, o. split; [exact Hev|]. split; [exact Hlive|].
    split; [left; reflexivity|].
    split; [right; right; apply in_or_app; left; exact Hls|]. split; [exact Hf|].
    split; [right; right; apply in_or_app; left; exact Hisf|]. split; assumption.
  - right. destruct (Htrash ev Hin Hmut) as [h [ro [Hh Hev]]].
    exists h, ro. split; [|exact Hev].
    right. right. apply in_or_app. right. exact Hh.
Qed.

(** *** Dry runs in a quiet world *)

Lemma dry_loop_at_exhaustive (w : W) (a : PurgeArgs) (now before : Q) :
  percent_at w (root_for_usage a) = Ok before ->
  Qltb before (target_percent a) = false ->
  forall files acc acc',
    (delete_count_limit a = 0 \/ n_deleted acc <= delete_count_limit a) ->
    dry_loop_at w a now files acc = Ok acc' ->
    exists new,
      lines acc' = lines acc ++ new
      /\ deletions new
         = (if delete_count_limit a =? 0 then dry_candidates w a now files
            else firstn (Z.to_nat (delete_count_limit a - n_deleted acc))
                   (dry_candidates w a now files))
      /\ forall l pct tgt, In l new -> l <> LReached pct tgt.
Proof.
  intros Hpct Htgt. induction files as [|f rest IH]; intros acc acc' Hlim Hrun.
  - injection Hrun as <-. exists []. rewrite app_nil_r. split; [reflexivity|].
    split; [|intros ? ? ? []]. cbn. rewrite firstn_nil.
    destruct (delete_count_limit a =? 0); reflexivity.
  - cbn [dry_loop_at] in Hrun. destruct (limit_reached a acc) eqn:Elim.
    { injection Hrun as <-. exists [LStop (delete_count_limit a)].
      split; [reflexivity|]. split; [|intros l pct tgt [<-|[]]; discriminate].
      unfold limit_reached in Elim. apply andb_true_iff in Elim.
      destruct Elim as [Hne Hle]. apply negb_true_iff in Hne. rewrite Hne.
      apply Z.eqb_neq in Hne. apply Z.leb_le in Hle.
      assert (delete_count_limit a - n_deleted acc = 0) as -> by lia.
      reflexivity. }
    cbn [dry_candidates].
    destruct (fst (os_stat w f)) as [st|e].
    2:{ destruct e; try discriminate. exact (IH _ _ Hlim Hrun). }
    destruct (too_fresh a now st); [exact (IH _ _ Hlim Hrun)|].
    rewrite Hpct in Hrun. cbn [rbind] in Hrun. rewrite Htgt in Hrun.
    assert (Hroom : delete_count_limit a = 0
                    \/ n_deleted acc + 1 <= delete_count_limit a).
    { unfold limit_reached in Elim. apply andb_false_iff in Elim.
      destruct Elim as [Hz|Hlt].
      - left. apply negb_false_iff in Hz. apply Z.eqb_eq in Hz. exact Hz.
      - apply Z.leb_gt in Hlt. right. lia. }
    destruct (IH (counted acc (st_size st) (LDryRun f (st_size st))) acc' Hroom Hrun)
      as [new [Hl [Hd Hnr]]].
    exists (LDryRun f (st_size st) :: new). split; [|split].
    + rewrite Hl. cbn [counted lines]. rewrite <- app_assoc. reflexivity.
    + cbn [deletions deletion_of]. rewrite Hd. cbn [counted n_deleted].
      destruct (delete_count_limit a =? 0) eqn:Ez; [reflexivity|].
      apply Z.eqb_neq in Ez.
      replace (Z.to_nat (delete_count_limit a - n_deleted acc))
        with (S (Z.to_nat (delete_count_limit a - (n_deleted acc + 1)))) by lia.
      reflexivity.
    + intros l pct tgt [<-|Hin]; [discriminate | exact (Hnr _ _ _ Hin)].
Qed.

(** X18: what a dry run lists.  In a quiet world, with the target not
    above the threshold (as [run] ensures) and a limit that is not
    negative, the usage never drops during a dry run, so a triggered dry
    run never reports the target as reached: it lists every eligible
    candidate in sorted order, cut off only by the limit. *)
Theorem X18_dry_run_lists_every_candidate :
  forall (a : PurgeArgs) (s s' : St W) (res : PurgeResult),
    dry_run a = true ->
    quiet (world s) ->
    (target_percent a <= threshold_percent a)%Q ->
    0 <= delete_count_limit a ->
    _purge_oldest_until_below a s = (Ok res, s') ->
    triggered res = true ->
    exists files sorted,
      returns (world s) (clock s)
        (_collect_lora_files (loras_dir a) (allowed_suffixes a) (exclude_names a))
        (Ok files)
      /\ returns (world s) (clock s) (list_sort _mtime_safe files) (Ok sorted)
      /\ deletions (log res)
         = within_limit (delete_count_limit a)
             (dry_candidates (world s) a (clock s) sorted)
      /\ forall l pct tgt, In l (log res) -> l <> LReached pct tgt.
Proof.
  intros a s s' res Hdry Hq Hle Hlim Hrun Htrig.
  destruct (returns_dry_purge (world s) (clock s) a Hq Hdry s eq_refl eq_refl)
    as [evs Hret].
  rewrite Hrun in Hret. injection Hret as Hpure _. symmetry in Hpure.
  unfold dry_purge_at in Hpure.
  destruct (percent_at (world s) (root_for_usage a)) as [before|e] eqn:Hpct;
    [|discriminate].
  cbn [rbind] in Hpure.
  destruct (Qltb before (threshold_percent a)) eqn:Ethr.
  { injection Hpure as <-. discriminate. }
  pose proof (returns_collect (world s) (clock s) (loras_dir a)
                (allowed_suffixes a) (exclude_names a) Hq) as Hcollect.
  destruct (collect_at (world s) (loras_dir a) (allowed_suffixes a)
              (exclude_names a)) as [files|e]; [|discriminate].
  cbn [rbind] in Hpure.
  pose proof (returns_list_sort (world s) (clock s) files Hq) as Hsorted.
  destruct (sorted_at (world s) (clock s) files) as [sorted|e]; [|discriminate].
  cbn [rbind] in Hpure.
  destruct (dry_loop_at (world s) a (clock s) sorted (acc0 a before))
    as [acc|e] eqn:Hloop; [|discriminate].
  cbn [rbind] in Hpure. injection Hpure as <-.
  exists files, sorted. split; [exact Hcollect|]. split; [exact Hsorted|].
  assert (Htgt : Qltb before (target_percent a) = false).
  { apply Qltb_ge. apply Qltb_ge in Ethr. eapply Qle_trans; eassumption. }
  destruct (dry_loop_at_exhaustive (world s) a (clock s) before Hpct Htgt sorted
              (acc0 a before) acc)
    as [new [Hl [Hd Hnr]]]; [cbn; lia | exact Hloop |].
  cbn [log]. rewrite Hl. cbn [acc0 lines n_deleted] in *. split.
  - change (deletions
              ([LFreedTotal (n_bytes acc) (n_deleted acc);
                LUsageBeforeAfter before before; LBlank]
               ++ header_lines a before ++ new)
            = within_limit (delete_count_limit a)
                (dry_candidates (world s) a (clock s) sorted)).
    rewrite !deletions_app, header_no_deletions. cbn [deletions deletion_of app].
    rewrite Hd. unfold within_limit. rewrite Z.sub_0_r. reflexivity.
  - intros l pct tgt Hin.
    destruct Hin as [<-|[<-|[<-|Hin]]]; try discriminate.
    apply in_app_or in Hin. destruct Hin as [Hin|Hin]; [|exact (Hnr _ _ _ Hin)].
    cbn in Hin. repeat (destruct Hin as [<-|Hin]; [discriminate|]). destruct Hin.
Qed.

End NodeProperties.

(** ** Concrete runs on the simulated host *)

Lemma sim_quiet (w : Sim.machine) : Sim.script w = [] -> quiet w.
Proof.
  intros Hs.
  assert (Hi : Sim.interfere w = w).
  { unfold Sim.interfere. rewrite Hs. reflexivity. }
  unfold quiet. cbn [os_disk_usage os_exists os_is_dir os_is_file os_rglob
                       os_stat Sim.os].
  unfold Sim.disk_usage, Sim.exists_, Sim.is_dir, Sim.is_file, Sim.rglob,
    Sim.stat.
  rewrite Hi. repeat split; intros p; try reflexivity.
  - destruct (Sim.lookup p (Sim.entries w)); reflexivity.
  - destruct (Sim.lookup p (Sim.entries w)) as [[]|]; reflexivity.
Qed.

Ltac split_in H :=
  repeat match type of H with
         | _ \/ _ => destruct H as [H | H]
         | False => contradiction
         end.

Ltac find_in := repeat (first [left; reflexivity | right]).

Lemma C8_witness :
  0 < delete_count_limit (Sim.args 0 1 true)
  /\ exists res s',
      _purge_oldest_until_below (Sim.args 0 1 true) (Sim.start Sim.disk 1000)
      = (Ok res, s')
      /\ files_deleted res <= 1.
Proof.
  split; [reflexivity|].
  assert (Hrun : exists res s',
             _purge_oldest_until_below (Sim.args 0 1 true)
               (Sim.start Sim.disk 1000) = (Ok res, s'))
    by (vm_compute; eexists _, _; reflexivity).
  destruct Hrun as [res [s' Hrun]]. exists res, s'. split; [exact Hrun|].
  exact (proj1 (proj1 (C8_deletions_within_limit (W:=Sim.machine))
                  (Sim.args 0 1 true) (Sim.start Sim.disk 1000) s' res
                  eq_refl Hrun)).
Defined.

Lemma C4_witness :
  exists before s1 res,
    _disk_usage_percent Sim.loras (Sim.start Sim.disk 1000) = (Ok before, s1)
    /\ (before < 95)%Q
    /\ _purge_oldest_until_below
         (mkArgs Sim.loras Sim.loras 95 85 [".safetensors"%string]
            ["keep"%string] 0 0 false)
         (Sim.start Sim.disk 1000) = (Ok res, s1)
    /\ triggered res = false
    /\ files_deleted res = 0
    /\ bytes_freed res = 0
    /\ after_used_pct res = before_used_pct res.
Proof.
  assert (Hprobe : exists before s1,
             _disk_usage_percent Sim.loras (Sim.start Sim.disk 1000)
             = (Ok before, s1)
             /\ (before < 95)%Q).
  { eexists _, _. split; [vm_compute; reflexivity | reflexivity]. }
  destruct Hprobe as [before [s1 [Hprobe Hlt]]].
  destruct (C4_below_threshold_not_triggered (W:=Sim.machine)
              (mkArgs Sim.loras Sim.loras 95 85 [".safetensors"%string]
                 ["keep"%string] 0 0 false)
              (Sim.start Sim.disk 1000) s1 before Hprobe Hlt)
    as [res [ru [Hrun [Ht [Hn [Hb [_ [Ha _]]]]]]]].
  exists before, s1, res. repeat split; assumption.
Defined.

Lemma C5_witness :
  exists files s4,
    _collect_lora_files Sim.loras [".safetensors"%string] ["keep"%string]
      (Sim.start Sim.disk 1000) = (Ok files, s4)
    /\ In Sim.new_file files
    /\ ~ In "/models/loras/notes.txt"%string files
    /\ ~ In "/models/loras/keep_me.safetensors"%string files.
Proof.
  assert (Hsteps : exists s1 s2 listing s3 files s4,
             sys_exists Sim.loras (Sim.start Sim.disk 1000) = (Ok true, s1)
             /\ sys_is_dir Sim.loras s1 = (Ok true, s2)
             /\ sys_rglob Sim.loras s2 = (Ok listing, s3)
             /\ _collect_lora_files Sim.loras [".safetensors"%string]
                  ["keep"%string] (Sim.start Sim.disk 1000) = (Ok files, s4)
             /\ world s3 = Sim.disk
             /\ In Sim.new_file listing).
  { eexists _, _, _, _, _, _.
    split; [vm_compute; reflexivity|]. split; [vm_compute; reflexivity|].
    split; [vm_compute; reflexivity|]. split; [vm_compute; reflexivity|].
    split; [reflexivity | cbn; find_in]. }
  destruct Hsteps as (s1 & s2 & listing & s3 & files & s4 & Hex & Hdir & Hglob
                      & Hrun & Hw & Hlisted).
  exists files, s4. split; [exact Hrun|].
  destruct (C5_collect_lora_files_spec (W:=Sim.machine) str_lower Sim.loras
              [".safetensors"%string] ["keep"%string] (Sim.start Sim.disk 1000))
    as (_ & _ & Hspec & Hascii).
  rewrite Hascii in Hrun.
  destruct (Hspec s1 s2 listing s3 files s4 Hex Hdir Hglob Hrun)
    as (answers & _ & _ & _ & _ & Hquiet).
  assert (Hq : quiet (world s3)) by (rewrite Hw; apply sim_quiet; reflexivity).
  specialize (Hquiet Hq). rewrite Hw in Hquiet.
  split; [|split].
  - apply Hquiet. split; [exact Hlisted|]. split; [vm_compute; reflexivity|].
    split; [right; vm_compute; left; reflexivity|].
    intros x [<-|[]] Hocc. apply str_contains_spec in Hocc.
    vm_compute in Hocc. discriminate.
  - intros Hin. apply Hquiet in Hin.
    destruct Hin as (_ & _ & [Hnil|Hs] & _); [discriminate|].
    vm_compute in Hs. destruct Hs as [Hs|[]]. discriminate.
  - intros Hin. apply Hquiet in Hin. destruct Hin as (_ & _ & _ & Hn).
    apply (Hn "keep"%string (or_introl eq_refl)).
    apply str_contains_spec. vm_compute. reflexivity.
Defined.


Lemma C7_witness :
  0 < min_age_seconds (Sim.args 600 0 true)
  /\ exists r s',
      _purge_oldest_until_below (Sim.args 600 0 true) (Sim.start Sim.disk 1000)
      = (r, s')
      /\ (forall st, In (EvStat Sim.new_file (Ok st)) (trace s') ->
          (1000 - st_mtime st < inject_Z 600)%Q)
      /\ (forall o, ~ In (EvUnlink Sim.new_file o) (trace s'))
      /\ forall res, r = Ok res ->
         forall size, ~ In (LDryRun Sim.new_file size) (log res).
Proof.
  split; [reflexivity|].
  assert (Hrun : exists r s',
             _purge_oldest_until_below (Sim.args 600 0 true)
               (Sim.start Sim.disk 1000) = (r, s')
             /\ forall st, In (EvStat Sim.new_file (Ok st)) (trace s') ->
                  (1000 - st_mtime st < inject_Z 600)%Q).
  { eexists _, _. split; [vm_compute; reflexivity|].
    intros st Hin. cbn in Hin. split_in Hin; try discriminate;
      injection Hin as <-; reflexivity. }
  destruct Hrun as [r [s' [Hrun Hyoung]]]. exists r, s'.
  split; [exact Hrun|]. split; [exact Hyoung|].
  destruct (C7_young_files_never_deleted (W:=Sim.machine) (Sim.args 600 0 true)
              (Sim.start Sim.disk 1000) s' r (trace s') Sim.new_file
              eq_refl Hrun eq_refl Hyoung) as [Hunl Hlog].
  split; [exact Hunl|]. intros res Hres size. exact (proj2 (Hlog res Hres size)).
Defined.

Lemma C2_witness :
  exists res s' pre post,
    _purge_oldest_until_below (Sim.args 0 0 false) (Sim.start Sim.racy_disk 1000)
    = (Ok res, s')
    /\ trace s' = pre ++ EvTime 1000 :: post
    /\ (forall t', ~ In (EvTime t') post)
    /\ In (EvStat Sim.old_file (Ok (mkStat 20 100))) pre
    /\ In (EvStat Sim.old_file (Raise FileNotFoundError)) post
    /\ (forall rs, In (EvStat Sim.old_file rs) post ->
        rs = Raise FileNotFoundError)
    /\ (forall l, In l (log res) -> line_path l <> Some Sim.old_file)
    /\ In (EvUnlink "/models/loras/locked.safetensors"%string
             (Raise PermissionError)) (trace s')
    /\ In (LSkipPermission "/models/loras/locked.safetensors"%string) (log res).
Proof.
  assert (Hrun : exists res s' pre post,
             _purge_oldest_until_below (Sim.args 0 0 false)
               (Sim.start Sim.racy_disk 1000) = (Ok res, s')
             /\ trace s' = pre ++ EvTime 1000 :: post
             /\ (forall t', ~ In (EvTime t') post)
             /\ In (EvStat Sim.old_file (Ok (mkStat 20 100))) pre
             /\ In (EvStat Sim.old_file (Raise FileNotFoundError)) post
             /\ (forall rs, In (EvStat Sim.old_file rs) post ->
                 rs = Raise FileNotFoundError)
             /\ In (EvUnlink "/models/loras/locked.safetensors"%string
                      (Raise PermissionError)) (trace s')).
  { eexists _, _. 
    match goal with
    | |- exists pre post, ?run = _ /\ _ =>
        let t := eval vm_compute in (trace (snd run)) in
        exists (firstn 12 t), (skipn 13 t)
    end.
    split; [vm_compute; reflexivity|]. split; [vm_compute; reflexivity|].
    split; [intros t' Hin; cbn in Hin; split_in Hin; discriminate|].
    split; [cbn; find_in|]. split; [cbn; find_in|].
    split; [|cbn; find_in].
    intros rs Hin. cbn in Hin. split_in Hin; try discriminate.
    injection Hin as <-. reflexivity. }
  destruct Hrun as (res & s' & pre & post & Hrun & Htr & Hnone & Hpre & Hpost
                    & Hall & Hunl).
  exists res, s', pre, post.
  destruct (C2_per_file_failures_are_skipped (W:=Sim.machine) (Sim.args 0 0 false)
              (Sim.start Sim.racy_disk 1000) s' (Ok res) (trace s')
              Hrun eq_refl) as [Hok _].
  destruct (Hok res eq_refl) as (Hskip & _ & _ & _ & _ & _ & _ & _ & Hloop).
  repeat split; try assumption.
  - exact (proj2 (Hloop pre 1000%Q post Htr Hnone Sim.old_file) Hall).
  - apply (Hskip _ PermissionError Hunl). discriminate.
Defined.

Lemma C1_witness :
  exists dir s1 s2 res s3 out s4,
    sys_resolve "/models/loras" (Sim.start Sim.disk 1000) = (Ok dir, s1)
    /\ sys_exists dir s1 = (Ok true, s2)
    /\ _purge_oldest_until_below
         (engine_args (Sim.run_args Sim.loras 95 85 false) dir) s2
       = (Ok res, s3)
    /\ triggered res = false
    /\ run (Sim.run_args Sim.loras 95 85 false) (Sim.start Sim.disk 1000)
       = (Ok out, s4)
    /\ (exists rh rest, trace s4 = trace s3 ++ EvHome rh :: rest)
    /\ out_log out
       = log res ++ [LBlank; LTrashCleared Sim.trash 3].
Proof.
  assert (Hsteps : exists dir s1 s2 res s3 s4,
             sys_resolve "/models/loras" (Sim.start Sim.disk 1000) = (Ok dir, s1)
             /\ sys_exists dir s1 = (Ok true, s2)
             /\ _purge_oldest_until_below
                  (engine_args (Sim.run_args Sim.loras 95 85 false) dir) s2
                = (Ok res, s3)
             /\ triggered res = false
             /\ _clear_user_trash s3 = (Ok (LTrashCleared Sim.trash 3), s4)).
  { eexists _, _, _, _, _, _.
    split; [vm_compute; reflexivity|]. split; [vm_compute; reflexivity|].
    split; [vm_compute; reflexivity|]. split; [reflexivity|].
    vm_compute; reflexivity. }
  destruct Hsteps as [dir [s1 [s2 [res [s3 [s4 [Hres [Hex [Heng [Htrig Hsw]]]]]]]]]].
  destruct (C1_sweep_follows_engine (W:=Sim.machine)
              (Sim.run_args Sim.loras 95 85 false) (Sim.start Sim.disk 1000)
              s1 s2 s3 dir res Hres Hex Heng)
    as [rs [s4' [rh [rest [Hsw' [Htr [Hrun _]]]]]]].
  rewrite Hsw in Hsw'. injection Hsw' as <- <-.
  eexists dir, s1, s2, res, s3, _, s4.
  split; [exact Hres|]. split; [exact Hex|]. split; [exact Heng|].
  split; [exact Htrig|]. split; [exact Hrun|].
  split; [exists rh, rest; exact Htr | reflexivity].
Defined.


Lemma C10_witness :
  dry_run (Sim.args 600 0 true) = true
  /\ quiet Sim.disk
  /\ (forall p st, fst (os_stat Sim.disk p) = Ok st ->
      too_fresh (Sim.args 600 0 true) 1000 st
      = too_fresh (Sim.args 600 0 true) 1200 st)
  /\ exists r1 s1 r2 s2,
      _purge_oldest_until_below (Sim.args 600 0 true) (Sim.start Sim.disk 1000)
      = (r1, s1)
      /\ _purge_oldest_until_below (Sim.args 600 0 true)
           (mkSt (world s1) 1200 (trace s1)) = (r2, s2)
      /\ world s1 = Sim.disk
      /\ world s2 = Sim.disk
      /\ match r1, r2 with
         | Ok x, Ok y =>
             deletions (log x) = deletions (log y)
             /\ bytes_freed x = bytes_freed y
             /\ files_deleted x = files_deleted y
         | Raise e1, Raise e2 => e1 = e2
         | _, _ => False
         end.
Proof.
  assert (Hq : quiet Sim.disk) by (apply sim_quiet; reflexivity).
  assert (Hage : forall p st, fst (os_stat Sim.disk p) = Ok st ->
                   too_fresh (Sim.args 600 0 true) 1000 st
                   = too_fresh (Sim.args 600 0 true) 1200 st).
  { intros p st Hst. cbn [os_stat Sim.os] in Hst.
    unfold Sim.stat, Sim.interfere, Sim.disk in Hst.
    cbn -[String.eqb] in Hst.
    repeat match type of Hst with
           | context [String.eqb ?q p] =>
               destruct (String.eqb q p); cbn -[String.eqb] in Hst;
               [injection Hst as <-; reflexivity|]
           end.
    discriminate. }
  split; [reflexivity|]. split; [exact Hq|]. split; [exact Hage|].
  assert (Hrun : exists r1 s1 r2 s2,
             _purge_oldest_until_below (Sim.args 600 0 true)
               (Sim.start Sim.disk 1000) = (r1, s1)
             /\ _purge_oldest_until_below (Sim.args 600 0 true)
                  (mkSt (world s1) 1200 (trace s1)) = (r2, s2)).
  { eexists _, _, _, _. split; vm_compute; reflexivity. }
  destruct Hrun as [r1 [s1 [r2 [s2 [Hrun1 Hrun2]]]]]. exists r1, s1, r2, s2.
  split; [exact Hrun1|]. split; [exact Hrun2|].
  exact (C10_dry_run_repeatable (W:=Sim.machine) (Sim.args 600 0 true)
           (Sim.start Sim.disk 1000) s1 s2 1200 r1 r2 eq_refl Hq Hage
           Hrun1 Hrun2).
Defined.

(** *** Runs the claims as stated do not cover *)

Lemma C1_counterexample_missing_directory :
  exists out s',
    Sim.node_missing = (Ok out, s')
    /\ (forall rh, ~ In (EvHome rh) (trace s'))
    /\ (forall p ro, ~ In (EvRmtree p ro) (trace s'))
    /\ Sim.lookup Sim.junk_file (Sim.entries (world s'))
       = Some (Sim.File 3 0 true).
Proof.
  eexists _, _. split; [vm_compute; reflexivity|]. split; [|split].
  - intros rh Hin. cbn in Hin. split_in Hin; discriminate.
  - intros p ro Hin. cbn in Hin. split_in Hin; discriminate.
  - vm_compute. reflexivity.
Qed.

Lemma C2_counterexample_vanished_file_not_logged :
  exists res s',
    Sim.engine_racy = (Ok res, s')
    /\ In (EvStat Sim.old_file (Raise FileNotFoundError)) (trace s')
    /\ ~ exists l, In l (log res) /\ line_path l = Some Sim.old_file.
Proof.
  eexists _, _. split; [vm_compute; reflexivity|]. split.
  - cbn. find_in.
  - intros [l [Hin Hl]]. cbn in Hin. split_in Hin; subst l; discriminate.
Qed.

(** C3: [run] with dry-run enabled on the sample disk.  The run returns
    and has unlinked nothing, yet it has called [rmtree] on the trash
    folder and the file that was in the trash is gone: the reclaim sweep is
    not gated by [dry_run], against the tooltip of [dry_run] ("Simulate
    deletions and print log without removing files.") and unlike the
    engine, which touches nothing under dry-run. *)
Lemma C3_dry_run_removes_trash :
  run_dry_run (Sim.run_args Sim.loras 90 85 true) = true
  /\ exists out s',
      run (Sim.run_args Sim.loras 90 85 true) (Sim.start Sim.disk 1000)
      = (Ok out, s')
      /\ (forall f o, ~ In (EvUnlink f o) (trace s'))
      /\ In (EvRmtree Sim.trash (Ok tt)) (trace s')
      /\ Sim.lookup Sim.junk_file (Sim.entries Sim.disk)
         = Some (Sim.File 3 0 true)
      /\ Sim.lookup Sim.junk_file (Sim.entries (world s')) = None.
Proof.
  split; [reflexivity|].
  eexists _, _. split; [vm_compute; reflexivity|]. split; [|split; [|split]].
  - intros f o Hin. cbn in Hin. split_in Hin; discriminate.
  - cbn. find_in.
  - vm_compute. reflexivity.
  - vm_compute. reflexivity.
Qed.


Lemma C10_counterexample_clock_moves :
  exists x s1 y s2,
    Sim.engine_dry = (Ok x, s1)
    /\ Sim.engine_dry_again = (Ok y, s2)
    /\ world s1 = Sim.disk
    /\ world s2 = Sim.disk
    /\ deletions (log x) <> deletions (log y)
    /\ bytes_freed x <> bytes_freed y.
Proof.
  eexists _, _, _, _. split; [vm_compute; reflexivity|].
  split; [vm_compute; reflexivity|].
  split; [vm_compute; reflexivity|]. split; [vm_compute; reflexivity|].
  split; vm_compute; discriminate.
Qed.

(** ** Concrete runs for the further properties *)

Lemma X1_witness :
  In "pt"%string (_csv_list " .ckpt , ,pt ")
  /\ "pt"%string <> EmptyString
  /\ str_strip "pt" = "pt"%string
  /\ ~ In ","%char (list_ascii_of_string "pt").
Proof.
  assert (Hin : In "pt"%string (_csv_list " .ckpt , ,pt "))
    by (vm_compute; right; left; reflexivity).
  split; [exact Hin|].
  exact (X1_csv_list_tokens " .ckpt , ,pt " "pt" Hin).
Defined.

Lemma X2_witness :
  (forall t, In t [".safetensors"%string; "ckpt"%string] -> clean_token t)
  /\ _csv_list (String.concat "," [".safetensors"%string; "ckpt"%string])
     = [".safetensors"%string; "ckpt"%string].
Proof.
  assert (Hclean : forall t, In t [".safetensors"%string; "ckpt"%string] ->
                     clean_token t).
  { intros t [<-|[<-|[]]]; (split; [discriminate|]); (split; [reflexivity|]);
      intros Hc; cbn in Hc; split_in Hc; discriminate. }
  split; [exact Hclean|].
  exact (X2_csv_list_round_trip [".safetensors"%string; "ckpt"%string] Hclean).
Defined.

Lemma X3_witness :
  In ".safetensors"%string
    (allowed_suffixes
       (engine_args (loose_run_args "SafeTensors, .CKPT" "Keep ,_Core") Sim.loras))
  /\ str_startswith "." ".safetensors" = true
  /\ str_lower ".safetensors" = ".safetensors"%string.
Proof.
  assert (Hin : In ".safetensors"%string
                  (allowed_suffixes
                     (engine_args (loose_run_args "SafeTensors, .CKPT" "Keep ,_Core")
                        Sim.loras)))
    by (vm_compute; left; reflexivity).
  split; [exact Hin|].
  exact (proj1 (X3_filters_normalized
                  (loose_run_args "SafeTensors, .CKPT" "Keep ,_Core") Sim.loras)
           ".safetensors"%string Hin).
Defined.

Lemma X4_witness :
  (forall y, In y (str_split_comma (allowed_suffixes_csv (loose_run_args " , " "keep"))) ->
     str_strip y = EmptyString)
  /\ suffix_rejected
       (allowed_suffixes (engine_args (loose_run_args " , " "keep") Sim.loras))
       "/models/loras/notes.txt"%string = false.
Proof.
  assert (Hblank : forall y,
             In y (str_split_comma (allowed_suffixes_csv (loose_run_args " , " "keep"))) ->
             str_strip y = EmptyString).
  { intros y Hy. cbn in Hy. split_in Hy; subst y; reflexivity. }
  split; [exact Hblank|].
  exact (proj1 (X4_blank_filter_fields (W:=Sim.machine)
                  (loose_run_args " , " "keep") Sim.loras)
           Hblank "/models/loras/notes.txt"%string).
Defined.

Lemma X5_witness :
  exists u s1 pct,
    sys_disk_usage Sim.loras (Sim.start Sim.disk 1000) = (Ok u, s1)
    /\ 0 <= u_used u <= u_total u
    /\ _disk_usage_percent Sim.loras (Sim.start Sim.disk 1000) = (Ok pct, s1)
    /\ (0 <= pct <= 100)%Q.
Proof.
  assert (Hprobe : exists u s1,
             sys_disk_usage Sim.loras (Sim.start Sim.disk 1000) = (Ok u, s1)
             /\ 0 <= u_used u <= u_total u).
  { eexists _, _. split; [vm_compute; reflexivity|]. cbn. lia. }
  destruct Hprobe as [u [s1 [Hprobe Hrange]]].
  destruct (X5_disk_usage_percent_range (W:=Sim.machine) Sim.loras
              (Sim.start Sim.disk 1000) s1 u Hprobe) as [pct [Hrun [_ Hpct]]].
  exists u, s1, pct. split; [exact Hprobe|]. split; [exact Hrange|].
  split; [exact Hrun | exact (Hpct Hrange)].
Defined.

Lemma X6_witness :
  exists files s',
    _collect_lora_files Sim.loras [".safetensors"%string] ["keep"%string]
      (Sim.start Sim.disk 1000) = (Ok files, s')
    /\ Forall (fun ev => is_mutation ev = false) (trace s')
    /\ (files = []
        \/ exists listing,
            In (EvRglob Sim.loras (Ok listing)) (trace s')
            /\ subseq files listing
            /\ (NoDup listing -> NoDup files)).
Proof.
  assert (Hrun : exists files s',
             _collect_lora_files Sim.loras [".safetensors"%string] ["keep"%string]
               (Sim.start Sim.disk 1000) = (Ok files, s'))
    by (eexists _, _; vm_compute; reflexivity).
  destruct Hrun as [files [s' Hrun]]. exists files, s'. split; [exact Hrun|].
  exact (X6_collect_keeps_listing_order (W:=Sim.machine) Sim.loras
           [".safetensors"%string] ["keep"%string] (Sim.start Sim.disk 1000) s'
           files (trace s') Hrun eq_refl).
Defined.

Lemma X7_witness :
  exists n s',
    _folder_size Sim.trash (Sim.start Sim.disk 1000) = (Ok n, s')
    /\ n = stat_sizes (trace s')
    /\ n = 3.
Proof.
  assert (Hrun : exists n s',
             _folder_size Sim.trash (Sim.start Sim.disk 1000) = (Ok n, s')
             /\ n = 3).
  { eexists _, _. split; [vm_compute; reflexivity | reflexivity]. }
  destruct Hrun as [n [s' [Hrun Hn]]]. exists n, s'. split; [exact Hrun|].
  destruct (X7_folder_size_sums_stats (W:=Sim.machine) Sim.trash
              (Sim.start Sim.disk 1000) s' (Ok n) (trace s') Hrun eq_refl)
    as [_ [_ [Hsum _]]].
  split; [exact (proj1 (Hsum n eq_refl)) | exact Hn].
Defined.

Lemma X8_witness :
  exists tl s',
    _clear_user_trash (Sim.start Sim.disk 1000) = (Ok tl, s')
    /\ (forall f o, ~ In (EvUnlink f o) (trace s'))
    /\ exists h,
        (tl = LTrashNotFound (path_join h ".local/share/Trash/files")
         /\ trace s'
            = [EvHome (Ok h);
               EvExists (path_join h ".local/share/Trash/files") (Ok false)])
        \/ (exists pre ro,
              trace s'
              = EvHome (Ok h)
                :: EvExists (path_join h ".local/share/Trash/files") (Ok true)
                :: pre ++ [EvRmtree (path_join h ".local/share/Trash/files") ro]
              /\ Forall (fun ev => is_mutation ev = false) pre
              /\ tl = match ro with
                      | Ok _ =>
                          LTrashCleared (path_join h ".local/share/Trash/files")
                            (stat_sizes pre)
                      | Raise e =>
                          LTrashFailed (path_join h ".local/share/Trash/files") e
                      end).
Proof.
  assert (Hrun : exists tl s',
             _clear_user_trash (Sim.start Sim.disk 1000) = (Ok tl, s'))
    by (eexists _, _; vm_compute; reflexivity).
  destruct Hrun as [tl [s' Hrun]]. exists tl, s'. split; [exact Hrun|].
  destruct (X8_trash_sweep_outcomes (W:=Sim.machine) (Sim.start Sim.disk 1000) s'
              (Ok tl) (trace s') Hrun eq_refl) as [Hun [_ Hok]].
  split; [exact Hun | exact (Hok tl eq_refl)].
Defined.

Lemma X9_witness :
  exists dir s1 s2 out s',
    sys_resolve (loras_path (Sim.run_args "/nowhere" 90 85 false))
      (Sim.start Sim.disk 1000) = (Ok dir, s1)
    /\ sys_exists dir s1 = (Ok false, s2)
    /\ run (Sim.run_args "/nowhere" 90 85 false) (Sim.start Sim.disk 1000)
       = (out, s')
    /\ exists rc,
        match rc with
        | Raise e => trace s' = trace s2 ++ [EvCwd rc] /\ out = Raise e
        | Ok c =>
            exists ru,
              trace s' = trace s2 ++ [EvCwd rc; EvDiskUsage c ru]
              /\ out = match ru with
                       | Raise e => Raise e
                       | Ok u =>
                           Ok (mkOut [LWarnMissing dir; LCurrentUsage (percent_of u)]
                                 (percent_of u) (percent_of u) 0 0)
                       end
        end.
Proof.
  assert (Hrun : exists dir s1 s2 out s',
             sys_resolve (loras_path (Sim.run_args "/nowhere" 90 85 false))
               (Sim.start Sim.disk 1000) = (Ok dir, s1)
             /\ sys_exists dir s1 = (Ok false, s2)
             /\ run (Sim.run_args "/nowhere" 90 85 false) (Sim.start Sim.disk 1000)
                = (out, s')).
  { eexists _, _, _, _, _. split; [vm_compute; reflexivity|].
    split; vm_compute; reflexivity. }
  destruct Hrun as [dir [s1 [s2 [out [s' [Hres [Hex Hrun]]]]]]].
  exists dir, s1, s2, out, s'. split; [exact Hres|]. split; [exact Hex|].
  split; [exact Hrun|].
  exact (X9_run_missing_directory (W:=Sim.machine)
           (Sim.run_args "/nowhere" 90 85 false) (Sim.start Sim.disk 1000)
           s1 s2 s' dir out Hres Hex Hrun).
Defined.

Lemma X10_witness :
  exists before s1 res s',
    _disk_usage_percent
      (root_for_usage
         (mkArgs Sim.loras Sim.loras 93 85 [".safetensors"%string]
            ["keep"%string] 0 0 true))
      (Sim.start Sim.disk 1000) = (Ok before, s1)
    /\ _purge_oldest_until_below
         (mkArgs Sim.loras Sim.loras 93 85 [".safetensors"%string]
            ["keep"%string] 0 0 true)
         (Sim.start Sim.disk 1000) = (Ok res, s')
    /\ (before == 93)%Q
    /\ before_used_pct res = before
    /\ triggered res = true.
Proof.
  assert (Hrun : exists before s1 res s',
             _disk_usage_percent
               (root_for_usage
                  (mkArgs Sim.loras Sim.loras 93 85 [".safetensors"%string]
                     ["keep"%string] 0 0 true))
               (Sim.start Sim.disk 1000) = (Ok before, s1)
             /\ _purge_oldest_until_below
                  (mkArgs Sim.loras Sim.loras 93 85 [".safetensors"%string]
                     ["keep"%string] 0 0 true)
                  (Sim.start Sim.disk 1000) = (Ok res, s')
             /\ (before == 93)%Q
             /\ (93 <= before)%Q).
  { eexists _, _, _, _. split; [vm_compute; reflexivity|].
    split; [vm_compute; reflexivity|]. split; [reflexivity|].
    unfold Qle. cbn. lia. }
  destruct Hrun as (before & s1 & res & s' & Hprobe & Hrun & Heq & Hle).
  destruct (X10_threshold_inclusive (W:=Sim.machine)
              (mkArgs Sim.loras Sim.loras 93 85 [".safetensors"%string]
                 ["keep"%string] 0 0 true)
              (Sim.start Sim.disk 1000) s1 s' before res Hprobe Hrun)
    as (Hbefore & Hiff & _).
  exists before, s1, res, s'. split; [exact Hprobe|]. split; [exact Hrun|].
  split; [exact Heq|]. split; [exact Hbefore|]. exact (proj2 Hiff Hle).
Defined.

Lemma X11_witness :
  delete_count_limit (Sim.args 0 (-1) false) < 0
  /\ exists r s',
      _purge_oldest_until_below (Sim.args 0 (-1) false) (Sim.start Sim.disk 1000)
      = (r, s')
      /\ Forall (fun ev => is_mutation ev = false) (trace s')
      /\ forall res, r = Ok res ->
           files_deleted res = 0 /\ bytes_freed res = 0
           /\ deletions (log res) = [].
Proof.
  split; [reflexivity|].
  assert (Hrun : exists r s',
             _purge_oldest_until_below (Sim.args 0 (-1) false)
               (Sim.start Sim.disk 1000) = (r, s'))
    by (eexists _, _; vm_compute; reflexivity).
  destruct Hrun as [r [s' Hrun]]. exists r, s'. split; [exact Hrun|].
  exact (X11_negative_limit_deletes_nothing (W:=Sim.machine)
           (Sim.args 0 (-1) false) (Sim.start Sim.disk 1000) s' r (trace s')
           eq_refl Hrun eq_refl).
Defined.

Lemma X12_witness :
  exists r s',
    purge_loop (Sim.args 0 0 false) 1000 [Sim.old_file; Sim.new_file]
      (acc0 (Sim.args 0 0 false) 93) (Sim.start Sim.disk 1000) = (r, s')
    /\ (forall pre f o post,
          trace s' = pre ++ EvUnlink f o :: post ->
          exists ru post',
            post = EvDiskUsage (root_for_usage (Sim.args 0 0 false)) ru :: post')
    /\ forall pre p u post,
         trace s' = pre ++ EvDiskUsage p (Ok u) :: post ->
         p = root_for_usage (Sim.args 0 0 false)
         /\ ((percent_of u < target_percent (Sim.args 0 0 false))%Q ->
             post = []
             /\ exists acc' ls,
                 r = Ok acc'
                 /\ lines acc'
                    = ls ++ [LReached (percent_of u)
                               (target_percent (Sim.args 0 0 false))]).
Proof.
  assert (Hrun : exists r s',
             purge_loop (Sim.args 0 0 false) 1000 [Sim.old_file; Sim.new_file]
               (acc0 (Sim.args 0 0 false) 93) (Sim.start Sim.disk 1000) = (r, s'))
    by (eexists _, _; vm_compute; reflexivity).
  destruct Hrun as [r [s' Hrun]]. exists r, s'. split; [exact Hrun|].
  exact (X12_loop_call_order (W:=Sim.machine) (Sim.args 0 0 false) 1000
           [Sim.old_file; Sim.new_file] (acc0 (Sim.args 0 0 false) 93)
           (Sim.start Sim.disk 1000) s' r (trace s') Hrun eq_refl).
Defined.

Lemma X13_witness :
  dry_run (Sim.args 0 0 false) = false
  /\ exists res s' st,
      _purge_oldest_until_below (Sim.args 0 0 false)
        (Sim.start unlink_race_disk 1000) = (Ok res, s')
      /\ In (EvUnlink Sim.old_file (Raise FileNotFoundError)) (trace s')
      /\ In (EvStat Sim.old_file (Ok st)) (trace s')
      /\ In (LDeleted Sim.old_file (st_size st)) (log res).
Proof.
  split; [reflexivity|].
  assert (Hrun : exists res s',
             _purge_oldest_until_below (Sim.args 0 0 false)
               (Sim.start unlink_race_disk 1000) = (Ok res, s')
             /\ In (EvUnlink Sim.old_file (Raise FileNotFoundError)) (trace s')).
  { eexists _, _. split; [vm_compute; reflexivity|]. cbn. find_in. }
  destruct Hrun as [res [s' [Hrun Hin]]].
  destruct (X13_returned_unlinks_counted (W:=Sim.machine) (Sim.args 0 0 false)
              (Sim.start unlink_race_disk 1000) s' res (trace s')
              eq_refl Hrun eq_refl Sim.old_file (Raise FileNotFoundError)
              Hin (or_intror eq_refl)) as [st [Hst Hlog]].
  exists res, s', st. repeat split; assumption.
Defined.

Lemma X14_witness :
  exists r s',
    _purge_oldest_until_below
      (mkArgs "/nowhere"%string Sim.loras 90 85 [".safetensors"%string] ["keep"%string]
         0 0 false)
      (Sim.start Sim.disk 1000) = (r, s')
    /\ r = Raise FileNotFoundError
    /\ (forall res, r = Ok res ->
        forall ev e, In ev (trace s') -> ~ abort_cause ev e)
    /\ forall e, r = Raise e ->
         exists pre ev,
           trace s' = pre ++ [ev]
           /\ abort_cause ev e
           /\ forall ev' e', In ev' pre -> ~ abort_cause ev' e'.
Proof.
  assert (Hrun : exists r s',
             _purge_oldest_until_below
               (mkArgs "/nowhere"%string Sim.loras 90 85 [".safetensors"%string]
                  ["keep"%string] 0 0 false)
               (Sim.start Sim.disk 1000) = (r, s')
             /\ r = Raise FileNotFoundError).
  { eexists _, _. split; [vm_compute; reflexivity | reflexivity]. }
  destruct Hrun as [r [s' [Hrun Hr]]]. exists r, s'. split; [exact Hrun|].
  split; [exact Hr|].
  exact (X14_engine_stops_at_first_failure (W:=Sim.machine)
           (mkArgs "/nowhere"%string Sim.loras 90 85 [".safetensors"%string]
              ["keep"%string] 0 0 false)
           (Sim.start Sim.disk 1000) s' r (trace s') Hrun eq_refl).
Defined.

Lemma X15_witness :
  exists r s',
    _purge_oldest_until_below (Sim.args 0 0 false) (Sim.start Sim.disk 1000)
    = (r, s')
    /\ In (EvUnlink Sim.old_file (Ok tt)) (trace s')
    /\ suffix_rejected (allowed_suffixes (Sim.args 0 0 false)) Sim.old_file = false
    /\ name_excluded (exclude_names (Sim.args 0 0 false)) Sim.old_file = false
    /\ In (EvIsFile Sim.old_file (Ok true)) (trace s')
    /\ exists listing,
        In (EvRglob (loras_dir (Sim.args 0 0 false)) (Ok listing)) (trace s')
        /\ In Sim.old_file listing.
Proof.
  assert (Hrun : exists r s',
             _purge_oldest_until_below (Sim.args 0 0 false)
               (Sim.start Sim.disk 1000) = (r, s')
             /\ In (EvUnlink Sim.old_file (Ok tt)) (trace s')).
  { eexists _, _. split; [vm_compute; reflexivity|]. cbn. find_in. }
  destruct Hrun as [r [s' [Hrun Hin]]]. exists r, s'. split; [exact Hrun|].
  split; [exact Hin|].
  exact (proj2 (X15_engine_deletes_only_candidates (W:=Sim.machine)
                  (Sim.args 0 0 false) (Sim.start Sim.disk 1000) s' r (trace s')
                  Hrun eq_refl)
           Sim.old_file (or_introl (ex_intro _ (Ok tt) Hin))).
Defined.

Lemma X16_witness :
  exists r s',
    _purge_oldest_until_below (Sim.args 0 0 false) (Sim.start Sim.disk 1000)
    = (r, s')
    /\ (forall listing,
          In (EvRglob (loras_dir (Sim.args 0 0 false)) (Ok listing)) (trace s') ->
          NoDup listing)
    /\ NoDup (unlinked (trace s'))
    /\ forall res, r = Ok res -> NoDup (map fst (deletions (log res))).
Proof.
  assert (Hrun : exists r s',
             _purge_oldest_until_below (Sim.args 0 0 false)
               (Sim.start Sim.disk 1000) = (r, s')
             /\ forall listing,
                  In (EvRglob (loras_dir (Sim.args 0 0 false)) (Ok listing))
                    (trace s') ->
                  NoDup listing).
  { eexists _, _. split; [vm_compute; reflexivity|].
    intros listing Hin. cbn in Hin. split_in Hin; try discriminate.
    injection Hin as <-.
    repeat (constructor; [cbn; intros Hx; split_in Hx; discriminate|]).
    constructor. }
  destruct Hrun as [r [s' [Hrun Hnd]]]. exists r, s'. split; [exact Hrun|].
  split; [exact Hnd|].
  exact (X16_no_double_deletion (W:=Sim.machine) (Sim.args 0 0 false)
           (Sim.start Sim.disk 1000) s' r (trace s') Hrun eq_refl Hnd).
Defined.

Lemma X17_witness :
  exists out s',
    run (Sim.run_args Sim.loras 90 85 false) (Sim.start Sim.disk 1000) = (out, s')
    /\ In (EvUnlink Sim.old_file (Ok tt)) (trace s')
    /\ ((exists dir listing f o,
            EvUnlink Sim.old_file (Ok tt) = EvUnlink f o
            /\ run_dry_run (Sim.run_args Sim.loras 90 85 false) = false
            /\ In (EvResolve (loras_path (Sim.run_args Sim.loras 90 85 false))
                     (Ok dir)) (trace s')
            /\ In (EvRglob dir (Ok listing)) (trace s')
            /\ In f listing
            /\ In (EvIsFile f (Ok true)) (trace s')
            /\ suffix_rejected
                 (allowed_suffixes
                    (engine_args (Sim.run_args Sim.loras 90 85 false) dir)) f
               = false
            /\ name_excluded
                 (exclude_names
                    (engine_args (Sim.run_args Sim.loras 90 85 false) dir)) f
               = false)
        \/ (exists h ro,
              In (EvHome (Ok h)) (trace s')
              /\ EvUnlink Sim.old_file (Ok tt)
                 = EvRmtree (path_join h ".local/share/Trash/files") ro)).
Proof.
  assert (Hrun : exists out s',
             run (Sim.run_args Sim.loras 90 85 false) (Sim.start Sim.disk 1000)
             = (out, s')
             /\ In (EvUnlink Sim.old_file (Ok tt)) (trace s')).
  { eexists _, _. split; [vm_compute; reflexivity|]. cbn. find_in. }
  destruct Hrun as [out [s' [Hrun Hin]]]. exists out, s'. split; [exact Hrun|].
  split; [exact Hin|].
  exact (X17_run_mutations_confined (W:=Sim.machine)
           (Sim.run_args Sim.loras 90 85 false) (Sim.start Sim.disk 1000) s' out
           (trace s') Hrun eq_refl (EvUnlink Sim.old_file (Ok tt)) Hin eq_refl).
Defined.

Lemma X18_witness :
  dry_run (Sim.args 0 0 true) = true
  /\ quiet (world (Sim.start Sim.disk 1000))
  /\ (target_percent (Sim.args 0 0 true) <= threshold_percent (Sim.args 0 0 true))%Q
  /\ 0 <= delete_count_limit (Sim.args 0 0 true)
  /\ exists res s',
      _purge_oldest_until_below (Sim.args 0 0 true) (Sim.start Sim.disk 1000)
      = (Ok res, s')
      /\ triggered res = true
      /\ exists files sorted,
          returns (world (Sim.start Sim.disk 1000))
            (clock (Sim.start Sim.disk 1000))
            (_collect_lora_files (loras_dir (Sim.args 0 0 true))
               (allowed_suffixes (Sim.args 0 0 true))
               (exclude_names (Sim.args 0 0 true)))
            (Ok files)
          /\ returns (world (Sim.start Sim.disk 1000))
               (clock (Sim.start Sim.disk 1000))
               (list_sort _mtime_safe files) (Ok sorted)
          /\ deletions (log res)
             = within_limit (delete_count_limit (Sim.args 0 0 true))
                 (dry_candidates (world (Sim.start Sim.disk 1000))
                    (Sim.args 0 0 true) (clock (Sim.start Sim.disk 1000)) sorted)
          /\ forall l pct tgt, In l (log res) -> l <> LReached pct tgt.
Proof.
  assert (Hq : quiet (world (Sim.start Sim.disk 1000)))
    by (apply sim_quiet; reflexivity).
  assert (Hle : (target_percent (Sim.args 0 0 true)
                 <= threshold_percent (Sim.args 0 0 true))%Q)
    by (unfold Qle; simpl; lia).
  assert (Hlim : 0 <= delete_count_limit (Sim.args 0 0 true)) by (simpl; lia).
  split; [reflexivity|]. split; [exact Hq|]. split; [exact Hle|].
  split; [exact Hlim|].
  assert (Hrun : exists res s',
             _purge_oldest_until_below (Sim.args 0 0 true)
               (Sim.start Sim.disk 1000) = (Ok res, s')
             /\ triggered res = true).
  { eexists _, _. split; [vm_compute; reflexivity | reflexivity]. }
  destruct Hrun as [res [s' [Hrun Htrig]]]. exists res, s'.
  split; [exact Hrun|]. split; [exact Htrig|].
  exact (X18_dry_run_lists_every_candidate (W:=Sim.machine) (Sim.args 0 0 true)
           (Sim.start Sim.disk 1000) s' res eq_refl Hq Hle Hlim Hrun Htrig).
Defined.
